(** * CloudWatch metric ingestion ([cloudwatch/cloudWatchMetrics.py])

    A shallow embedding of the ingestion pipeline of the script: the
    window planner ([calculateIntervalBetweenQueries] and the cursor of
    [runHistorical]), the fetcher ([queryMetricRecords]), the transposer
    ([transposeMetrics]) and the two scheduler loops ([runHistorical],
    [runRealtime]), followed by the properties established about them.
    The rest of the script ([JOB_CONFIG], [createJob], [main]) and the
    listing of a job's records ([printJobRecords.py]) are embedded after
    them, and their properties close the development.

    Conventions of the embedding.
    - A [datetime] is an instant, counted in microseconds since the Unix
      epoch (the resolution of Python's [datetime]); every datetime the
      script compares or subtracts is tagged UTC, and a naive datetime is
      represented by the instant it denotes when read as UTC, which is what
      [replaceTimezoneWithUtc] makes of it.  The year range 1..9999 of
      Python's [datetime] is not modelled.
    - A [timedelta] is a signed number of microseconds.
    - A Python [dict] with string keys is a [gmap string _]; Python compares
      dicts by their key/value pairs, which is equality of [gmap]s.
    - A metric value is a number the script only stores and passes on; it is
      carried as an integer.
    - A raised exception is the left injection of a sum. *)

From Stdlib Require Import ZArith String Ascii List Lia.
From stdpp Require Import base option list gmap strings pretty sorting.

Local Open Scope string_scope.
Local Open Scope list_scope.
Local Open Scope Z_scope.

(** ** Dates and durations *)

Abbreviation datetime := Z (only parsing).
Abbreviation timedelta := Z (only parsing).
Abbreviation number := Z (only parsing).

(** [timedelta(seconds = s)] *)
Definition timedelta_seconds (s : Z) : timedelta := s * 1000000.

(** [td.seconds]: the seconds field of the normalised triple
    (days, seconds, microseconds), with [0 <= seconds < 86400]. *)
Definition td_seconds (td : timedelta) : Z := (td / 1000000) mod 86400.

(** [td.days] *)
Definition td_days (td : timedelta) : Z := td / 1000000 / 86400.

(** [td.total_seconds()], rounded down to whole seconds. *)
Definition td_total_seconds_floor (td : timedelta) : Z := td / 1000000.

(** [datetime.fromtimestamp(0, UTC())] *)
Definition epoch : datetime := 0.

(** [replaceTimezoneWithUtc(date)]: the fields are kept and the zone is set
    to UTC, so the instant read as UTC is unchanged. *)
Definition replaceTimezoneWithUtc (date : datetime) : datetime := date.

(** Decimal digits, zero padded on the left to [width] characters. *)
Definition digit (n : Z) : ascii := ascii_of_nat (48 + Z.to_nat (n mod 10)).

Fixpoint zfill (width : nat) (n : Z) : string :=
  match width with
  | O => EmptyString
  | S w => zfill w (n / 10) +:+ String (digit n) EmptyString
  end.

(** The proleptic Gregorian date (year, month, day) of a day number counted
    from 1970-01-01. *)
Definition civil_from_days (days : Z) : Z * Z * Z :=
  let z := days + 719468 in
  let era := z / 146097 in
  let doe := z - era * 146097 in
  let yoe := (doe - doe / 1460 + doe / 36524 - doe / 146096) / 365 in
  let doy := doe - (365 * yoe + yoe / 4 - yoe / 100) in
  let mp := (5 * doy + 2) / 153 in
  let d := doy - (153 * mp + 2) / 5 + 1 in
  let m := if mp <? 10 then mp + 3 else mp - 9 in
  let y := yoe + era * 400 + (if m <=? 2 then 1 else 0) in
  (y, m, d).

(** [dt.isoformat()] of a UTC datetime: [YYYY-MM-DDTHH:MM:SS+00:00], with
    [.ffffff] after the seconds when the microsecond field is not zero. *)
Definition isoformat (dt : datetime) : string :=
  let days := dt / 86400000000 in
  let rest := dt mod 86400000000 in
  let secs := rest / 1000000 in
  let micro := rest mod 1000000 in
  let '(y, m, d) := civil_from_days days in
  zfill 4 y +:+ "-" +:+ zfill 2 m +:+ "-" +:+ zfill 2 d +:+ "T" +:+
  zfill 2 (secs / 3600) +:+ ":" +:+ zfill 2 (secs / 60 mod 60) +:+ ":" +:+
  zfill 2 (secs mod 60) +:+
  (if micro =? 0 then EmptyString else "." +:+ zfill 6 micro) +:+ "+00:00".

(** [str(n)] of an integer. *)
Definition str_int (n : Z) : string := pretty n.

(** ** Exceptions *)

Inductive exn : Type :=
| BotoServerError (error : string)
| TypeError
| IndexError.

Abbreviation result A := (exn + A)%type (only parsing).

#[global] Instance exn_eq_dec : EqDecision exn.
Proof. solve_decision. Defined.

(** ** Module constants *)

Definition UPDATE_INTERVAL : Z := 300.
Definition REPORTING_INTERVAL : Z := 60.
Definition DELAY : Z := 600.
Definition MAX_DATAPOINTS_PER_QUERY : Z := 1440.

(** ** Data model *)

(** [class MetricRecord] *)
Record MetricRecord : Type := mkMetricRecord {
  timestamp : datetime;
  instance : string;
  metric_name : string;
  metric_value : number
}.

#[global] Instance MetricRecord_eq_dec : EqDecision MetricRecord.
Proof. solve_decision. Defined.

(** The values a composite record holds: the two fixed fields are strings,
    a metric field is a number. *)
Inductive Value : Type :=
| VStr (s : string)
| VNum (x : number).

#[global] Instance Value_eq_dec : EqDecision Value.
Proof. solve_decision. Defined.

(** The [dict] built by [transposeMetrics] for one time period. *)
Abbreviation CompositeRecord := (gmap string Value) (only parsing).

(** ** WindowPlanner *)

(** [calculateIntervalBetweenQueries(reporting_interval)] *)
Definition calculateIntervalBetweenQueries (reporting_interval : Z) : timedelta :=
  timedelta_seconds (MAX_DATAPOINTS_PER_QUERY * reporting_interval).

(** ** RecordTransposer *)

(** The local variables of [transposeMetrics]. *)
Record TransposeState : Type := mkTransposeState {
  tranposed_metrics : list CompositeRecord;
  current_record : option CompositeRecord;
  current_time : datetime
}.

#[global] Instance TransposeState_eq_dec : EqDecision TransposeState.
Proof. solve_decision. Defined.

Definition transposeInit : TransposeState :=
  {| tranposed_metrics := []; current_record := None; current_time := epoch |}.

(** The record opened for an observation: [dict()] with the two fixed
    fields assigned. *)
Definition openRecord (metric : MetricRecord) : CompositeRecord :=
  <["instance" := VStr (instance metric)]>
    (<["timestamp" := VStr (isoformat (timestamp metric))]> ∅).

(** [current_record[metric.metric_name] = metric.metric_value] *)
Definition assign (r : CompositeRecord) (metric : MetricRecord) : CompositeRecord :=
  <[metric_name metric := VNum (metric_value metric)]> r.

(** The [if current_time < metric.timestamp] block of the loop body. *)
Definition transposeOpen (st : TransposeState) (metric : MetricRecord) : TransposeState :=
  if current_time st <? timestamp metric then
    {| tranposed_metrics :=
         match current_record st with
         | Some r => tranposed_metrics st ++ [r]
         | None => tranposed_metrics st
         end;
       current_record := Some (openRecord metric);
       current_time := timestamp metric |}
  else st.

(** One iteration of [for metric in metrics].  The assignment
    [current_record[metric.metric_name] = ...] raises [TypeError] when
    [current_record] is still [None]. *)
Definition transposeStep (st : TransposeState) (metric : MetricRecord) : result TransposeState :=
  let st1 := transposeOpen st metric in
  match current_record st1 with
  | None => inl TypeError
  | Some r =>
      inr {| tranposed_metrics := tranposed_metrics st1;
             current_record := Some (assign r metric);
             current_time := current_time st1 |}
  end.

Fixpoint transposeLoop (st : TransposeState) (metrics : list MetricRecord) : result TransposeState :=
  match metrics with
  | [] => inr st
  | metric :: rest =>
      match transposeStep st metric with
      | inl e => inl e
      | inr st' => transposeLoop st' rest
      end
  end.

(** [transposeMetrics(metrics)]: the value returned is [tranposed_metrics]
    as the loop leaves it. *)
Definition transposeMetrics (metrics : list MetricRecord) : result (list CompositeRecord) :=
  match transposeLoop transposeInit metrics with
  | inl e => inl e
  | inr st => inr (tranposed_metrics st)
  end.

(** The records the loop has built when it ends: those appended to
    [tranposed_metrics], then the one still held in [current_record]. *)
Definition recordsBuilt (st : TransposeState) : list CompositeRecord :=
  tranposed_metrics st ++ option_list (current_record st).

(** *** The observations behind each record

    The same loop, keeping for every record the observations written into
    it instead of the dict: a group is the observation that opened the
    record and those assigned to it afterwards, in input order. *)
Abbreviation Group := (MetricRecord * list MetricRecord)%type (only parsing).

Definition members (g : Group) : list MetricRecord := fst g :: snd g.

(** The instant of the observation that opened the group. *)
Definition groupTime (g : Group) : datetime := timestamp (fst g).

(** The dict the loop builds from a group. *)
Definition recordOf (g : Group) : CompositeRecord :=
  foldl assign (openRecord (fst g)) (members g).

(** The loop once a record is open: [closed] are the groups already
    appended, [g] is the open one. *)
Fixpoint groupLoop (closed : list Group) (g : Group) (metrics : list MetricRecord)
    : list Group * Group :=
  match metrics with
  | [] => (closed, g)
  | metric :: rest =>
      if timestamp (fst g) <? timestamp metric
      then groupLoop (closed ++ [g]) (metric, []) rest
      else groupLoop closed (fst g, snd g ++ [metric]) rest
  end.

(** The groups of the records appended to the result, and the group of the
    record left open. *)
Definition transposeGroups (metrics : list MetricRecord)
    : result (list Group * option Group) :=
  match metrics with
  | [] => inr ([], None)
  | metric :: rest =>
      if epoch <? timestamp metric
      then let '(closed, g) := groupLoop [] (metric, []) rest in inr (closed, Some g)
      else inl TypeError
  end.

(** The loop state a pair of groups stands for. *)
Definition stateOfGroups (gs : list Group * option Group) : TransposeState :=
  {| tranposed_metrics := recordOf <$> fst gs;
     current_record := recordOf <$> snd gs;
     current_time := from_option (fun g => timestamp (fst g)) epoch (snd gs) |}.

(** *** Vocabulary of the transposer's properties *)

(** The input is ordered by timestamp, ascending. *)
Definition sorted_by_timestamp (metrics : list MetricRecord) : Prop :=
  Sorted Z.le (timestamp <$> metrics).

(** Every observation is strictly later than the epoch. *)
Definition after_epoch (metrics : list MetricRecord) : Prop :=
  Forall (fun metric => epoch < timestamp metric) metrics.

(** The number of distinct timestamps of the input. *)
Definition distinct_timestamps (metrics : list MetricRecord) : nat :=
  size (list_to_set (timestamp <$> metrics) : gset Z).

(** The value of the last observation, in input order, made at [t] for the
    metric [n]. *)
Definition last_value (t : datetime) (n : string) (metrics : list MetricRecord)
    : option number :=
  metric_value <$>
    last (filter (fun metric => timestamp metric = t ∧ metric_name metric = n) metrics).

(** All the observations of a group were made at the instant of the one
    that opened it. *)
Definition uniform (g : Group) : Prop :=
  Forall (fun o => timestamp o = timestamp (fst g)) (members g).

(** No observation of a group is later than the one that opened it. *)
Definition bounded (g : Group) : Prop :=
  Forall (fun o => timestamp o <= groupTime g) (snd g).

(** No observation of a group is named [n]. *)
Definition unnamed (n : string) (g : Group) : Prop :=
  Forall (fun o => metric_name o ≠ n) (members g).

(** The property asked of every record returned: each observation written
    into it carries the record's own [timestamp] and [instance]. *)
Definition contributors_share_fields (metrics : list MetricRecord) : Prop :=
  ∀ closed g_open, transposeGroups metrics = inr (closed, g_open) →
    ∀ g, g ∈ closed → ∀ o, o ∈ members g →
      recordOf g !! "timestamp" = Some (VStr (isoformat (timestamp o))) ∧
      recordOf g !! "instance" = Some (VStr (instance o)).

(** Following the words of the specification, not the code: an output
    record "treated as a singleton group" of observations is fed back as
    the observations it was built from. *)
Definition regroupedInput (closed : list Group) : list MetricRecord :=
  concat (members <$> closed).

(** ** WindowPlanner: the cursor of [runHistorical] *)

(** The windows [(start, end)] for which the [while True] loop of
    [runHistorical] reaches its [try] statement, [end_] being the value of
    the variable [end] on entry.  [fuel] bounds the number of iterations;
    [None] means the bound was reached. *)
Fixpoint historicalWindows (fuel : nat) (end_date : datetime) (delta : timedelta)
    (end_ : datetime) : option (list (datetime * datetime)) :=
  match fuel with
  | O => None
  | S fuel' =>
      let start := end_ in
      let end1 := start + delta in
      let end2 := if end1 >? end_date then end_date else end1 in
      if start =? end2 then Some []
      else option_map (cons (start, end2))
             (historicalWindows fuel' end_date delta end2)
  end.

(** Consecutive, non-empty windows of length at most [L] leading from [s]
    to [e]. *)
Inductive WindowChain (L : timedelta) : datetime -> datetime -> list (datetime * datetime) -> Prop :=
| chain_done s : WindowChain L s s []
| chain_step s m e ws :
    s < m -> m - s <= L -> WindowChain L m e ws ->
    WindowChain L s e ((s, m) :: ws).

(** ** Realtime cadence *)

(** [sleep_time] as the end of an iteration of [runRealtime] computes it
    from the clock reading [now] and the window end [end_]:
    [duration = now - delay - end] and
    [max(UPDATE_INTERVAL - duration.seconds, 0)]. *)
Definition sleepTime (now end_ : datetime) : Z :=
  let delay := timedelta_seconds DELAY in
  let duration := now - delay - end_ in
  Z.max (UPDATE_INTERVAL - td_seconds duration) 0.

(** [metric_records.sort(key=lambda r : r.timestamp)]: Python's sort is
    stable; so is this insertion sort, an element going before the first
    one whose timestamp is not smaller. *)
Fixpoint insert_by_timestamp (r : MetricRecord) (l : list MetricRecord) : list MetricRecord :=
  match l with
  | [] => [r]
  | x :: l' =>
      if timestamp r <=? timestamp x then r :: l
      else x :: insert_by_timestamp r l'
  end.

Definition sort_by_timestamp (l : list MetricRecord) : list MetricRecord :=
  foldr insert_by_timestamp [] l.

(** ** External collaborators *)

(** A metric series as [list_metrics] returns it. *)
Record Metric : Type := mkMetric {
  name : string;
  dimensions : gmap string (list string)
}.

#[global] Instance Metric_eq_dec : EqDecision Metric.
Proof. solve_decision. Defined.

(** A datapoint of an ['Average'] query: the keys ['Timestamp'] and
    ['Average'] of the dict. *)
Record Datapoint : Type := mkDatapoint {
  dp_Timestamp : datetime;
  dp_Average : number
}.

#[global] Instance Datapoint_eq_dec : EqDecision Datapoint.
Proof. solve_decision. Defined.

(** What a run does that can be seen from outside: a line printed and the
    calls made to the provider, the sink, the clock and [time.sleep]. *)
Inductive event : Type :=
| EvPrint (line : string)
| EvListMetrics (namespace : string)
| EvQuery (m : Metric) (start end_ : datetime) (statistic : string) (period : Z)
| EvUpload (job_id data : string)
| EvUtcnow (now : datetime)
| EvSleep (seconds : Z).

#[global] Instance event_eq_dec : EqDecision event.
Proof. solve_decision. Defined.

(** The objects the script receives or imports: [cloudwatch_conn] and the
    metrics it lists, [engine_client], [datetime.utcnow], [time.sleep] and
    [json.dumps].  Each call reads and advances the state of the outside
    [World]; the provider calls may raise.  [engine_client] is an
    [EngineApiClient] of the [prelert] package, whose code is not among the
    sources embedded here: [upload] is taken as the interface section of the
    specification gives it, a call that returns a status and a body. *)
Class Collaborators (World Response : Type) : Type := {
  list_metrics : string -> World -> result (list Metric) * World;
  metric_query : Metric -> datetime -> datetime -> string -> Z -> World ->
                 result (list Datapoint) * World;
  engine_upload : string -> string -> World -> (Z * Response) * World;
  utcnow : World -> datetime * World;
  time_sleep : Z -> World -> World;
  json_dumps : CompositeRecord -> string;
  json_dumps_response : Response -> string
}.

(** ** The monad of the scheduler

    A computation runs in a world, returns a value or raises, leaves a new
    world and the events it produced, oldest first.  Effects made before an
    exception is raised are kept. *)
Definition M (World A : Type) : Type := World -> result A * World * list event.

Definition ret {World A} (a : A) : M World A := fun w => (inr a, w, []).

Definition raise {World A} (e : exn) : M World A := fun w => (inl e, w, []).

(** A call to a function that touches nothing outside. *)
Definition lift {World A} (r : result A) : M World A := fun w => (r, w, []).

Definition bind {World A B} (m : M World A) (f : A -> M World B) : M World B :=
  fun w =>
    match m w with
    | (inl e, w1, evs1) => (inl e, w1, evs1)
    | (inr a, w1, evs1) =>
        match f a w1 with
        | (r, w2, evs2) => (r, w2, evs1 ++ evs2)
        end
    end.

(** [try: m except BotoServerError as error: h error] *)
Definition try_except_BotoServerError {World A} (m : M World A) (h : string -> M World A) : M World A :=
  fun w =>
    match m w with
    | (inl (BotoServerError error), w1, evs1) =>
        match h error w1 with
        | (r, w2, evs2) => (r, w2, evs1 ++ evs2)
        end
    | other => other
    end.

Declare Scope sched_scope.
Delimit Scope sched_scope with sched.
Notation "x <- m ;; k" := (bind m (fun x => k))
  (at level 100, m at next level, right associativity) : sched_scope.
Notation "m ;;; k" := (bind m (fun _ => k))
  (at level 100, right associativity) : sched_scope.

Definition newline : string := String (ascii_of_nat 10) EmptyString.

Section Scheduler.
Context {World Response : Type} {env : Collaborators World Response}.

Local Open Scope sched_scope.

Definition emit (e : event) : M World unit := fun w => (inr tt, w, [e]).

(** [print line] *)
Definition print (line : string) : M World unit := emit (EvPrint line).

(** [cloudwatch_conn.list_metrics(namespace=...)] *)
Definition call_list_metrics (namespace : string) : M World (list Metric) :=
  fun w => let '(r, w') := list_metrics namespace w in (r, w', [EvListMetrics namespace]).

(** [m.query(start, end, statistic, period=...)] *)
Definition call_query (m : Metric) (start end_ : datetime) (statistic : string)
    (period : Z) : M World (list Datapoint) :=
  fun w => let '(r, w') := metric_query m start end_ statistic period w in
           (r, w', [EvQuery m start end_ statistic period]).

(** [engine_client.upload(job_id, data)] *)
Definition call_upload (job_id data : string) : M World (Z * Response) :=
  fun w => let '(r, w') := engine_upload job_id data w in (inr r, w', [EvUpload job_id data]).

(** [datetime.utcnow()] *)
Definition call_utcnow : M World datetime :=
  fun w => let '(now, w') := utcnow w in (inr now, w', [EvUtcnow now]).

(** [time.sleep(seconds)] *)
Definition call_sleep (seconds : Z) : M World unit :=
  fun w => (inr tt, time_sleep seconds w, [EvSleep seconds]).

(** *** MetricFetcher *)

(** The [for dp in datapoints] loop: one record for each datapoint. *)
Definition recordsOfDatapoints (instance_ : string) (m : Metric)
    (datapoints : list Datapoint) : list MetricRecord :=
  map (fun dp => mkMetricRecord (replaceTimezoneWithUtc (dp_Timestamp dp))
                   instance_ (name m) (dp_Average dp)) datapoints.

(** The [for m in metrics] loop of [queryMetricRecords];
    [m.dimensions['InstanceId'][0]] raises [IndexError] on an empty list. *)
Fixpoint queryMetricLoop (metrics : list Metric) (start end_ : datetime)
    (reporting_interval : Z) (metric_records : list MetricRecord)
    : M World (list MetricRecord) :=
  match metrics with
  | [] => ret metric_records
  | m :: rest =>
      match dimensions m !! "InstanceId" with
      | None => queryMetricLoop rest start end_ reporting_interval metric_records
      | Some [] => raise IndexError
      | Some (instance_ :: _) =>
          datapoints <- call_query m start end_ "Average" reporting_interval ;;
          queryMetricLoop rest start end_ reporting_interval
            (metric_records ++ recordsOfDatapoints instance_ m datapoints)
      end
  end.

(** [queryMetricRecords(metrics, start, end, reporting_interval)] *)
Definition queryMetricRecords (metrics : list Metric) (start end_ : datetime)
    (reporting_interval : Z) : M World (list MetricRecord) :=
  metric_records <- queryMetricLoop metrics start end_ reporting_interval [] ;;
  ret (sort_by_timestamp metric_records).

(** *** IngestionScheduler *)

(** [data = ''; for met in tranposed_metrics: data += json.dumps(met) + '\n'] *)
Definition serialize (tranposed : list CompositeRecord) : string :=
  foldl (fun data met => data +:+ (json_dumps met +:+ newline)) EmptyString tranposed.

(** The [if http_status != 202] block after an upload. *)
Definition reportUpload (http_status : Z) (response : Response) : M World unit :=
  if negb (http_status =? 202) then
    print "Error uploading metric data to the Engine" ;;;
    print (str_int http_status +:+ " " +:+ json_dumps_response response)
  else ret tt.

(** The [except BotoServerError as error] handler. *)
Definition reportQueryError (error : string) : M World unit :=
  print "Error querying CloudWatch" ;;;
  print error.

(** The [try] statement of an iteration of [runHistorical]. *)
Definition historicalFetch (job_id : string) (start end_ : datetime) : M World unit :=
  try_except_BotoServerError
    (metrics <- call_list_metrics "AWS/EC2" ;;
     metric_records <- queryMetricRecords metrics start end_ REPORTING_INTERVAL ;;
     tranposed <- lift (transposeMetrics metric_records) ;;
     let data := serialize tranposed in
     status_response <- call_upload job_id data ;;
     reportUpload (fst status_response) (snd status_response))
    reportQueryError.

(** What an iteration of [runHistorical] does once [start < end] or
    [start > end] is known: the print and the [try] statement. *)
Definition historicalCycle (job_id : string) (start end_ : datetime) : M World unit :=
  print ("Querying metrics starting at time " +:+ isoformat start) ;;;
  historicalFetch job_id start end_.

(** The iterations of [runHistorical] over a given list of windows; an
    exception that leaves an iteration leaves the loop. *)
Fixpoint runWindows (job_id : string) (ws : list (datetime * datetime)) : M World unit :=
  match ws with
  | [] => ret tt
  | (start, end_) :: rest => historicalCycle job_id start end_ ;;; runWindows job_id rest
  end.

(** The [while True] loop of [runHistorical], [end_] being the value of
    the variable [end] on entry.  [fuel] bounds the number of iterations;
    [None] means the bound was reached. *)
Fixpoint historicalLoop (fuel : nat) (job_id : string) (end_date : datetime)
    (delta : timedelta) (end_ : datetime) (w : World)
    : option (result unit * World * list event) :=
  match fuel with
  | O => None
  | S fuel' =>
      let start := end_ in
      let end1 := start + delta in
      let end2 := if end1 >? end_date then end_date else end1 in
      if start =? end2 then Some (inr tt, w, [])
      else
        match historicalCycle job_id start end2 w with
        | (inl e, w1, evs1) => Some (inl e, w1, evs1)
        | (inr _, w1, evs1) =>
            match historicalLoop fuel' job_id end_date delta end2 w1 with
            | None => None
            | Some (r, w2, evs2) => Some (r, w2, evs1 ++ evs2)
            end
        end
  end.

(** [runHistorical(job_id, start_date, end_date, cloudwatch_conn, engine_client)] *)
Definition runHistorical (fuel : nat) (job_id : string) (start_date end_date : datetime)
    (w : World) : option (result unit * World * list event) :=
  historicalLoop fuel job_id end_date
    (calculateIntervalBetweenQueries REPORTING_INTERVAL) start_date w.

(** The [try] statement of an iteration of [runRealtime]; it differs from
    the historical one by printing each document. *)
Definition realtimeFetch (job_id : string) (start end_ : datetime) : M World unit :=
  try_except_BotoServerError
    (metrics <- call_list_metrics "AWS/EC2" ;;
     metric_records <- queryMetricRecords metrics start end_ REPORTING_INTERVAL ;;
     tranposed <- lift (transposeMetrics metric_records) ;;
     data <- foldl (fun acc met =>
                      data <- acc ;;
                      let json_str := json_dumps met in
                      print json_str ;;;
                      ret (data +:+ (json_str +:+ newline)))
                   (ret EmptyString) tranposed ;;
     status_response <- call_upload job_id data ;;
     reportUpload (fst status_response) (snd status_response))
    reportQueryError.

(** One iteration of the [while True] loop of [runRealtime]; the value
    returned is the variable [end] as the iteration leaves it. *)
Definition realtimeCycle (job_id : string) (end_ : datetime) : M World datetime :=
  let delay := timedelta_seconds DELAY in
  let start := end_ in
  now <- call_utcnow ;;
  let end1 := replaceTimezoneWithUtc (now - delay) in
  print ("Querying metrics from " +:+ isoformat start +:+ " to " +:+ isoformat end1) ;;;
  realtimeFetch job_id start end1 ;;;
  now <- call_utcnow ;;
  let now := replaceTimezoneWithUtc now in
  let sleep_time := sleepTime now end1 in
  print ("sleeping for " +:+ str_int sleep_time +:+ " seconds") ;;;
  (if sleep_time >? 0 then call_sleep sleep_time else ret tt) ;;;
  ret end1.

(** The first [cycles] iterations of the loop. *)
Fixpoint realtimeLoop (cycles : nat) (job_id : string) (end_ : datetime) : M World unit :=
  match cycles with
  | O => ret tt
  | S n => end1 <- realtimeCycle job_id end_ ;; realtimeLoop n job_id end1
  end.

(** [runRealtime(job_id, cloudwatch_conn, engine_client)], stopped after
    [cycles] iterations: the loop itself never ends, and only an
    exception leaves it. *)
Definition runRealtime (cycles : nat) (job_id : string) : M World unit :=
  let delay := timedelta_seconds DELAY in
  now <- call_utcnow ;;
  let end_ := replaceTimezoneWithUtc (now - delay - timedelta_seconds UPDATE_INTERVAL) in
  realtimeLoop cycles job_id end_.

End Scheduler.

(** ** Sample inputs *)

(** 2014-10-01T00:00:00Z and the two minutes that follow. *)
Definition t1 : datetime := 1412121600000000.
Definition t2 : datetime := t1 + timedelta_seconds 60.
Definition t3 : datetime := t2 + timedelta_seconds 60.

(** Scenario A: two metrics at [t1], one at [t2], in order. *)
Definition scenario_A : list MetricRecord :=
  [ mkMetricRecord t1 "i1" "CPU" 10;
    mkMetricRecord t1 "i1" "Net" 5;
    mkMetricRecord t2 "i1" "CPU" 20 ].

Definition record_A1 : gmap string Value :=
  <["Net" := VNum 5]> (<["CPU" := VNum 10]>
    (<["instance" := VStr "i1"]> (<["timestamp" := VStr "2014-10-01T00:00:00+00:00"]> ∅))).

Definition record_A2 : gmap string Value :=
  <["CPU" := VNum 20]>
    (<["instance" := VStr "i1"]> (<["timestamp" := VStr "2014-10-01T00:01:00+00:00"]> ∅)).

(** One metric of one instance at three successive minutes. *)
Definition three_minutes : list MetricRecord :=
  [ mkMetricRecord t1 "i1" "CPU" 10;
    mkMetricRecord t2 "i1" "CPU" 20;
    mkMetricRecord t3 "i1" "CPU" 30 ].

(** Two instances reporting at the same instant, in order. *)
Definition two_instances : list MetricRecord :=
  [ mkMetricRecord t1 "i-1" "CPU" 10;
    mkMetricRecord t1 "i-2" "CPU" 20;
    mkMetricRecord t2 "i-1" "CPU" 30 ].

(** An input that is not in order: the second observation is earlier than
    the first. *)
Definition out_of_order : list MetricRecord :=
  [ mkMetricRecord t2 "i-1" "CPU" 10;
    mkMetricRecord t1 "i-1" "Net" 5;
    mkMetricRecord t3 "i-1" "CPU" 30 ].

(** An input that is not in order and repeats a metric at [t1]. *)
Definition interleaved : list MetricRecord :=
  [ mkMetricRecord t1 "i1" "CPU" 1;
    mkMetricRecord t2 "i1" "CPU" 2;
    mkMetricRecord t1 "i1" "CPU" 3;
    mkMetricRecord t3 "i1" "CPU" 4 ].

(** An input in order that repeats a metric at the epoch itself. *)
Definition at_epoch : list MetricRecord :=
  [ mkMetricRecord epoch "i1" "CPU" 1;
    mkMetricRecord epoch "i1" "CPU" 2 ].

(** An input in order that repeats a metric at [t1]. *)
Definition repeated : list MetricRecord :=
  [ mkMetricRecord t1 "i1" "CPU" 1;
    mkMetricRecord t1 "i1" "Net" 7;
    mkMetricRecord t1 "i1" "CPU" 3;
    mkMetricRecord t2 "i1" "CPU" 4 ].

(** The property asked of repeated observations, said of the records
    returned: nothing is raised, no two records returned were opened at the
    same timestamp, and a record returned holds, under each metric name
    observed at the timestamp it was opened at, the value observed last, in
    input order, at that timestamp for that name. *)
Definition last_value_wins (metrics : list MetricRecord) : Prop :=
  ∃ closed g_open,
    transposeGroups metrics = inr (closed, g_open) ∧
    transposeMetrics metrics = inr (recordOf <$> closed) ∧
    NoDup (groupTime <$> closed) ∧
    ∀ g, g ∈ closed →
      ∀ n v, last_value (groupTime g) n metrics = Some v →
             recordOf g !! n = Some (VNum v).

(** The windows [ws] partition [[s, e)] into pieces of length at most [L]:
    there is at least one, the first starts at [s], the last ends at [e],
    each starts where the one before ends, each is non-empty and no longer
    than [L], and every instant of [[s, e)] lies in exactly one. *)
Definition partitions (L : timedelta) (s e : datetime) (ws : list (datetime * datetime)) : Prop :=
  ws ≠ [] ∧
  fst <$> head ws = Some s ∧
  snd <$> last ws = Some e ∧
  (∀ (i : nat) w1 w2, ws !! i = Some w1 → ws !! S i = Some w2 → fst w2 = snd w1) ∧
  (∀ w, w ∈ ws → fst w < snd w ∧ snd w - fst w <= L) ∧
  (∀ t, s <= t < e →
     ∃ (i : nat) w, ws !! i = Some w ∧ fst w <= t < snd w ∧
       ∀ (j : nat) w', ws !! j = Some w' → fst w' <= t < snd w' → j = i).

(** ** Vocabulary of the scheduler's properties *)

(** [produces World P m]: every event of [m], in any world, satisfies [P]. *)
Definition produces (World : Type) {A} (P : event → Prop) (m : M World A) : Prop :=
  ∀ w, Forall P (snd (m w)).

Definition is_upload (ev : event) : bool :=
  match ev with EvUpload _ _ => true | _ => false end.

(** The uploads among the events of a run. *)
Definition uploads (evs : list event) : list event := List.filter is_upload evs.

(** The clock readings among the events of a run, oldest first. *)
Definition readings (evs : list event) : list datetime :=
  omap (fun ev => match ev with EvUtcnow now => Some now | _ => None end) evs.

(** An event that a fetch over the window [(start, end_)] may produce: a
    query is over that window, and the clock is neither read nor slept on. *)
Definition within_window (start end_ : datetime) (ev : event) : Prop :=
  match ev with
  | EvQuery _ s e _ _ => s = start ∧ e = end_
  | EvUtcnow _ | EvSleep _ => False
  | _ => True
  end.

(** A query, if the event is one, is over a window with [start < end]. *)
Definition query_nonempty (ev : event) : Prop :=
  match ev with
  | EvQuery _ s e _ _ => s < e
  | _ => True
  end.

#[global] Instance query_nonempty_dec (ev : event) : Decision (query_nonempty ev).
Proof. destruct ev; simpl; apply _. Defined.

(** ** A sample environment

    A provider that lists one series by image and two by instance, answers
    a query with two datapoints, at the start of the window and a minute
    later, and fails the queries of the series named [failing]; a sink that
    answers every upload with [status]; a clock that gives the readings of a
    list in turn. *)
Definition quote : string := String (ascii_of_nat 34) EmptyString.

Definition ami_metric : Metric :=
  mkMetric "CPUUtilization" (<["ImageId" := ["ami-1"]]> ∅).
Definition cpu_metric : Metric :=
  mkMetric "CPUUtilization" (<["InstanceId" := ["i-1"]]> ∅).
Definition net_metric : Metric :=
  mkMetric "NetworkIn" (<["InstanceId" := ["i-1"]]> ∅).

Definition sample_json_value (v : Value) : string :=
  match v with
  | VStr s => quote +:+ s +:+ quote
  | VNum x => str_int x
  end.

Definition sample_json_dumps (r : gmap string Value) : string :=
  "{" +:+ String.concat ", "
            ((fun kv => quote +:+ fst kv +:+ quote +:+ ": " +:+ sample_json_value (snd kv))
               <$> map_to_list r) +:+ "}".

(** 2014-10-01 and 2014-10-02, as [--start-date] and [--end-date] give
    them. *)
Definition day1 : datetime := t1.
Definition day2 : datetime := t1 + timedelta_seconds 86400.

(** The record of the first minute of a window starting at [t1] in the
    sample environment, and the batch uploaded for such a window. *)
Definition sample_record : gmap string Value :=
  <["NetworkIn" := VNum 1]> (<["CPUUtilization" := VNum 1]>
    (<["instance" := VStr "i-1"]> (<["timestamp" := VStr "2014-10-01T00:00:00+00:00"]> ∅))).

Definition sample_batch : string := sample_json_dumps sample_record +:+ newline.

(** What the historical loop does in the sample environment between
    [start_date = day2] and [end_date = day1]. *)
Definition inverted_run : list event :=
  [ EvPrint "Querying metrics starting at time 2014-10-02T00:00:00+00:00";
    EvListMetrics "AWS/EC2";
    EvQuery cpu_metric day2 day1 "Average" REPORTING_INTERVAL;
    EvQuery net_metric day2 day1 "Average" REPORTING_INTERVAL;
    EvUpload "job"
      (sample_json_dumps
         (<["NetworkIn" := VNum 1]> (<["CPUUtilization" := VNum 1]>
           (<["instance" := VStr "i-1"]>
             (<["timestamp" := VStr "2014-10-02T00:00:00+00:00"]> ∅)))) +:+ newline) ].

(** The observations the sample provider returns for one series over a
    window starting at [t1]. *)
Definition sample_observations (metric : string) : list MetricRecord :=
  [ mkMetricRecord t1 "i-1" metric 1;
    mkMetricRecord (t1 + timedelta_seconds 60) "i-1" metric 2 ].

Definition sampleCollaborators (failing : string) (status : Z)
    : Collaborators (list datetime) string :=
  {| list_metrics := fun _ w => (inr [ami_metric; cpu_metric; net_metric], w);
     metric_query := fun m start _ _ _ w =>
       (if String.eqb (name m) failing
        then inl (BotoServerError "Throttling")
        else inr [mkDatapoint start 1;
                  mkDatapoint (start + timedelta_seconds 60) 2], w);
     engine_upload := fun _ _ w => ((status, "{}"), w);
     utcnow := fun w => match w with [] => (0, []) | now :: w' => (now, w') end;
     time_sleep := fun _ w => w;
     json_dumps := sample_json_dumps;
     json_dumps_response := fun response => response |}.

(** ** Further vocabulary and samples *)

(** The groups of [interleaved]: those of the records returned, and the one
    of the record left open. *)
Definition interleaved_closed : list (MetricRecord * list MetricRecord) :=
  [ (mkMetricRecord t1 "i1" "CPU" 1, []);
    (mkMetricRecord t2 "i1" "CPU" 2, [mkMetricRecord t1 "i1" "CPU" 3]) ].

Definition interleaved_open : option (MetricRecord * list MetricRecord) :=
  Some (mkMetricRecord t3 "i1" "CPU" 4, []).

(** A series dimensioned by instance: the key ['InstanceId'] is among its
    dimensions. *)
Definition has_instance (m : Metric) : Prop := is_Some (dimensions m !! "InstanceId").

(** The queries a fetch over [metrics] makes when none raises: one for each
    series dimensioned by instance, in the order listed. *)
Definition expected_queries (metrics : list Metric) (start end_ : datetime) (period : Z)
    : list event :=
  (fun m => EvQuery m start end_ "Average" period) <$> filter has_instance metrics.

(** The record carries the name of a series of [metrics] and the first of
    its instance identifiers. *)
Definition from_listed (metrics : list Metric) (r : MetricRecord) : Prop :=
  ∃ m i ids, m ∈ metrics ∧ dimensions m !! "InstanceId" = Some (i :: ids) ∧
             instance r = i ∧ metric_name r = name m.

Definition is_list_metrics (ev : event) : bool :=
  match ev with EvListMetrics _ => true | _ => false end.

Definition is_query (ev : event) : bool :=
  match ev with EvQuery _ _ _ _ _ => true | _ => false end.

Definition is_print (ev : event) : bool :=
  match ev with EvPrint _ => true | _ => false end.

(** Each query of [evs] ends [DELAY] seconds before the clock reading that
    precedes it most closely, [cur] being the latest reading made before
    [evs]. *)
Fixpoint delayed (cur : option datetime) (evs : list event) : Prop :=
  match evs with
  | [] => True
  | EvUtcnow now :: rest => delayed (Some now) rest
  | EvQuery _ _ e _ _ :: rest =>
      (∃ now, cur = Some now ∧ e = now - timedelta_seconds DELAY) ∧ delayed cur rest
  | _ :: rest => delayed cur rest
  end.

(** A sleep, if the event is one, lasts from one second to
    [UPDATE_INTERVAL] seconds. *)
Definition sleep_bounded (ev : event) : Prop :=
  match ev with
  | EvSleep seconds => 0 < seconds <= UPDATE_INTERVAL
  | _ => True
  end.

(** The window of the iteration numbered [i], counted from 0, of a
    historical loop from [start_date] to [end_date] in steps of [delta]. *)
Definition nth_window (start_date end_date : datetime) (delta : timedelta) (i : nat)
    : datetime * datetime :=
  (start_date + Z.of_nat i * delta,
   Z.min (start_date + (Z.of_nat i + 1) * delta) end_date).

(** A series listed with the key ['InstanceId'] and no identifier under it. *)
Definition empty_metric : Metric :=
  mkMetric "DiskReadOps" (<["InstanceId" := []]> ∅).

(** What the fetcher returns in the sample environment for a window
    starting at [start]: the two datapoints of each of the two series, in
    ascending order of timestamp. *)
Definition sample_fetched (start : datetime) : list MetricRecord :=
  [ mkMetricRecord start "i-1" "CPUUtilization" 1;
    mkMetricRecord start "i-1" "NetworkIn" 1;
    mkMetricRecord (start + timedelta_seconds 60) "i-1" "CPUUtilization" 2;
    mkMetricRecord (start + timedelta_seconds 60) "i-1" "NetworkIn" 2 ].

(** ** The rest of [cloudWatchMetrics.py]: the job and [main] *)

(** The exceptions of the code outside the scheduler: those of the
    scheduler, [KeyError], [ValueError], and what [ConfigParser] raises
    other than [NoOptionError]. *)
Inductive error : Type :=
| Raised (e : exn)
| KeyError (key : string)
| ValueError
| ConfigParserError (message : string).

#[global] Instance error_eq_dec : EqDecision error.
Proof. solve_decision. Defined.

(** [args.api_port]: the integer default or the string given. *)
Inductive port : Type :=
| PortDefault (n : Z)
| PortGiven (s : string).

#[global] Instance port_eq_dec : EqDecision port.
Proof. solve_decision. Defined.

(** What the scripts do outside the scheduler that can be seen from
    outside, and the events of the scheduler when it runs. *)
Inductive action : Type :=
| Sched (ev : event)
| ActOpen (path : string)
| ActConnect (region access_id secret_key : string)
| ActClient (host base_url : string) (api_port : port)
| ActCreateJob (config : string)
| ActGetJob (job_id : string)
| ActClose (job_id : string)
| ActGetRecords (job_id : string) (skip take : Z)
| ActLog (message : string).

#[global] Instance action_eq_dec : EqDecision action.
Proof. solve_decision. Defined.

(** A computation of the scripts: it may raise an [error]; [None] means
    that the bound on the iterations of a loop was reached. *)
Definition Prog (World A : Type) : Type :=
  World -> option ((error + A) * World * list action).

Definition pret {World A} (a : A) : Prog World A := fun w => Some (inr a, w, []).

Definition praise {World A} (e : error) : Prog World A := fun w => Some (inl e, w, []).

Definition pbind {World A B} (m : Prog World A) (f : A -> Prog World B) : Prog World B :=
  fun w =>
    match m w with
    | None => None
    | Some (inl e, w1, acts1) => Some (inl e, w1, acts1)
    | Some (inr a, w1, acts1) =>
        match f a w1 with
        | None => None
        | Some (r, w2, acts2) => Some (r, w2, acts1 ++ acts2)
        end
    end.

(** A computation of the scheduler, run inside a script. *)
Definition sched {World A} (m : M World A) : Prog World A :=
  fun w =>
    match m w with
    | (inl e, w1, evs) => Some (inl (Raised e), w1, Sched <$> evs)
    | (inr a, w1, evs) => Some (inr a, w1, Sched <$> evs)
    end.

(** The same for one that is bounded by fuel. *)
Definition sched_bounded {World A}
    (m : World -> option (result A * World * list event)) : Prog World A :=
  fun w =>
    match m w with
    | None => None
    | Some (inl e, w1, evs) => Some (inl (Raised e), w1, Sched <$> evs)
    | Some (inr a, w1, evs) => Some (inr a, w1, Sched <$> evs)
    end.

Definition act {World} (a : action) : Prog World unit := fun w => Some (inr tt, w, [a]).

(** [print line] *)
Definition pprint {World} (line : string) : Prog World unit := act (Sched (EvPrint line)).

Declare Scope prog_scope.
Delimit Scope prog_scope with prog.
Notation "x <- m ;; k" := (pbind m (fun x => k))
  (at level 100, m at next level, right associativity) : prog_scope.
Notation "m ;;; k" := (pbind m (fun _ => k))
  (at level 100, right associativity) : prog_scope.

Definition API_BASE_URL : string := "engine/v1".

(** [n] spaces: where a line of [JOB_CONFIG] ends in a backslash, the
    spaces that start the next line belong to the string. *)
Definition spaces (n : nat) : string := String.concat EmptyString (replicate n " ").

Definition quoted (s : string) : string := quote +:+ s +:+ quote.

(** One detector of [JOB_CONFIG]. *)
Definition detector (fieldName : string) : string :=
  "{" +:+ quoted "function" +:+ ":" +:+ quoted "mean" +:+ ", " +:+
  quoted "fieldName" +:+ ":" +:+ quoted fieldName +:+ ", " +:+
  quoted "byFieldName" +:+ ":" +:+ quoted "instance" +:+ "}".

(** The fields of the ten detectors of [JOB_CONFIG], in order. *)
Definition DETECTOR_FIELDS : list string :=
  [ "DiskReadOps"; "DiskReadBytes"; "DiskWriteOps"; "DiskWriteBytes";
    "NetworkIn"; "NetworkOut"; "CPUUtilization"; "StatusCheckFailed";
    "StatusCheckFailed_Instance"; "StatusCheckFailed_System" ].

(** [JOB_CONFIG % arg] *)
Definition JOB_CONFIG (arg : string) : string :=
  "{ " +:+ arg +:+
  spaces 16 +:+ quoted "analysisConfig" +:+ " : {" +:+
  spaces 20 +:+ quoted "bucketSpan" +:+ ":" +:+ str_int UPDATE_INTERVAL +:+ "," +:+
  spaces 20 +:+ quoted "detectors" +:+ " :[" +:+
  spaces 24 +:+ String.concat ("," +:+ spaces 24) (detector <$> DETECTOR_FIELDS) +:+
  spaces 20 +:+ "]" +:+
  spaces 16 +:+ "}," +:+
  spaces 16 +:+ quoted "dataDescription" +:+ " : {" +:+
    quoted "format" +:+ ":" +:+ quoted "JSON" +:+ "," +:+
    quoted "timeField" +:+ ":" +:+ quoted "timestamp" +:+ "," +:+
    quoted "timeFormat" +:+ ":" +:+ quoted "yyyy-MM-dd'T'HH:mm:ssX" +:+
  spaces 16 +:+ "}" +:+
  spaces 12 +:+ "}".

(** The methods of [EngineApiClient] that the job needs, and what the code
    does with a response: [response['id']], absent for [None], and
    [str(response)].  As for [upload], the code of the client is not among
    the sources embedded here: each call returns a status and a body. *)
Class JobClient (World Response : Type) : Type := {
  client_createJob : string -> World -> (Z * Response) * World;
  client_getJob : string -> World -> (Z * Response) * World;
  client_close : string -> World -> World;
  response_id : Response -> option string;
  str_response : Response -> string
}.

(** The result of [config.get(section, option)]. *)
Inductive get_result : Type :=
| Got (value : string)
| NoOptionError (message : string)
| GetRaises (e : error).

(** What [main] takes from the libraries: reading a file ([None] for
    [IOError]), [ConfigParser], [boto.ec2.cloudwatch.connect_to_region]
    ([false] for [None]) and [datetime.strptime] ([None] for
    [ValueError]). *)
Class Platform (World Config : Type) : Type := {
  open_read : string -> World -> option string * World;
  config_readfp : string -> error + Config;
  config_get : Config -> string -> string -> get_result;
  connect_to_region : string -> string -> string -> World -> bool * World;
  strptime : string -> string -> option datetime
}.

(** What [parseArguments] returns. *)
Record Args : Type := mkArgs {
  args_config : string;
  args_api_host : string;
  args_api_port : port;
  args_job_id : option string;
  args_start_date : option string;
  args_end_date : option string
}.

Section Job.
Context {World Response Config : Type}
        {env : Collaborators World Response}
        {client : JobClient World Response}
        {platform : Platform World Config}.

Local Open Scope prog_scope.

(** [client.createJob(config)] *)
Definition call_createJob (config : string) : Prog World (Z * Response) :=
  fun w => let '(r, w') := client_createJob config w in Some (inr r, w', [ActCreateJob config]).

(** [client.getJob(job_id)] *)
Definition call_getJob (job_id : string) : Prog World (Z * Response) :=
  fun w => let '(r, w') := client_getJob job_id w in Some (inr r, w', [ActGetJob job_id]).

(** [engine_client.close(job_id)] *)
Definition call_close (job_id : string) : Prog World unit :=
  fun w => Some (inr tt, client_close job_id w, [ActClose job_id]).

(** [response['id']] *)
Definition get_id (response : Response) : Prog World string :=
  match response_id response with
  | Some job_id => pret job_id
  | None => praise (KeyError "id")
  end.

(** The creation of the job and what follows it, in either branch of
    [createJob]; [created] is the start of the line printed on success. *)
Definition createWith (config created : string) : Prog World (option string) :=
  status_response <- call_createJob config ;;
  if negb (fst status_response =? 201) then
    pprint "Error creating job" ;;;
    pprint (str_response (snd status_response)) ;;;
    pret None
  else
    job_id <- get_id (snd status_response) ;;
    pprint (created +:+ job_id) ;;;
    pret (Some job_id).

(** [createJob(job_id, client)] *)
Definition createJob (job_id : option string) : Prog World (option string) :=
  match job_id with
  | None => createWith (JOB_CONFIG EmptyString) "Created job with automatic ID "
  | Some job_id =>
      status_response <- call_getJob job_id ;;
      if fst status_response =? 404 then
        createWith (JOB_CONFIG (quoted "id" +:+ " : " +:+ quote +:+ job_id +:+ quote +:+ ","))
          "Created job with ID "
      else
        pprint ("Using job with ID " +:+ job_id) ;;;
        pret (Some job_id)
  end.

(** The three [config.get] of [main], in the order of the [try] statement:
    the first that does not return a value decides. *)
Definition get_options (config : Config) : get_result + (string * string * string) :=
  match config_get config "root" "region" with
  | Got region =>
      match config_get config "root" "aws_access_key_id" with
      | Got access_id =>
          match config_get config "root" "aws_secret_access_key" with
          | Got secret_key => inr (region, access_id, secret_key)
          | other => inl other
          end
      | other => inl other
      end
  | other => inl other
  end.

(** [datetime.strptime(date, "%Y-%m-%d")], then [replaceTimezoneWithUtc]. *)
Definition parse_date (date : string) : Prog World datetime :=
  match strptime date "%Y-%m-%d" with
  | Some d => pret (replaceTimezoneWithUtc d)
  | None => praise ValueError
  end.

(** [runRealtime] as [main] sees it return: interrupted from the keyboard,
    which the function catches and reports.  The interrupt is taken when
    [cycles] iterations are done, between two iterations. *)
Definition runRealtimeInterrupted (cycles : nat) (job_id : string) : Prog World unit :=
  sched (runRealtime cycles job_id) ;;;
  pprint "Interrupt caught... terminating real time queries".

(** [main] from the creation of the client on: the job, the dates, the
    scheduler and the closing of the job. *)
Definition main_schedule (fuel cycles : nat) (args : Args) : Prog World unit :=
  act (ActClient (args_api_host args) API_BASE_URL (args_api_port args)) ;;;
  job <- createJob (args_job_id args) ;;
  match job with
  | None => pret tt
  | Some job_id =>
      start_date <- match args_start_date args with
                    | None => pret None
                    | Some date => d <- parse_date date ;; pret (Some d)
                    end ;;
      match start_date with
      | None => runRealtimeInterrupted cycles job_id
      | Some start_date =>
          now <- sched call_utcnow ;;
          end_date <- match args_end_date args with
                      | None => pret (replaceTimezoneWithUtc now)
                      | Some date => parse_date date
                      end ;;
          sched_bounded (runHistorical fuel job_id start_date end_date)
      end ;;;
      pprint "Closing job..." ;;;
      call_close job_id
  end.

(** [main()], on the arguments [args]; [fuel] bounds the iterations of the
    historical loop, and the realtime loop is interrupted after [cycles]
    iterations. *)
Definition main (fuel cycles : nat) (args : Args) : Prog World unit :=
  content <- (fun w => let '(r, w') := open_read (args_config args) w in
                       Some (inr r, w', [ActOpen (args_config args)])) ;;
  match content with
  | None => pprint ("Error opening file " +:+ args_config args)
  | Some text =>
      match config_readfp ("[root]" +:+ newline +:+ text) with
      | inl e => praise e
      | inr config =>
          match get_options config with
          | inl (NoOptionError e) => pprint e
          | inl (GetRaises e) => praise e
          | inl (Got _) => pret tt
          | inr (region, access_id, secret_key) =>
              connected <- (fun w =>
                              let '(r, w') := connect_to_region region access_id secret_key w in
                              Some (inr r, w', [ActConnect region access_id secret_key])) ;;
              if negb connected then pprint ("Error unknown region " +:+ region)
              else main_schedule fuel cycles args
          end
      end
  end.

End Job.

(** ** [printJobRecords.py] *)

Module PrintJobRecords.

Definition HOST : string := "localhost".
Definition PORT : Z := 8080.
Definition BASE_URL : string := "engine/v2".

(** [engine_client.getRecords] with the two filters of the command line,
    and what the script does with a response and with a record in it:
    [int(response['hitCount'])], [response['documents']], [record[key]]
    as [str.format] writes it ([None] for a missing key),
    [json.dumps(response)] and the [repr] of a string. *)
Class RecordsClient (World Response Doc Score : Type) : Type := {
  client_getRecords : string -> Z -> Z -> Score -> Score -> World -> (Z * Response) * World;
  hitCount : Response -> error + Z;
  documents : Response -> error + list Doc;
  field : Doc -> string -> option string;
  dumps : Response -> string;
  repr : string -> string
}.

(** What [parseArguments] returns. *)
Record Args (Score : Type) : Type := mkArgs {
  args_host : string;
  args_port : port;
  args_anomalyScore : Score;
  args_normalizedProbability : Score;
  args_jobid : string
}.

Arguments mkArgs {Score}.
Arguments args_host {Score}.
Arguments args_port {Score}.
Arguments args_anomalyScore {Score}.
Arguments args_normalizedProbability {Score}.
Arguments args_jobid {Score}.

Section Script.
Context {World Response Doc Score : Type}
        {client : RecordsClient World Response Doc Score}.

Local Open Scope prog_scope.

(** [printHeader()] *)
Definition printHeader : Prog World unit :=
  pprint "Date,Anomaly Score,Normalized Probability".

(** [record[key]] *)
Definition get_field (record : Doc) (key : string) : Prog World string :=
  match field record key with
  | Some v => pret v
  | None => praise (KeyError key)
  end.

(** The body of the loop of [printRecords]. *)
Definition printRecord (record : Doc) : Prog World unit :=
  timestamp <- get_field record "timestamp" ;;
  anomalyScore <- get_field record "anomalyScore" ;;
  normalizedProbability <- get_field record "normalizedProbability" ;;
  pprint (timestamp +:+ "," +:+ anomalyScore +:+ "," +:+ normalizedProbability).

(** [printRecords(records)] *)
Fixpoint printRecords (records : list Doc) : Prog World unit :=
  match records with
  | [] => pret tt
  | record :: rest => printRecord record ;;; printRecords rest
  end.

(** [engine_client.getRecords(job_id, skip, take, ...)] *)
Definition call_getRecords (args : Args Score) (skip take : Z) : Prog World (Z * Response) :=
  fun w =>
    let '(r, w') := client_getRecords (args_jobid args) skip take
                      (args_normalizedProbability args) (args_anomalyScore args) w in
    Some (inr r, w', [ActGetRecords (args_jobid args) skip take]).

(** [print (http_status_code, json.dumps(response))] *)
Definition printFailure (http_status_code : Z) (response : Response) : Prog World unit :=
  pprint ("(" +:+ str_int http_status_code +:+ ", " +:+ repr (dumps response) +:+ ")").

Definition of_result {A} (r : error + A) : Prog World A :=
  match r with
  | inl e => praise e
  | inr a => pret a
  end.

(** The [while] loop of [main]; [fuel] bounds its iterations. *)
Fixpoint pageLoop (fuel : nat) (args : Args Score) (skip take hit_count : Z) : Prog World unit :=
  if skip + take <? hit_count then
    match fuel with
    | O => fun _ => None
    | S fuel' =>
        let skip := skip + take in
        status_response <- call_getRecords args skip take ;;
        if negb (fst status_response =? 200) then
          printFailure (fst status_response) (snd status_response)
        else
          records <- of_result (documents (snd status_response)) ;;
          printRecords records ;;;
          pageLoop fuel' args skip take hit_count
    end
  else pret tt.

(** [main()], on the arguments [args]. *)
Definition main (fuel : nat) (args : Args Score) : Prog World unit :=
  let job_id := args_jobid args in
  act (ActClient (args_host args) BASE_URL (args_port args)) ;;;
  act (ActLog ("Get records for job " +:+ job_id)) ;;;
  let skip := 0 in
  let take := 200 in
  status_response <- call_getRecords args skip take ;;
  if negb (fst status_response =? 200) then
    printFailure (fst status_response) (snd status_response)
  else
    hit_count <- of_result (hitCount (snd status_response)) ;;
    printHeader ;;;
    records <- of_result (documents (snd status_response)) ;;
    printRecords records ;;;
    pageLoop fuel args skip take hit_count.

End Script.

End PrintJobRecords.

(** ** Vocabulary for the scripts *)

(** The actions of [main] that come after the connection to the metric
    provider: the client of the engine, the job and the scheduler's calls. *)
Definition beyond_connection (a : action) : bool :=
  match a with
  | Sched (EvPrint _) | ActOpen _ | ActConnect _ _ _ | ActLog _ => false
  | _ => true
  end.

Definition is_create (a : action) : bool :=
  match a with ActCreateJob _ => true | _ => false end.

Definition is_close (a : action) : bool :=
  match a with ActClose _ => true | _ => false end.

Definition is_scheduler_call (a : action) : bool :=
  match a with
  | Sched (EvPrint _) => false
  | Sched _ => true
  | _ => false
  end.

(** The requests for records among some actions: the job, [skip] and
    [take] of each. *)
Definition requests (acts : list action) : list (string * Z * Z) :=
  omap (fun a => match a with
                 | ActGetRecords job_id skip take => Some (job_id, skip, take)
                 | _ => None
                 end) acts.

(** The number of requests that list [hit_count] records by pages of 200:
    one at least. *)
Definition pages (hit_count : Z) : nat := Z.to_nat (Z.max 1 ((hit_count + 199) / 200)).

(** The lines printed among some actions. *)
Definition printed (acts : list action) : list string :=
  omap (fun a => match a with Sched (EvPrint line) => Some line | _ => None end) acts.

(** The line of [printRecords] for a record that has the three fields. *)
Definition record_line {World Response Doc Score}
    `{!PrintJobRecords.RecordsClient World Response Doc Score} (record : Doc) : option string :=
  match PrintJobRecords.field record "timestamp",
        PrintJobRecords.field record "anomalyScore",
        PrintJobRecords.field record "normalizedProbability" with
  | Some t, Some a, Some p => Some (t +:+ "," +:+ a +:+ "," +:+ p)
  | _, _, _ => None
  end.

Definition complete {World Response Doc Score}
    `{!PrintJobRecords.RecordsClient World Response Doc Score} (record : Doc) : Prop :=
  is_Some (record_line record).

(** ** Sample environments for the scripts

    An engine that knows the job [known] only, answers the creation of a
    job with [status] and the identifier [engine-1]; a configuration file
    [aws.conf] with the three options; a provider that knows one region; a
    parser of two dates. *)
Definition sampleJobClient (status : Z) : JobClient (list datetime) string :=
  {| client_createJob := fun _ w => ((status, "created"), w);
     client_getJob := fun job_id w =>
       ((if String.eqb job_id "known" then 200 else 404, job_id), w);
     client_close := fun _ w => w;
     response_id := fun response =>
       if String.eqb response "created" then Some "engine-1" else None;
     str_response := fun response => response |}.

Definition sample_config : gmap string string :=
  <["region" := "eu-west-1"]> (<["aws_access_key_id" := "id"]>
    (<["aws_secret_access_key" := "secret"]> ∅)).

Definition samplePlatform : Platform (list datetime) (gmap string string) :=
  {| open_read := fun path w =>
       (if String.eqb path "aws.conf" then Some "region=eu-west-1" else None, w);
     config_readfp := fun _ => inr sample_config;
     config_get := fun config _ option =>
       match config !! option with
       | Some v => Got v
       | None => NoOptionError ("No option " +:+ option)
       end;
     connect_to_region := fun region _ _ w => (String.eqb region "eu-west-1", w);
     strptime := fun date _ =>
       if String.eqb date "2014-10-01" then Some day1
       else if String.eqb date "2014-10-02" then Some day2
       else None |}.

(** An engine with 450 records of the job that shows one record on each
    page, stamped with the page's [skip]. *)
Definition sample_doc (skip : Z) : gmap string string :=
  <["timestamp" := str_int skip]> (<["anomalyScore" := "1"]>
    (<["normalizedProbability" := "2"]> ∅)).

Definition sampleRecordsClient
    : PrintJobRecords.RecordsClient unit Z (gmap string string) Z :=
  {| PrintJobRecords.client_getRecords := fun _ skip _ _ _ w => ((200, skip), w);
     PrintJobRecords.hitCount := fun _ => inr 450;
     PrintJobRecords.documents := fun skip => inr [sample_doc skip];
     PrintJobRecords.field := fun record key => record !! key;
     PrintJobRecords.dumps := fun _ => "{}";
     PrintJobRecords.repr := fun s => "'" +:+ s +:+ "'" |}.

Definition sample_records_args : PrintJobRecords.Args Z :=
  PrintJobRecords.mkArgs "localhost" (PortDefault 8080) 0 0 "job".

(** ** Sample runs of the scripts *)

(** Realtime mode on a job the engine knows, interrupted before the first
    iteration; and a start date that is no date. *)
Definition sample_realtime_args : Args :=
  mkArgs "aws.conf" "localhost" (PortDefault 8080) (Some "known") None None.

Definition sample_bad_date_args : Args :=
  mkArgs "aws.conf" "localhost" (PortDefault 8080) (Some "known") (Some "yesterday") None.

Definition sample_job_actions : list action :=
  [ ActGetJob "known"; Sched (EvPrint "Using job with ID known") ].

Definition sample_realtime_run : list action :=
  ActClient "localhost" "engine/v1" (PortDefault 8080) ::
  sample_job_actions ++
  [ Sched (EvUtcnow t1);
    Sched (EvPrint "Interrupt caught... terminating real time queries");
    Sched (EvPrint "Closing job..."); ActClose "known" ].

(** What [printJobRecords.py] does against the sample engine. *)
Definition sample_listing : list action :=
  [ ActClient "localhost" "engine/v2" (PortDefault 8080);
    ActLog "Get records for job job";
    ActGetRecords "job" 0 200;
    Sched (EvPrint "Date,Anomaly Score,Normalized Probability");
    Sched (EvPrint "0,1,2");
    ActGetRecords "job" 200 200;
    Sched (EvPrint "200,1,2");
    ActGetRecords "job" 400 200;
    Sched (EvPrint "400,1,2") ].

(** ** Vocabulary for the windows of the realtime loop *)

(** Among the clock readings [rs] that a run of [runRealtime] makes after
    the first one, those that set the end of a window: an iteration reads
    the clock before its queries, for the end of its window, and once more
    before it sleeps. *)
Fixpoint window_ends (rs : list datetime) : list datetime :=
  match rs with
  | [] => []
  | now1 :: rest =>
      now1 :: match rest with
              | [] => []
              | _ :: rest' => window_ends rest'
              end
  end.

(** The windows of the iterations: each starts at the variable [end] as
    the iteration finds it, [cursor] for the first, and ends [DELAY]
    seconds before the reading of the iteration. *)
Fixpoint windows_from (cursor : datetime) (ends : list datetime)
    : list (datetime * datetime) :=
  match ends with
  | [] => []
  | now1 :: rest =>
      let end_ := now1 - timedelta_seconds DELAY in
      (cursor, end_) :: windows_from end_ rest
  end.

(** The windows of the iterations of a run of [runRealtime] whose clock
    readings are [rs]: before the loop [end] is set [DELAY] and
    [UPDATE_INTERVAL] seconds before the first reading. *)
Definition realtimeWindows (rs : list datetime) : list (datetime * datetime) :=
  match rs with
  | [] => []
  | now0 :: rest =>
      windows_from (now0 - timedelta_seconds DELAY - timedelta_seconds UPDATE_INTERVAL)
        (window_ends rest)
  end.

(** The clock advances from one iteration to the next: the reading that
    ends the window of the first iteration is later than the first reading
    less [UPDATE_INTERVAL] seconds, and the one of each other iteration is
    later than the one of the iteration before it.  Nothing is asked of the
    readings made before sleeping. *)
Definition clock_advances (rs : list datetime) : Prop :=
  match rs with
  | [] => True
  | now0 :: rest =>
      Sorted Z.lt ((now0 - timedelta_seconds UPDATE_INTERVAL) :: window_ends rest)
  end.

#[global] Instance clock_advances_dec (rs : list datetime) : Decision (clock_advances rs).
Proof. destruct rs; simpl; apply _. Defined.

(** A query, if the event is one, is over one of the windows [ws]. *)
Definition queried_over (ws : list (datetime * datetime)) (ev : event) : Prop :=
  match ev with
  | EvQuery _ s e _ _ => (s, e) ∈ ws
  | _ => True
  end.

(** A clock that is set back a minute between the two iterations of a run
    of the realtime loop. *)
Definition clock_set_back : list datetime := [t2; t2; t2; t1; t1].

(** * Properties *)

(** A closed decidable statement is settled by evaluating its decision. *)
Ltac by_evaluation := apply (bool_decide_unpack _); vm_compute; exact I.

(** ** The transposer and its groups *)

Lemma recordOf_opener (o : MetricRecord) : recordOf (o, []) = assign (openRecord o) o.
Proof. reflexivity. Qed.

Lemma recordOf_snoc (o : MetricRecord) (fs : list MetricRecord) (m : MetricRecord) :
  recordOf (o, fs ++ [m]) = assign (recordOf (o, fs)) m.
Proof. unfold recordOf, members. simpl. by rewrite foldl_snoc. Qed.

(** Once a record is open the loop never raises, and the state it reaches
    is the one its groups stand for. *)
Lemma transposeLoop_groupLoop (ms : list MetricRecord) :
  ∀ closed g,
    transposeLoop (stateOfGroups (closed, Some g)) ms =
    inr (stateOfGroups (fst (groupLoop closed g ms), Some (snd (groupLoop closed g ms)))).
Proof.
  induction ms as [|m ms IH]; intros closed [o fs]; simpl; [done|].
  unfold transposeStep, transposeOpen. simpl.
  destruct (timestamp o <? timestamp m) eqn:Hlt; simpl.
  - rewrite <- (IH (closed ++ [(o, fs)]) (m, [])).
    unfold stateOfGroups. simpl. by rewrite fmap_app.
  - rewrite <- (IH closed (o, fs ++ [m])).
    unfold stateOfGroups. simpl. by rewrite recordOf_snoc.
Qed.

(** The loop of [transposeMetrics], from its initial state, in terms of the
    groups. *)
Lemma transposeLoop_groups (ms : list MetricRecord) :
  transposeLoop transposeInit ms =
  match transposeGroups ms with
  | inl e => inl e
  | inr gs => inr (stateOfGroups gs)
  end.
Proof.
  destruct ms as [|m ms]; [done|].
  simpl. unfold transposeStep, transposeOpen. simpl.
  destruct (epoch <? timestamp m) eqn:Hlt; simpl; [|done].
  pose proof (transposeLoop_groupLoop ms [] (m, [])) as H.
  unfold stateOfGroups in H. simpl in H. rewrite recordOf_opener in H. rewrite H.
  by destruct (groupLoop [] (m, []) ms).
Qed.

Lemma transposeMetrics_groups (ms : list MetricRecord) :
  transposeMetrics ms =
  match transposeGroups ms with
  | inl e => inl e
  | inr gs => inr (recordOf <$> fst gs)
  end.
Proof.
  unfold transposeMetrics. rewrite transposeLoop_groups.
  by destruct (transposeGroups ms).
Qed.

(** The groups, in order, hold the input, in order. *)
Lemma groupLoop_concat (ms : list MetricRecord) :
  ∀ closed g closed' g',
    groupLoop closed g ms = (closed', g') →
    concat (members <$> (closed' ++ [g'])) =
    concat (members <$> (closed ++ [g])) ++ ms.
Proof.
  induction ms as [|m ms IH]; intros closed [o fs] closed' g' H; simpl in H.
  - inversion H; subst. by rewrite app_nil_r.
  - destruct (timestamp o <? timestamp m).
    + apply IH in H. rewrite H.
      rewrite (fmap_app _ (closed ++ [(o, fs)])), concat_app. simpl.
      by rewrite <- app_assoc.
    + apply IH in H. rewrite H.
      rewrite !fmap_app, !concat_app. simpl.
      rewrite !app_nil_r. unfold members. simpl.
      rewrite <- !app_assoc. simpl. by rewrite <- app_assoc.
Qed.

(** The instants of the groups increase strictly, whatever the input. *)
Lemma groupLoop_increasing (ms : list MetricRecord) :
  ∀ closed g closed' g',
    groupLoop closed g ms = (closed', g') →
    StronglySorted Z.lt (groupTime <$> (closed ++ [g])) →
    StronglySorted Z.lt (groupTime <$> (closed' ++ [g'])).
Proof.
  induction ms as [|m ms IH]; intros closed [o fs] closed' g' H Hs; simpl in H.
  - by inversion H; subst.
  - destruct (timestamp o <? timestamp m) eqn:Hlt.
    + apply IH in H; [done|].
      rewrite fmap_app. apply StronglySorted_app_2; [|done|repeat constructor].
      intros x1 x2 Hx1 Hx2. apply list_elem_of_singleton in Hx2. subst x2.
      apply Z.ltb_lt in Hlt. simpl.
      rewrite fmap_app in Hx1, Hs. apply elem_of_app in Hx1 as [Hx1|Hx1].
      * pose proof (StronglySorted_app_1_elem_of _ _ _ x1 (timestamp o) Hs Hx1) as Hx.
        unfold groupTime at 1. simpl.
        etrans; [apply Hx; simpl; left|done].
      * apply list_elem_of_singleton in Hx1. by subst.
    + apply IH in H; [done|].
      by rewrite fmap_app in *.
Qed.

(** On an input in ascending order every group holds observations of one
    instant. *)
Lemma groupLoop_uniform (ms : list MetricRecord) :
  ∀ closed g closed' g',
    groupLoop closed g ms = (closed', g') →
    StronglySorted Z.le (groupTime g :: (timestamp <$> ms)) →
    Forall uniform closed → uniform g →
    Forall uniform closed' ∧ uniform g'.
Proof.
  induction ms as [|m ms IH]; intros closed [o fs] closed' g' H Hs Hc Hg; simpl in H.
  - by inversion H; subst.
  - apply StronglySorted_inv in Hs as [Hs Hall]. simpl in Hs.
    destruct (timestamp o <? timestamp m) eqn:Hlt.
    + eapply IH; [exact H|exact Hs| |].
      * apply Forall_app; split; [done|by constructor].
      * by repeat constructor.
    + apply Z.ltb_ge in Hlt.
      apply Forall_cons in Hall as [Hom Hall]. unfold groupTime in Hom. simpl in Hom.
      eapply IH; [exact H| |done|].
      * apply StronglySorted_inv in Hs as [Hs Hall'].
        constructor; [done|]. unfold groupTime. simpl. done.
      * unfold uniform, members in *. simpl in *.
        rewrite app_comm_cons. apply Forall_app; split; [done|].
        repeat constructor. lia.
Qed.

(** What the groups of an input in ascending order look like: they hold
    the input in order, each holds the observations of one instant, and
    their instants increase strictly. *)
Lemma transposeGroups_sorted (ms : list MetricRecord) closed g_open :
  sorted_by_timestamp ms →
  transposeGroups ms = inr (closed, g_open) →
  concat (members <$> (closed ++ option_list g_open)) = ms ∧
  Forall uniform (closed ++ option_list g_open) ∧
  StronglySorted Z.lt (groupTime <$> (closed ++ option_list g_open)).
Proof.
  intros Hs H. destruct ms as [|m ms]; simpl in H.
  - inversion H; subst. simpl. repeat split; constructor.
  - destruct (epoch <? timestamp m); [|done].
    destruct (groupLoop [] (m, []) ms) as [c g] eqn:Hg.
    inversion H; subst. simpl.
    apply Sorted_StronglySorted in Hs; [|apply _].
    split; [|split].
    + by rewrite (groupLoop_concat _ _ _ _ _ Hg).
    + destruct (groupLoop_uniform _ _ _ _ _ Hg) as [Hc Hu]; [done|constructor| |].
      * by repeat constructor.
      * apply Forall_app; split; [done|by constructor].
    + eapply groupLoop_increasing; [exact Hg|]. repeat constructor.
Qed.

Lemma elem_of_concat {A} (ls : list (list A)) (x : A) :
  x ∈ concat ls ↔ ∃ l, x ∈ l ∧ l ∈ ls.
Proof.
  rewrite list_elem_of_In, in_concat. split.
  - intros (l & Hl & Hx). exists l. by rewrite !list_elem_of_In.
  - intros (l & Hx & Hl). exists l. by rewrite <- !list_elem_of_In.
Qed.

Lemma StronglySorted_lt_NoDup (l : list Z) : StronglySorted Z.lt l → NoDup l.
Proof.
  induction 1 as [|x l Hl IH Hx]; constructor; [|done].
  intros Hin. rewrite Forall_forall in Hx. specialize (Hx _ Hin). lia.
Qed.

(** On an input in ascending order the loop builds one group for each
    distinct timestamp. *)
Lemma transposeGroups_count (ms : list MetricRecord) closed g_open :
  sorted_by_timestamp ms →
  transposeGroups ms = inr (closed, g_open) →
  length (closed ++ option_list g_open) = distinct_timestamps ms.
Proof.
  intros Hs H.
  destruct (transposeGroups_sorted _ _ _ Hs H) as (Hc & Hu & Hi).
  set (gs := closed ++ option_list g_open) in *.
  unfold distinct_timestamps.
  assert (list_to_set (timestamp <$> ms) =@{gset Z} list_to_set (groupTime <$> gs)) as ->.
  { apply set_eq. intros t. rewrite !elem_of_list_to_set, !list_elem_of_fmap. split.
    - intros (m & -> & Hm). rewrite <- Hc in Hm.
      apply elem_of_concat in Hm as (l & Hml & Hl).
      apply list_elem_of_fmap in Hl as (g & -> & Hg).
      exists g. split; [|done].
      rewrite Forall_forall in Hu. specialize (Hu _ Hg).
      unfold uniform in Hu. rewrite Forall_forall in Hu. by apply Hu.
    - intros (g & -> & Hg). exists (fst g). split; [done|].
      rewrite <- Hc. apply elem_of_concat. exists (members g).
      split; [left|]. by apply list_elem_of_fmap_2. }
  rewrite size_list_to_set; [by rewrite length_fmap|].
  by apply StronglySorted_lt_NoDup.
Qed.

(** The field a group's record holds under a name is the value of the last
    observation of the group with that name; a name no observation of the
    group carries keeps what the opening gave it. *)
Lemma foldl_assign_lookup (l : list MetricRecord) :
  ∀ (r : gmap string Value) (n : string),
    foldl assign r l !! n =
    match last (filter (fun o => metric_name o = n) l) with
    | Some o => Some (VNum (metric_value o))
    | None => r !! n
    end.
Proof.
  induction l as [|o l IH] using rev_ind; intros r n; [done|].
  rewrite foldl_snoc, filter_app, filter_cons, filter_nil.
  unfold assign at 1. destruct (decide (metric_name o = n)) as [Heq|Hne].
  - rewrite last_snoc. subst n. by rewrite lookup_insert_eq.
  - rewrite app_nil_r, lookup_insert_ne by done. apply IH.
Qed.

Lemma filter_all {A} (P : A → Prop) `{∀ x, Decision (P x)} (l : list A) :
  Forall P l → filter P l = l.
Proof.
  induction 1 as [|x l Hx Hl IH]; [done|].
  rewrite filter_cons. destruct (decide (P x)); [by rewrite IH|done].
Qed.

Lemma filter_none {A} (P : A → Prop) `{∀ x, Decision (P x)} (l : list A) :
  Forall (fun x => ¬ P x) l → filter P l = [].
Proof.
  induction 1 as [|x l Hx Hl IH]; [done|].
  rewrite filter_cons. by destruct (decide (P x)).
Qed.

Lemma recordOf_unnamed (g : MetricRecord * list MetricRecord) (n : string) :
  unnamed n g → recordOf g !! n = openRecord (fst g) !! n.
Proof.
  intros Hu. unfold recordOf. rewrite foldl_assign_lookup.
  by rewrite (filter_none _ _ Hu).
Qed.

(** In a list of uniform groups of distinct instants, the observations
    made at the instant of a group are the group's observations. *)
Lemma filter_group_members (gs : list (MetricRecord * list MetricRecord)) g :
  Forall uniform gs → NoDup (groupTime <$> gs) → g ∈ gs →
  filter (fun o => timestamp o = groupTime g) (concat (members <$> gs)) = members g.
Proof.
  assert (Hall : ∀ g0 : MetricRecord * list MetricRecord, uniform g0 →
            groupTime g0 = groupTime g →
            filter (fun o => timestamp o = groupTime g) (members g0) = members g0).
  { intros g0 Hu Heq. apply filter_all. eapply Forall_impl; [exact Hu|].
    intros o Ho. simpl in Ho. by rewrite Ho. }
  assert (Hnone : ∀ g0 : MetricRecord * list MetricRecord, uniform g0 →
            groupTime g0 ≠ groupTime g →
            filter (fun o => timestamp o = groupTime g) (members g0) = []).
  { intros g0 Hu Hne. apply filter_none. eapply Forall_impl; [exact Hu|].
    intros o Ho Heq. simpl in Ho. apply Hne. by rewrite <- Heq, Ho. }
  induction gs as [|g0 gs IH]; intros Hu Hnd Hin; [by apply elem_of_nil in Hin|].
  apply Forall_cons in Hu as [Hu0 Hu]. rewrite fmap_cons in Hnd.
  apply NoDup_cons in Hnd as [Hni Hnd].
  rewrite fmap_cons, concat_cons, filter_app.
  destruct (decide (groupTime g0 = groupTime g)) as [Heq|Hne].
  - rewrite (Hall _ Hu0 Heq).
    assert (filter (fun o => timestamp o = groupTime g) (concat (members <$> gs)) = []) as ->.
    { clear IH Hin. induction gs as [|g1 gs IH1]; [done|].
      apply Forall_cons in Hu as [Hu1 Hu]. rewrite fmap_cons in Hnd, Hni.
      apply NoDup_cons in Hnd as [_ Hnd].
      rewrite fmap_cons, concat_cons, filter_app, IH1; [|done|by intros Hx; apply Hni; right|done].
      rewrite Hnone; [done|done|]. intros Heq1. apply Hni. rewrite Heq, <- Heq1. left. }
    rewrite app_nil_r. apply elem_of_cons in Hin as [->|Hin]; [done|].
    exfalso. apply Hni. rewrite Heq. by apply list_elem_of_fmap_2.
  - rewrite (Hnone _ Hu0 Hne). simpl. apply elem_of_cons in Hin as [->|Hin]; [done|].
    by apply IH.
Qed.

Lemma recordsBuilt_groups closed g_open :
  recordsBuilt (stateOfGroups (closed, g_open)) = recordOf <$> (closed ++ option_list g_open).
Proof. unfold recordsBuilt, stateOfGroups. simpl. rewrite fmap_app. by destruct g_open. Qed.

Lemma after_epoch_groups (ms : list MetricRecord) :
  after_epoch ms → ∃ closed g_open, transposeGroups ms = inr (closed, g_open).
Proof.
  intros H. destruct H as [|m ms Hm Hms]; [by exists [], None|].
  simpl. apply Z.ltb_lt in Hm. rewrite Hm.
  destruct (groupLoop [] (m, []) ms) as [c g]. by exists c, (Some g).
Qed.

(** On an input in ascending order and later than the epoch, the result has
    one record less than there are distinct timestamps: the record of the
    last timestamp stays in [current_record]. *)
Lemma transposeMetrics_length (ms : list MetricRecord) :
  sorted_by_timestamp ms → after_epoch ms → ms ≠ [] →
  ∃ out, transposeMetrics ms = inr out ∧ S (length out) = distinct_timestamps ms.
Proof.
  intros Hs He Hne.
  destruct (after_epoch_groups _ He) as (closed & g_open & Hg).
  rewrite transposeMetrics_groups, Hg. exists (recordOf <$> closed). split; [done|].
  rewrite <- (transposeGroups_count _ _ _ Hs Hg), length_fmap, length_app.
  destruct ms as [|m ms]; [done|]. simpl in Hg.
  destruct (epoch <? timestamp m); [|done].
  destruct (groupLoop [] (m, []) ms). inversion Hg; subst. simpl. lia.
Qed.

(** C1, at the input of Scenario A: the input is in order and has two
    distinct timestamps, yet [transposeMetrics] returns the single record of
    [t1]; the record of [t2] is still in [current_record] when the loop ends
    and is not appended, so the result is not the two records the
    specification lists. *)
Theorem scenario_A_last_record_not_flushed :
  sorted_by_timestamp scenario_A ∧
  distinct_timestamps scenario_A = 2%nat ∧
  transposeLoop transposeInit scenario_A =
    inr {| tranposed_metrics := [record_A1];
           current_record := Some record_A2;
           current_time := t2 |} ∧
  transposeMetrics scenario_A = inr [record_A1] ∧
  transposeMetrics scenario_A ≠ inr [record_A1; record_A2].
Proof. repeat split; by_evaluation. Qed.

(** C9: on an input whose observations are all strictly later than the
    epoch, [transposeMetrics] returns a result, and at every iteration the
    assignment of the metric field finds a record in [current_record]. *)
Theorem transposeMetrics_total_after_epoch (ms : list MetricRecord) :
  after_epoch ms →
  (∃ out, transposeMetrics ms = inr out) ∧
  (∀ pre m post, ms = pre ++ m :: post →
     ∃ st, transposeLoop transposeInit pre = inr st ∧
           is_Some (current_record (transposeOpen st m))).
Proof.
  intros He. split.
  - destruct (after_epoch_groups _ He) as (closed & g_open & Hg).
    rewrite transposeMetrics_groups, Hg. by eexists.
  - intros pre m post ->. apply Forall_app in He as [Hpre Hm].
    apply Forall_cons in Hm as [Hm _].
    destruct (after_epoch_groups _ Hpre) as (closed & g_open & Hg).
    rewrite transposeLoop_groups, Hg. eexists; split; [done|].
    unfold transposeOpen. destruct (_ <? _) eqn:Hlt; [by eexists|].
    destruct pre as [|p pre]; simpl in Hg.
    + inversion Hg; subst. simpl in Hlt. apply Z.ltb_ge in Hlt. lia.
    + destruct (epoch <? timestamp p); [|done].
      destruct (groupLoop [] (p, []) pre). inversion Hg; subst. by eexists.
Qed.

(** The condition is needed: a first observation at the epoch or before it
    opens no record, and its assignment raises. *)
Lemma transposeMetrics_raises_at_epoch (m : MetricRecord) (ms : list MetricRecord) :
  timestamp m <= epoch → transposeMetrics (m :: ms) = inl TypeError.
Proof.
  intros Hle. rewrite transposeMetrics_groups. simpl.
  apply Z.ltb_ge in Hle. by rewrite Hle.
Qed.

Lemma transposeMetrics_total_after_epoch_witness :
  after_epoch scenario_A ∧
  (∃ out, transposeMetrics scenario_A = inr out) ∧
  (∀ pre m post, scenario_A = pre ++ m :: post →
     ∃ st, transposeLoop transposeInit pre = inr st ∧
           is_Some (current_record (transposeOpen st m))).
Proof.
  assert (H : after_epoch scenario_A) by by_evaluation.
  split; [exact H|]. exact (transposeMetrics_total_after_epoch scenario_A H).
Defined.

(** C3 fails: in [two_instances], an input in order, the observation of
    instance [i-2] is written into the record opened for [i-1], so its
    instance is not the record's; in [out_of_order] the observation made at
    [t1] is written into the record opened at [t2], so its timestamp is not
    the record's. *)
Lemma contributors_share_fields_counterexample :
  sorted_by_timestamp two_instances ∧
  ¬ contributors_share_fields two_instances ∧
  ¬ contributors_share_fields out_of_order.
Proof.
  split; [by_evaluation|]. split.
  - intros H.
    specialize (H [(mkMetricRecord t1 "i-1" "CPU" 10, [mkMetricRecord t1 "i-2" "CPU" 20])]
                  (Some (mkMetricRecord t2 "i-1" "CPU" 30, [])) eq_refl
                  _ (list_elem_of_here _ _) (mkMetricRecord t1 "i-2" "CPU" 20)).
    destruct H as [_ H]; [right; left|]. revert H. by_evaluation.
  - intros H.
    specialize (H [(mkMetricRecord t2 "i-1" "CPU" 10, [mkMetricRecord t1 "i-1" "Net" 5])]
                  (Some (mkMetricRecord t3 "i-1" "CPU" 30, [])) eq_refl
                  _ (list_elem_of_here _ _) (mkMetricRecord t1 "i-1" "Net" 5)).
    destruct H as [H _]; [right; left|]. revert H. by_evaluation.
Qed.

(** C3, amended: on an input in ascending order, the observations written
    into a returned record were all made at the instant of the observation
    that opened it; the record's [timestamp] is that instant and its
    [instance] is the opening observation's, unless a metric of the group
    bears the name of the field.  Nothing is said of the instances of the
    other observations. *)
Theorem sorted_contributors_share_timestamp (ms : list MetricRecord) closed g_open :
  sorted_by_timestamp ms →
  transposeGroups ms = inr (closed, g_open) →
  transposeMetrics ms = inr (recordOf <$> closed) ∧
  ∀ g, g ∈ closed →
    (∀ o, o ∈ members g → timestamp o = timestamp (fst g)) ∧
    (unnamed "timestamp" g →
       recordOf g !! "timestamp" = Some (VStr (isoformat (timestamp (fst g))))) ∧
    (unnamed "instance" g →
       recordOf g !! "instance" = Some (VStr (instance (fst g)))).
Proof.
  intros Hs Hg. split; [by rewrite transposeMetrics_groups, Hg|].
  destruct (transposeGroups_sorted _ _ _ Hs Hg) as (_ & Hu & _).
  apply Forall_app in Hu as [Hu _]. rewrite Forall_forall in Hu.
  intros g Hin. specialize (Hu _ Hin). split; [|split].
  - unfold uniform in Hu. by rewrite Forall_forall in Hu.
  - intros Hn. by rewrite (recordOf_unnamed _ _ Hn).
  - intros Hn. by rewrite (recordOf_unnamed _ _ Hn).
Qed.

Lemma sorted_contributors_share_timestamp_witness :
  let g := (mkMetricRecord t1 "i1" "CPU" 10, [mkMetricRecord t1 "i1" "Net" 5]) in
  transposeMetrics scenario_A = inr [recordOf g] ∧
  ∀ g', g' ∈ [g] →
    (∀ o, o ∈ members g' → timestamp o = timestamp (fst g')) ∧
    (unnamed "timestamp" g' →
       recordOf g' !! "timestamp" = Some (VStr (isoformat (timestamp (fst g'))))) ∧
    (unnamed "instance" g' →
       recordOf g' !! "instance" = Some (VStr (instance (fst g')))).
Proof.
  intros g.
  apply (sorted_contributors_share_timestamp scenario_A [g]
           (Some (mkMetricRecord t2 "i1" "CPU" 20, []))).
  - by_evaluation.
  - by_evaluation.
Defined.

(** C10 fails on an input that is not in order: in [interleaved] the last
    value observed at [t1] for [CPU] is 3, and the record returned for [t1]
    holds 1; the later observation went into the record opened at [t2].  It
    fails as well on [at_epoch], where the first assignment raises. *)
Lemma last_value_wins_counterexample :
  ¬ last_value_wins interleaved ∧ ¬ last_value_wins at_epoch.
Proof.
  split.
  - intros (closed & g_open & Hg & _ & _ & H).
    assert (Hgs : transposeGroups interleaved = inr (interleaved_closed, interleaved_open))
      by by_evaluation.
    rewrite Hgs in Hg. inversion Hg; subst; clear Hg Hgs.
    specialize (H (mkMetricRecord t1 "i1" "CPU" 1, []) ltac:(left) "CPU" 3).
    revert H. by_evaluation.
  - intros (closed & g_open & Hg & _). revert Hg. by_evaluation.
Qed.

(** C10, amended: on an input in ascending order whose observations are
    all later than the epoch, nothing is raised, no two records returned
    were opened at the same timestamp, and a record returned holds, under
    each metric name observed at its timestamp, the value observed last.
    Nothing is said of the record that the loop has not returned. *)
Theorem sorted_last_value_wins (ms : list MetricRecord) :
  sorted_by_timestamp ms → after_epoch ms → last_value_wins ms.
Proof.
  intros Hs He.
  destruct (after_epoch_groups _ He) as (closed & g_open & Hg).
  exists closed, g_open. split; [done|].
  split; [by rewrite transposeMetrics_groups, Hg|].
  destruct (transposeGroups_sorted _ _ _ Hs Hg) as (Hc & Hu & Hi).
  set (gs := closed ++ option_list g_open) in *.
  pose proof (StronglySorted_lt_NoDup _ Hi) as Hnd.
  split.
  { unfold gs in Hnd. rewrite fmap_app in Hnd. by apply NoDup_app in Hnd as [Hnd _]. }
  intros g Hin n v Hv.
  assert (Hgin : g ∈ gs) by (apply elem_of_app; by left).
  unfold last_value in Hv.
  destruct (last (filter _ ms)) as [o|] eqn:Hlast; [|done].
  simpl in Hv. injection Hv as <-.
  unfold recordOf. rewrite foldl_assign_lookup.
  rewrite <- (filter_group_members gs g Hu Hnd Hgin), Hc.
  rewrite list_filter_filter.
  erewrite (list_filter_iff _ (fun m => timestamp m = groupTime g ∧ metric_name m = n));
    [by rewrite Hlast|].
  intros x. tauto.
Qed.

Lemma sorted_last_value_wins_witness :
  sorted_by_timestamp repeated ∧ after_epoch repeated ∧ last_value_wins repeated.
Proof.
  assert (Hs : sorted_by_timestamp repeated) by by_evaluation.
  assert (He : after_epoch repeated) by by_evaluation.
  split; [exact Hs|]. split; [exact He|].
  exact (sorted_last_value_wins repeated Hs He).
Defined.

(** *** A second pass over the groups of a first pass *)

Lemma groupLoop_bounded (ms : list MetricRecord) :
  ∀ closed g closed' g',
    groupLoop closed g ms = (closed', g') →
    Forall bounded closed → bounded g →
    Forall bounded closed' ∧ bounded g'.
Proof.
  induction ms as [|m ms IH]; intros closed [o fs] closed' g' H Hc Hg; simpl in H.
  - by inversion H; subst.
  - destruct (timestamp o <? timestamp m) eqn:Hlt.
    + eapply IH; [exact H| |constructor].
      apply Forall_app; split; [done|by constructor].
    + apply Z.ltb_ge in Hlt. eapply IH; [exact H|done|].
      unfold bounded in *. simpl in *. apply Forall_app; split; [done|].
      by repeat constructor.
Qed.

(** The first group keeps the observation that opened it. *)
Lemma groupLoop_head (ms : list MetricRecord) :
  ∀ closed g closed' g',
    groupLoop closed g ms = (closed', g') →
    fst <$> head (closed' ++ [g']) = fst <$> head (closed ++ [g]).
Proof.
  induction ms as [|m ms IH]; intros closed [o fs] closed' g' H; simpl in H.
  - by inversion H; subst.
  - destruct (timestamp o <? timestamp m).
    + rewrite (IH _ _ _ _ H). by destruct closed.
    + rewrite (IH _ _ _ _ H). by destruct closed.
Qed.

(** Observations not later than the one that opened the group join it. *)
Lemma groupLoop_absorb (fs2 : list MetricRecord) :
  ∀ closed o fs1 rest,
    Forall (fun m => timestamp m <= timestamp o) fs2 →
    groupLoop closed (o, fs1) (fs2 ++ rest) = groupLoop closed (o, fs1 ++ fs2) rest.
Proof.
  induction fs2 as [|m fs2 IH]; intros closed o fs1 rest Hb; simpl.
  - by rewrite app_nil_r.
  - apply Forall_cons in Hb as [Hm Hb].
    apply Z.ltb_ge in Hm. rewrite Hm.
    rewrite (IH _ _ _ _ Hb). by rewrite <- app_assoc.
Qed.

Lemma last_default {A} (l : list A) (x d1 d2 : A) :
  List.last (x :: l) d1 = List.last (x :: l) d2.
Proof.
  revert x. induction l as [|y l IH]; intros x; [done|].
  change (List.last (y :: l) d1 = List.last (y :: l) d2). apply IH.
Qed.

(** Fed the observations of groups it has built, the loop builds the same
    groups again, and again leaves the last one open. *)
Lemma groupLoop_regroup (gs : list (MetricRecord * list MetricRecord)) :
  ∀ closed g,
    Forall bounded gs →
    StronglySorted Z.lt (groupTime <$> (g :: gs)) →
    groupLoop closed g (concat (members <$> gs)) =
    (closed ++ removelast (g :: gs), List.last gs g).
Proof.
  induction gs as [|[o1 fs1] gs IH]; intros closed [o fs] Hb Hs.
  - simpl. by rewrite app_nil_r.
  - apply Forall_cons in Hb as [Hb1 Hb].
    rewrite fmap_cons in Hs. apply StronglySorted_inv in Hs as [Hs Hall].
    rewrite fmap_cons in Hall. apply Forall_cons in Hall as [Hlt _].
    unfold groupTime in Hlt. simpl in Hlt.
    rewrite fmap_cons, concat_cons. unfold members at 1. simpl.
    apply Z.ltb_lt in Hlt. rewrite Hlt.
    rewrite groupLoop_absorb by exact Hb1. simpl.
    rewrite (IH _ (o1, fs1) Hb Hs).
    rewrite <- app_assoc. simpl. f_equal.
    destruct gs as [|g2 gs]; [done|]. apply last_default.
Qed.

(** Whenever a first pass returns records, a second pass over the
    observations they were built from returns all of them but the last. *)
Lemma retranspose_drops_last (ms : list MetricRecord) closed g_open :
  transposeGroups ms = inr (closed, g_open) →
  closed ≠ [] →
  transposeMetrics ms = inr (recordOf <$> closed) ∧
  transposeMetrics (regroupedInput closed) = inr (recordOf <$> removelast closed) ∧
  S (length (removelast closed)) = length closed.
Proof.
  intros Hg Hne. split; [by rewrite transposeMetrics_groups, Hg|].
  destruct ms as [|m ms]; [by inversion Hg; subst|]. simpl in Hg.
  destruct (epoch <? timestamp m) eqn:Hm; [|done].
  destruct (groupLoop [] (m, []) ms) as [c g] eqn:Hl. inversion Hg; subst.
  destruct (groupLoop_bounded _ _ _ _ _ Hl) as [Hb _]; [constructor|constructor|].
  assert (Hs : StronglySorted Z.lt (groupTime <$> (closed ++ [g]))).
  { eapply groupLoop_increasing; [exact Hl|]. repeat constructor. }
  rewrite fmap_app in Hs. apply StronglySorted_app_1_l in Hs.
  pose proof (groupLoop_head _ _ _ _ _ Hl) as Hh. simpl in Hh.
  destruct closed as [|[o1 fs1] gs]; [done|]. simpl in Hh. injection Hh as ->.
  apply Forall_cons in Hb as [Hb1 Hb].
  split.
  - rewrite transposeMetrics_groups. unfold regroupedInput.
    rewrite fmap_cons, concat_cons. unfold members at 1. simpl. rewrite Hm.
    rewrite groupLoop_absorb by exact Hb1. simpl.
    by rewrite (groupLoop_regroup gs [] (m, fs1) Hb Hs).
  - clear. revert m fs1. induction gs as [|g gs IH]; intros m fs1; [done|].
    change (S (S (length (removelast (g :: gs)))) = S (length (g :: gs))).
    f_equal. destruct g. apply IH.
Qed.

(** C8, at [three_minutes]: its result has two records; fed back as the
    observations they were built from, the second pass returns only the
    first of them, the record of the last timestamp being left in
    [current_record] once more.  The second pass is not a no-op. *)
Theorem retranspose_drops_a_record :
  ∃ closed g_open,
    transposeGroups three_minutes = inr (closed, g_open) ∧
    transposeMetrics three_minutes = inr (recordOf <$> closed) ∧
    length closed = 2%nat ∧
    regroupedInput closed =
      [mkMetricRecord t1 "i1" "CPU" 10; mkMetricRecord t2 "i1" "CPU" 20] ∧
    transposeMetrics (regroupedInput closed) = inr (recordOf <$> take 1 closed) ∧
    transposeMetrics (regroupedInput closed) ≠ transposeMetrics three_minutes.
Proof.
  exists [(mkMetricRecord t1 "i1" "CPU" 10, []); (mkMetricRecord t2 "i1" "CPU" 20, [])],
         (Some (mkMetricRecord t3 "i1" "CPU" 30, [])).
  repeat split; by_evaluation.
Qed.

(** ** The window planner *)

Section Windows.
Variables (end_date : datetime) (delta : timedelta).
Hypothesis delta_pos : 0 < delta.

(** More fuel does not change the windows found. *)
Lemma historicalWindows_fuel (fuel fuel' : nat) (end_ : datetime) ws :
  historicalWindows fuel end_date delta end_ = Some ws →
  (fuel ≤ fuel')%nat →
  historicalWindows fuel' end_date delta end_ = Some ws.
Proof using Type.
  revert fuel' end_ ws.
  induction fuel as [|fuel IH]; intros fuel' end_ ws H Hle; [done|].
  destruct fuel' as [|fuel']; [lia|]. simpl in *.
  destruct (_ =? _); [done|].
  destruct (historicalWindows fuel _ _ _) as [ws'|] eqn:Hw; [|done].
  by rewrite (IH fuel' _ ws' Hw) by lia.
Qed.

(** From a cursor not later than [end_date] the loop ends, and the
    windows it went through lead from the cursor to [end_date]. *)
Lemma historicalWindows_chain (n : nat) :
  ∀ end_ : datetime,
    end_ <= end_date →
    end_date - end_ <= Z.of_nat n * delta →
    ∃ ws, historicalWindows (S n) end_date delta end_ = Some ws ∧
          WindowChain delta end_ end_date ws.
Proof using delta_pos.
  induction n as [|n IH]; intros end_ Hle Hn.
  - assert (end_ = end_date) as -> by lia. simpl.
    destruct (end_date + delta >? end_date) eqn:Hgt; [|lia].
    rewrite Z.eqb_refl. eexists; split; [done|constructor].
  - change (historicalWindows (S (S n)) end_date delta end_) with
      (let end2 := if end_ + delta >? end_date then end_date else end_ + delta in
       if end_ =? end2 then Some []
       else option_map (cons (end_, end2)) (historicalWindows (S n) end_date delta end2)).
    destruct (end_ + delta >? end_date) eqn:Hgt; simpl.
    + destruct (end_ =? end_date) eqn:Heq.
      * apply Z.eqb_eq in Heq as ->. eexists; split; [done|constructor].
      * apply Z.eqb_neq in Heq.
        destruct (IH end_date) as (ws & Hws & Hch); [lia|lia|].
        destruct (end_date + delta >? end_date) eqn:Hgt'; [|lia].
        rewrite Z.eqb_refl. eexists; split; [done|].
        apply chain_step; [lia|lia|constructor].
    + destruct (end_ =? end_ + delta) eqn:Heq; [apply Z.eqb_eq in Heq; lia|].
      destruct (IH (end_ + delta)) as (ws & Hws & Hch); [lia|lia|].
      simpl in Hws. rewrite Hws. eexists; split; [done|].
      apply chain_step; [lia|lia|done].
Qed.

Lemma historicalWindows_terminates (start_date : datetime) :
  start_date <= end_date →
  ∃ fuel ws, historicalWindows fuel end_date delta start_date = Some ws ∧
             WindowChain delta start_date end_date ws.
Proof using delta_pos.
  intros Hle.
  destruct (historicalWindows_chain (Z.to_nat (end_date - start_date)) start_date)
    as (ws & Hws & Hch); [done|nia|].
  by exists (S (Z.to_nat (end_date - start_date))), ws.
Qed.
End Windows.

Section Chains.
Variable L : timedelta.

Lemma chain_le s e ws : WindowChain L s e ws → s <= e.
Proof. induction 1; lia. Qed.

Lemma chain_nonempty s e ws : WindowChain L s e ws → s < e → ws ≠ [].
Proof. intros H Hlt. destruct H; [lia|done]. Qed.

Lemma chain_head s e ws : WindowChain L s e ws → ws ≠ [] → fst <$> head ws = Some s.
Proof. by destruct 1. Qed.

Lemma chain_last s e ws : WindowChain L s e ws → ws ≠ [] → snd <$> last ws = Some e.
Proof.
  induction 1 as [|s m e ws Hlt Hlen Hch IH]; intros Hne; [done|].
  destruct Hch as [|m m' e ws' Hlt' Hlen' Hch']; [done|].
  rewrite last_cons_cons. by apply IH.
Qed.

Lemma chain_each s e ws :
  WindowChain L s e ws → ∀ w, w ∈ ws → fst w < snd w ∧ snd w - fst w <= L.
Proof.
  induction 1 as [|s m e ws Hlt Hlen Hch IH]; intros w Hin.
  - by apply elem_of_nil in Hin.
  - apply elem_of_cons in Hin as [->|Hin]; [done|by apply IH].
Qed.

Lemma chain_consecutive s e ws :
  WindowChain L s e ws →
  ∀ (i : nat) w1 w2, ws !! i = Some w1 → ws !! S i = Some w2 → fst w2 = snd w1.
Proof.
  induction 1 as [|s m e ws Hlt Hlen Hch IH]; intros i w1 w2 H1 H2; [done|].
  destruct i as [|i].
  - simpl in H1, H2. injection H1 as <-. destruct Hch; [done|].
    simpl in H2. by injection H2 as <-.
  - simpl in H1. by apply (IH i w1 w2).
Qed.

Lemma chain_lower s e ws : WindowChain L s e ws → ∀ w, w ∈ ws → s <= fst w.
Proof.
  induction 1 as [|s m e ws Hlt Hlen Hch IH]; intros w Hin.
  - by apply elem_of_nil in Hin.
  - apply elem_of_cons in Hin as [->|Hin]; [done|]. specialize (IH _ Hin). lia.
Qed.

(** Every instant of [[s, e)] lies in exactly one window. *)
Lemma chain_cover s e ws :
  WindowChain L s e ws →
  ∀ t, s <= t < e →
    ∃ (i : nat) w, ws !! i = Some w ∧ fst w <= t < snd w ∧
      ∀ (j : nat) w', ws !! j = Some w' → fst w' <= t < snd w' → j = i.
Proof.
  induction 1 as [|s m e ws Hlt Hlen Hch IH]; intros t Ht; [lia|].
  destruct (decide (t < m)) as [Htm|Htm].
  - exists 0%nat, (s, m). split; [done|]. split; [simpl; lia|].
    intros [|j] w' Hj Hw'; [done|]. simpl in Hj.
    apply list_elem_of_lookup_2 in Hj.
    pose proof (chain_lower _ _ _ Hch _ Hj). lia.
  - destruct (IH t) as (i & w & Hi & Hw & Huniq); [lia|].
    exists (S i), w. split; [done|]. split; [done|].
    intros [|j] w' Hj Hw'.
    + simpl in Hj. injection Hj as <-. simpl in Hw'. lia.
    + f_equal. by apply (Huniq j w').
Qed.
End Chains.

(** ** The realtime cadence *)

(** While a cycle takes less than a day, [sleep_time] is the whole seconds
    left of [UPDATE_INTERVAL], or zero. *)
Lemma sleepTime_within_a_day (now end_ : datetime) :
  0 <= now - timedelta_seconds DELAY - end_ < timedelta_seconds 86400 →
  sleepTime now end_ =
  Z.max (UPDATE_INTERVAL - td_total_seconds_floor (now - timedelta_seconds DELAY - end_)) 0.
Proof.
  intros [H0 H1]. unfold sleepTime, td_seconds, td_total_seconds_floor, timedelta_seconds in *.
  rewrite Z.mod_small; [done|].
  split; [apply Z.div_pos; lia|]. apply Z.div_lt_upper_bound; lia.
Qed.

(** Whole days of elapsed time do not count: a cycle a day longer is
    followed by the same sleep. *)
Lemma sleepTime_ignores_days (now end_ : datetime) :
  sleepTime (now + timedelta_seconds 86400) end_ = sleepTime now end_.
Proof.
  unfold sleepTime, td_seconds, timedelta_seconds.
  replace (now + 86400 * 1000000 - DELAY * 1000000 - end_)
    with (now - DELAY * 1000000 - end_ + 86400 * 1000000) by lia.
  rewrite Z.div_add by lia.
  replace ((now - DELAY * 1000000 - end_) / 1000000 + 86400)
    with ((now - DELAY * 1000000 - end_) / 1000000 + 1 * 86400) by lia.
  by rewrite Z.mod_add by lia.
Qed.

(** C5, at a cycle that took a day and ten seconds: [now - delay - end] is
    then one day and ten seconds, its [seconds] field is 10, and
    [sleep_time] is 290 where [max(UPDATE_INTERVAL - elapsed, 0)] is 0. *)
Theorem sleepTime_wraps_after_a_day :
  let end_ := t1 in
  let now := t1 + timedelta_seconds DELAY + timedelta_seconds 86410 in
  now - timedelta_seconds DELAY - end_ = timedelta_seconds 86410 ∧
  td_days (now - timedelta_seconds DELAY - end_) = 1 ∧
  td_seconds (now - timedelta_seconds DELAY - end_) = 10 ∧
  sleepTime now end_ = 290 ∧
  Z.max (UPDATE_INTERVAL - 86410) 0 = 0.
Proof. repeat split; by_evaluation. Qed.

(** ** The fetcher's sort *)

Lemma insert_by_timestamp_perm (r : MetricRecord) (l : list MetricRecord) :
  insert_by_timestamp r l ≡ₚ r :: l.
Proof.
  induction l as [|x l IH]; simpl; [done|].
  destruct (timestamp r <=? timestamp x); [done|].
  rewrite IH. apply Permutation_swap.
Qed.

Lemma insert_by_timestamp_sorted (r : MetricRecord) (l : list MetricRecord) :
  sorted_by_timestamp l → sorted_by_timestamp (insert_by_timestamp r l).
Proof.
  unfold sorted_by_timestamp.
  induction l as [|x l IH]; intros Hs; simpl; [repeat constructor|].
  destruct (timestamp r <=? timestamp x) eqn:Hle.
  - apply Z.leb_le in Hle. rewrite !fmap_cons. constructor; [done|by constructor].
  - apply Z.leb_gt in Hle. rewrite fmap_cons in *.
    apply Sorted_inv in Hs as [Hs Hhd]. constructor; [by apply IH|].
    destruct l as [|y l]; simpl.
    + constructor. lia.
    + destruct (timestamp r <=? timestamp y); rewrite fmap_cons; constructor; [lia|].
      rewrite fmap_cons in Hhd. by apply HdRel_inv in Hhd.
Qed.

(** The sort returns its input in ascending order of timestamp. *)
Lemma sort_by_timestamp_sorted (l : list MetricRecord) :
  sorted_by_timestamp (sort_by_timestamp l) ∧ sort_by_timestamp l ≡ₚ l.
Proof.
  induction l as [|r l [IHs IHp]]; simpl; [split; [constructor|done]|].
  split; [by apply insert_by_timestamp_sorted|].
  by rewrite insert_by_timestamp_perm, IHp.
Qed.

(** ** The scheduler *)

Section SchedulerProperties.
Context {World Response : Type} {env : Collaborators World Response}.

Lemma produces_ret {A} P (a : A) : produces World P (ret a).
Proof. intros w. constructor. Qed.

Lemma produces_raise {A} P (e : exn) : produces World P (raise (A:=A) e).
Proof. intros w. constructor. Qed.

Lemma produces_lift {A} P (r : exn + A) : produces World P (lift r).
Proof. intros w. constructor. Qed.

Lemma produces_bind {A B} P (m : M World A) (f : A → M World B) :
  produces World P m → (∀ a, produces World P (f a)) → produces World P (bind m f).
Proof.
  intros Hm Hf w. unfold bind. specialize (Hm w).
  destruct (m w) as [[[e|a] w1] evs1]; [done|].
  specialize (Hf a w1). destruct (f a w1) as [[r w2] evs2].
  simpl in *. by apply Forall_app.
Qed.

Lemma produces_try {A} P (m : M World A) (h : string → M World A) :
  produces World P m → (∀ error, produces World P (h error)) →
  produces World P (try_except_BotoServerError m h).
Proof.
  intros Hm Hh w. unfold try_except_BotoServerError. specialize (Hm w).
  destruct (m w) as [[[[error| |]|a] w1] evs1]; try done.
  specialize (Hh error w1). destruct (h error w1) as [[r w2] evs2].
  simpl in *. by apply Forall_app.
Qed.

Lemma produces_print (P : event → Prop) line : P (EvPrint line) → produces World P (print line).
Proof. intros H w. by repeat constructor. Qed.

Lemma produces_list_metrics (P : event → Prop) namespace :
  P (EvListMetrics namespace) → produces World P (call_list_metrics namespace).
Proof.
  intros H w. unfold call_list_metrics. destruct (list_metrics namespace w).
  by repeat constructor.
Qed.

Lemma produces_query (P : event → Prop) m start end_ statistic period :
  P (EvQuery m start end_ statistic period) →
  produces World P (call_query m start end_ statistic period).
Proof.
  intros H w. unfold call_query. destruct (metric_query _ _ _ _ _ w).
  by repeat constructor.
Qed.

Lemma produces_upload (P : event → Prop) job_id data :
  P (EvUpload job_id data) → produces World P (call_upload job_id data).
Proof.
  intros H w. unfold call_upload. destruct (engine_upload _ _ w).
  by repeat constructor.
Qed.

Lemma produces_reportUpload (P : event → Prop) http_status response :
  (∀ line, P (EvPrint line)) → produces World P (reportUpload http_status response).
Proof.
  intros H. unfold reportUpload. destruct (negb _); [|apply produces_ret].
  apply produces_bind; [by apply produces_print|]. intros _. by apply produces_print.
Qed.

Lemma produces_reportQueryError (P : event → Prop) error :
  (∀ line, P (EvPrint line)) → produces World P (reportQueryError error).
Proof.
  intros H. unfold reportQueryError.
  apply produces_bind; [by apply produces_print|]. intros _. by apply produces_print.
Qed.

(** The fetcher queries over the window it is given and does nothing
    else. *)
Lemma produces_queryMetricLoop (P : event → Prop) metrics start end_ period :
  (∀ m statistic, P (EvQuery m start end_ statistic period)) →
  ∀ metric_records, produces World P (queryMetricLoop metrics start end_ period metric_records).
Proof.
  intros H. induction metrics as [|m metrics IH]; intros metric_records; simpl.
  - apply produces_ret.
  - destruct (dimensions m !! "InstanceId") as [[|instance_ ids]|].
    + apply produces_raise.
    + apply produces_bind; [by apply produces_query|]. intros dps. apply IH.
    + apply IH.
Qed.

Lemma produces_queryMetricRecords (P : event → Prop) metrics start end_ period :
  (∀ m statistic, P (EvQuery m start end_ statistic period)) →
  produces World P (queryMetricRecords metrics start end_ period).
Proof.
  intros H. unfold queryMetricRecords.
  apply produces_bind; [by apply produces_queryMetricLoop|]. intros. apply produces_ret.
Qed.

(** What the fetcher returns is in ascending order of timestamp, as the
    transposer requires. *)
Lemma queryMetricRecords_sorted metrics start end_ period (w : World) records w' evs :
  queryMetricRecords metrics start end_ period w = (inr records, w', evs) →
  sorted_by_timestamp records.
Proof.
  unfold queryMetricRecords, bind, ret.
  destruct (queryMetricLoop metrics start end_ period [] w) as [[[e|l] w1] evs1]; [done|].
  intros H. inversion H; subst. apply sort_by_timestamp_sorted.
Qed.

Lemma historicalFetch_within job_id start end_ :
  produces World (within_window start end_) (historicalFetch job_id start end_).
Proof.
  unfold historicalFetch. apply produces_try.
  - apply produces_bind; [by apply produces_list_metrics|]. intros metrics.
    apply produces_bind; [by apply produces_queryMetricRecords|]. intros metric_records.
    apply produces_bind; [apply produces_lift|]. intros tranposed.
    apply produces_bind; [by apply produces_upload|]. intros [http_status response].
    by apply produces_reportUpload.
  - intros error. by apply produces_reportQueryError.
Qed.

Lemma historicalCycle_within job_id start end_ :
  produces World (within_window start end_) (historicalCycle job_id start end_).
Proof.
  unfold historicalCycle. apply produces_bind; [by apply produces_print|].
  intros _. apply historicalFetch_within.
Qed.

Lemma realtimeFetch_within job_id start end_ :
  produces World (within_window start end_) (realtimeFetch job_id start end_).
Proof.
  unfold realtimeFetch. apply produces_try.
  - apply produces_bind; [by apply produces_list_metrics|]. intros metrics.
    apply produces_bind; [by apply produces_queryMetricRecords|]. intros metric_records.
    apply produces_bind; [apply produces_lift|]. intros tranposed.
    apply produces_bind.
    + generalize (ret (World:=World) EmptyString) (produces_ret (within_window start end_) EmptyString).
      induction tranposed as [|met tranposed IH]; intros acc Hacc; simpl; [done|].
      apply IH. apply produces_bind; [done|]. intros data.
      apply produces_bind; [by apply produces_print|]. intros _. apply produces_ret.
    + intros data. apply produces_bind; [by apply produces_upload|].
      intros [http_status response]. by apply produces_reportUpload.
  - intros error. by apply produces_reportQueryError.
Qed.

Lemma within_window_nonempty start end_ evs :
  start < end_ → Forall (within_window start end_) evs → Forall query_nonempty evs.
Proof.
  intros Hlt H. eapply Forall_impl; [exact H|].
  intros [] Hev; simpl in *; try done. lia.
Qed.

Lemma within_window_readings start end_ evs :
  Forall (within_window start end_) evs → readings evs = [].
Proof.
  induction 1 as [|ev evs Hev Hevs IH]; [done|].
  destruct ev; try (exact IH); by simpl in Hev.
Qed.

Lemma within_window_uploads_query start end_ period metrics metric_records w :
  uploads (snd (queryMetricLoop metrics start end_ period metric_records w)) = [].
Proof.
  pose proof (produces_queryMetricLoop
                (fun ev => is_upload ev = false) metrics start end_ period
                (fun _ _ => eq_refl) metric_records w) as H.
  induction H as [|ev evs Hev Hevs IH]; [done|].
  unfold uploads in *. simpl. by rewrite Hev.
Qed.

(** A series whose query raises, after the series before it were queried
    without one, makes the fetcher raise: the records retrieved so far
    are not returned and the series after it are not queried. *)
Lemma queryMetricLoop_raises pre m post start end_ period :
  ∀ metric_records w retrieved w1 evs instance_ ids e w2,
    queryMetricLoop pre start end_ period metric_records w = (inr retrieved, w1, evs) →
    dimensions m !! "InstanceId" = Some (instance_ :: ids) →
    metric_query m start end_ "Average" period w1 = (inl e, w2) →
    queryMetricLoop (pre ++ m :: post) start end_ period metric_records w =
    (inl e, w2, evs ++ [EvQuery m start end_ "Average" period]).
Proof.
  induction pre as [|p pre IH]; intros acc w retrieved w1 evs instance_ ids e w2 Hpre Hdim Hq.
  - simpl in *. inversion Hpre; subst. rewrite Hdim.
    unfold bind, call_query. by rewrite Hq.
  - simpl in *. destruct (dimensions p !! "InstanceId") as [[|i0 ids0]|].
    + done.
    + unfold bind in *.
      destruct (call_query p start end_ "Average" period w) as [[[e0|dps] w0] evs0]; [done|].
      destruct (queryMetricLoop pre start end_ period _ w0) as [[r1 w1'] evs1] eqn:Hrest.
      inversion Hpre; subst.
      rewrite (IH _ _ _ _ _ _ _ _ _ Hrest Hdim Hq). by rewrite app_assoc.
    + by eapply IH.
Qed.

(** The loop of [runHistorical] goes through the windows of the planner,
    in order. *)
Lemma historicalLoop_windows (fuel : nat) job_id end_date delta :
  ∀ end_ ws w,
    historicalWindows fuel end_date delta end_ = Some ws →
    historicalLoop fuel job_id end_date delta end_ w = Some (runWindows job_id ws w).
Proof.
  induction fuel as [|fuel IH]; intros end_ ws w H; [done|].
  simpl in *. destruct (_ =? _); [by inversion H|].
  destruct (historicalWindows fuel _ _ _) as [ws'|] eqn:Hws; [|done].
  simpl in H. inversion H; subst. simpl. unfold bind.
  destruct (historicalCycle _ _ _ w) as [[[e|[]] w1] evs1]; [done|].
  rewrite (IH _ _ w1 Hws). by destruct (runWindows job_id ws' w1) as [[r w2] evs2].
Qed.

(** After an iteration over [(start, end_)] that ends without an
    exception, leaving the world [w1] and the events [evs1], the loop goes
    on from the cursor [end_]: enough fuel gives the windows that remain,
    the first of them starting at [end_] when [end_date] is not reached,
    and the loop runs its iterations over them in [w1]. *)
Lemma historicalLoop_goes_on job_id (start end_ : datetime) (w w1 : World) evs1 end_date delta :
  historicalCycle job_id start end_ w = (inr tt, w1, evs1) →
  0 < delta →
  end_ = (if start + delta >? end_date then end_date else start + delta) →
  start ≠ end_ →
  ∃ (fuel : nat) ws,
    (∀ fuel' : nat, (fuel ≤ fuel')%nat →
       historicalWindows fuel' end_date delta end_ = Some ws) ∧
    (end_ < end_date → ∃ end' rest, ws = (end_, end') :: rest) ∧
    (∀ fuel' : nat, (fuel ≤ fuel')%nat →
       historicalLoop (S fuel') job_id end_date delta start w =
       Some (fst (runWindows job_id ws w1), evs1 ++ snd (runWindows job_id ws w1))).
Proof.
  intros Hcycle Hd Hend Hne.
  assert (Hle : end_ <= end_date).
  { rewrite Hend. destruct (start + delta >? end_date) eqn:Hgt; lia. }
  destruct (historicalWindows_terminates end_date delta Hd end_ Hle) as (fuel & ws & Hws & Hch).
  exists fuel, ws. split; [intros fuel' Hf; by eapply historicalWindows_fuel|]. split.
  - intros Hlt. destruct Hch as [|s m e ws' Hsm _ _]; [lia|]. by exists m, ws'.
  - intros fuel' Hf. simpl. rewrite <- Hend.
    apply Z.eqb_neq in Hne. rewrite Hne, Hcycle.
    rewrite (historicalLoop_windows fuel' job_id end_date delta end_ ws w1)
      by (by eapply historicalWindows_fuel).
    by destruct (runWindows job_id ws w1) as [[r w2] evs2].
Qed.

(** C2, amended: when the query of one series raises [BotoServerError],
    the rest of the [try] statement is skipped: the series after it are
    not queried, the records retrieved from the series before it are
    dropped, nothing is transposed or uploaded; the handler prints the
    error and the iteration ends without an exception.  The loop is not
    stopped: with a positive interval it goes on from the end of the
    window, enough fuel gives its result, and that result is the events of
    this iteration followed by the iterations over the windows that
    remain, the first of which starts where this one ended.  The [try]
    statement of the realtime loop does the same. *)
Theorem query_error_skips_upload (job_id : string) (start end_ : datetime) (w : World)
    pre m post w1 retrieved w2 evs instance_ ids error w3 :
  list_metrics "AWS/EC2" w = (inr (pre ++ m :: post), w1) →
  queryMetricLoop pre start end_ REPORTING_INTERVAL [] w1 = (inr retrieved, w2, evs) →
  dimensions m !! "InstanceId" = Some (instance_ :: ids) →
  metric_query m start end_ "Average" REPORTING_INTERVAL w2 = (inl (BotoServerError error), w3) →
  let cycle_events :=
    [EvPrint ("Querying metrics starting at time " +:+ isoformat start);
     EvListMetrics "AWS/EC2"] ++ evs ++
    [EvQuery m start end_ "Average" REPORTING_INTERVAL;
     EvPrint "Error querying CloudWatch";
     EvPrint error] in
  historicalCycle job_id start end_ w = (inr tt, w3, cycle_events) ∧
  uploads cycle_events = [] ∧
  (∀ end_date delta,
     0 < delta →
     end_ = (if start + delta >? end_date then end_date else start + delta) →
     start ≠ end_ →
     ∃ (fuel : nat) ws,
       (∀ fuel' : nat, (fuel ≤ fuel')%nat →
          historicalWindows fuel' end_date delta end_ = Some ws) ∧
       (end_ < end_date → ∃ end' rest, ws = (end_, end') :: rest) ∧
       (∀ fuel' : nat, (fuel ≤ fuel')%nat →
          historicalLoop (S fuel') job_id end_date delta start w =
          Some (fst (runWindows job_id ws w3),
                cycle_events ++ snd (runWindows job_id ws w3)))) ∧
  realtimeFetch job_id start end_ w = (inr tt, w3, tail cycle_events).
Proof.
  intros Hlist Hpre Hdim Hq cycle_events.
  assert (Hcycle : historicalCycle job_id start end_ w = (inr tt, w3, cycle_events)).
  { unfold historicalCycle, historicalFetch, try_except_BotoServerError, bind at 1 2,
      print, emit, call_list_metrics, queryMetricRecords.
    rewrite Hlist. unfold bind.
    rewrite (queryMetricLoop_raises _ _ _ _ _ _ _ _ _ _ _ _ _ _ _ Hpre Hdim Hq).
    unfold cycle_events. simpl. by rewrite <- !app_assoc. }
  split; [done|]. split; [|split].
  - unfold cycle_events, uploads. simpl. rewrite List.filter_app. simpl.
    rewrite app_nil_r.
    pose proof (within_window_uploads_query start end_ REPORTING_INTERVAL pre [] w1) as Hu.
    by rewrite Hpre in Hu.
  - intros end_date delta Hd Hend Hne. by eapply historicalLoop_goes_on.
  - unfold realtimeFetch, try_except_BotoServerError, bind at 1 2,
      call_list_metrics, queryMetricRecords.
    rewrite Hlist. unfold bind.
    rewrite (queryMetricLoop_raises _ _ _ _ _ _ _ _ _ _ _ _ _ _ _ Hpre Hdim Hq).
    unfold cycle_events. simpl. by rewrite <- !app_assoc.
Qed.

(** C6: when the upload of a window returns a status other than 202, the
    iteration prints the two lines of the report, with the status and the
    response, and ends without an exception; it has called [upload] once.
    The cursor advances: with a positive interval the loop goes on from the
    end of the window, enough fuel gives its result, and that result is the
    events of this iteration followed by the iterations over the windows
    that remain, the first of which starts where this one ended. *)
Theorem upload_failure_logged_not_retried (job_id : string) (start end_ : datetime)
    (w : World) metrics w1 metric_records w2 evs tranposed http_status response w3 :
  list_metrics "AWS/EC2" w = (inr metrics, w1) →
  queryMetricRecords metrics start end_ REPORTING_INTERVAL w1 = (inr metric_records, w2, evs) →
  transposeMetrics metric_records = inr tranposed →
  engine_upload job_id (serialize tranposed) w2 = ((http_status, response), w3) →
  http_status ≠ 202 →
  let cycle_events :=
    [EvPrint ("Querying metrics starting at time " +:+ isoformat start);
     EvListMetrics "AWS/EC2"] ++ evs ++
    [EvUpload job_id (serialize tranposed);
     EvPrint "Error uploading metric data to the Engine";
     EvPrint (str_int http_status +:+ " " +:+ json_dumps_response response)] in
  historicalCycle job_id start end_ w = (inr tt, w3, cycle_events) ∧
  uploads cycle_events = [EvUpload job_id (serialize tranposed)] ∧
  ∀ end_date delta,
    0 < delta →
    end_ = (if start + delta >? end_date then end_date else start + delta) →
    start ≠ end_ →
    ∃ (fuel : nat) ws,
      (∀ fuel' : nat, (fuel ≤ fuel')%nat →
         historicalWindows fuel' end_date delta end_ = Some ws) ∧
      (end_ < end_date → ∃ end' rest, ws = (end_, end') :: rest) ∧
      (∀ fuel' : nat, (fuel ≤ fuel')%nat →
         historicalLoop (S fuel') job_id end_date delta start w =
         Some (fst (runWindows job_id ws w3),
               cycle_events ++ snd (runWindows job_id ws w3))).
Proof.
  intros Hlist Hquery Htr Hup Hst cycle_events.
  assert (Hcycle : historicalCycle job_id start end_ w = (inr tt, w3, cycle_events)).
  { unfold historicalCycle, historicalFetch, try_except_BotoServerError, bind at 1 2,
      print, emit, call_list_metrics.
    rewrite Hlist. unfold bind at 1. rewrite Hquery.
    unfold bind at 1, lift. rewrite Htr.
    unfold bind, call_upload. rewrite Hup. simpl.
    unfold reportUpload. apply Z.eqb_neq in Hst. rewrite Hst. simpl.
    unfold bind, print, emit. simpl. reflexivity. }
  split; [done|]. split.
  - unfold cycle_events, uploads. simpl. rewrite List.filter_app. simpl.
    unfold queryMetricRecords, bind in Hquery.
    pose proof (within_window_uploads_query start end_ REPORTING_INTERVAL metrics [] w1) as Hu.
    destruct (queryMetricLoop metrics start end_ REPORTING_INTERVAL [] w1)
      as [[[e|records] w2'] evs'] eqn:Hloop; [done|].
    simpl in Hquery. inversion Hquery; subst. rewrite app_nil_r.
    unfold uploads in Hu. simpl in Hu. by rewrite Hu.
  - intros end_date delta Hd Hend Hne. by eapply historicalLoop_goes_on.
Qed.

(** From a cursor not later than [end_date], the historical loop queries
    over non-empty windows only. *)
Lemma historicalLoop_nonempty (fuel : nat) job_id end_date delta :
  0 < delta →
  ∀ end_ w r w' evs,
    end_ <= end_date →
    historicalLoop fuel job_id end_date delta end_ w = Some (r, w', evs) →
    Forall query_nonempty evs.
Proof.
  intros Hd. induction fuel as [|fuel IH]; intros end_ w r w' evs Hle H; [done|].
  simpl in H.
  set (end2 := if end_ + delta >? end_date then end_date else end_ + delta) in *.
  assert (Hend2 : end_ <= end2 <= end_date).
  { unfold end2. destruct (end_ + delta >? end_date) eqn:Hgt; lia. }
  destruct (end_ =? end2) eqn:Heq; [inversion H; constructor|].
  apply Z.eqb_neq in Heq.
  pose proof (historicalCycle_within job_id end_ end2 w) as Hc.
  destruct (historicalCycle job_id end_ end2 w) as [[[e|[]] w1] evs1]; simpl in Hc.
  - inversion H; subst. eapply within_window_nonempty; [|exact Hc]. lia.
  - destruct (historicalLoop fuel job_id end_date delta end2 w1) as [[[r2 w2] evs2]|] eqn:Hl;
      [|done].
    inversion H; subst. apply Forall_app. split.
    + eapply within_window_nonempty; [|exact Hc]. lia.
    + eapply IH; [|exact Hl]. lia.
Qed.

Lemma readings_app evs1 evs2 : readings (evs1 ++ evs2) = readings evs1 ++ readings evs2.
Proof. apply omap_app. Qed.

Lemma readings_utcnow now evs : readings (EvUtcnow now :: evs) = now :: readings evs.
Proof. reflexivity. Qed.

(** What an iteration of the realtime loop produces: a clock reading
    [now1], a print, the events of the fetch over the window from the
    cursor to [now1 - delay]; then, unless the fetch raised, a second clock
    reading and events that are neither readings nor queries. *)
Lemma realtimeCycle_events job_id (end_ : datetime) (w : World) r w' evs :
  realtimeCycle job_id end_ w = (r, w', evs) →
  ∃ now1 fevs rest,
    evs = EvUtcnow now1 :: fevs ++ rest ∧
    Forall (within_window end_ (now1 - timedelta_seconds DELAY)) fevs ∧
    ((∃ e, r = inl e ∧ rest = []) ∨
     (∃ now2 rest', r = inr (now1 - timedelta_seconds DELAY) ∧
                    rest = EvUtcnow now2 :: rest' ∧
                    readings rest' = [] ∧ Forall (fun ev => is_query ev = false) rest')).
Proof.
  unfold realtimeCycle, bind, call_utcnow, print, emit, replaceTimezoneWithUtc.
  destruct (utcnow w) as [now1 wa].
  pose proof (realtimeFetch_within job_id end_ (now1 - timedelta_seconds DELAY) wa) as Hf.
  destruct (realtimeFetch job_id end_ (now1 - timedelta_seconds DELAY) wa)
    as [[[e|[]] wb] fevs]; simpl in Hf.
  - intros H. inversion H; subst.
    exists now1, (EvPrint ("Querying metrics from " +:+ isoformat end_ +:+ " to " +:+
                            isoformat (now1 - timedelta_seconds DELAY)) :: fevs), [].
    split; [by rewrite app_nil_r|]. split; [by constructor|]. left. by exists e.
  - destruct (utcnow wb) as [now2 wc].
    destruct (sleepTime now2 (now1 - timedelta_seconds DELAY) >? 0);
      unfold call_sleep, ret; intros H; inversion H; subst;
      exists now1, (EvPrint ("Querying metrics from " +:+ isoformat end_ +:+ " to " +:+
                            isoformat (now1 - timedelta_seconds DELAY)) :: fevs);
      eexists; (split; [simpl; reflexivity|]); (split; [by constructor|]);
      right; eexists _, _; (split; [done|]); (split; [simpl; reflexivity|]);
      split; [done|by repeat constructor|done|by repeat constructor].
Qed.

Lemma queried_over_mono ws ws' evs :
  ws ⊆ ws' → Forall (queried_over ws) evs → Forall (queried_over ws') evs.
Proof.
  intros Hsub H. eapply Forall_impl; [exact H|].
  intros []; simpl; try done. apply Hsub.
Qed.

Lemma within_window_queried_over start end_ ws evs :
  (start, end_) ∈ ws → Forall (within_window start end_) evs → Forall (queried_over ws) evs.
Proof.
  intros Hin H. eapply Forall_impl; [exact H|].
  intros []; simpl; try done. by intros [-> ->].
Qed.

Lemma no_query_queried_over ws evs :
  Forall (fun ev => is_query ev = false) evs → Forall (queried_over ws) evs.
Proof. intros H. eapply Forall_impl; [exact H|]. by intros []. Qed.

Lemma queried_over_nonempty ws evs :
  Forall (queried_over ws) evs → (∀ win, win ∈ ws → fst win < snd win) →
  Forall query_nonempty evs.
Proof.
  intros Hq Hws. eapply Forall_impl; [exact Hq|].
  intros []; simpl; try done. intros Hin. exact (Hws _ Hin).
Qed.

(** The windows from a cursor are non-empty exactly when the readings that
    end them increase, from the cursor plus the delay on. *)
Lemma windows_from_nonempty (ends : list datetime) :
  ∀ cursor,
    (∀ win, win ∈ windows_from cursor ends → fst win < snd win) ↔
    Sorted Z.lt ((cursor + timedelta_seconds DELAY) :: ends).
Proof.
  induction ends as [|now1 rest IH]; intros cursor.
  - split; [by repeat constructor|]. intros _ win Hin. by apply elem_of_nil in Hin.
  - cbn [windows_from]. cbv zeta. split.
    + intros H. constructor.
      * replace now1 with (now1 - timedelta_seconds DELAY + timedelta_seconds DELAY) by lia.
        apply IH. intros win Hin. apply H. by right.
      * constructor. specialize (H (cursor, now1 - timedelta_seconds DELAY)).
        simpl in H. specialize (H ltac:(left)). lia.
    + intros H win Hin.
      apply Sorted_inv in H as [Hs Hhd]. apply HdRel_inv in Hhd.
      apply elem_of_cons in Hin as [->|Hin]; [simpl; lia|].
      eapply IH; [|exact Hin].
      by replace (now1 - timedelta_seconds DELAY + timedelta_seconds DELAY) with now1 by lia.
Qed.

(** Every query of the realtime loop is over the window of its
    iteration. *)
Lemma realtimeLoop_windows (cycles : nat) job_id :
  ∀ (end_ : datetime) (w : World) r w' evs,
    realtimeLoop cycles job_id end_ w = (r, w', evs) →
    Forall (queried_over (windows_from end_ (window_ends (readings evs)))) evs.
Proof.
  induction cycles as [|cycles IH]; intros end_ w r w' evs H.
  - inversion H. constructor.
  - simpl in H. unfold bind in H.
    destruct (realtimeCycle job_id end_ w) as [[rc wc] evsc] eqn:Hc.
    apply realtimeCycle_events in Hc as (now1 & fevs & rest & -> & Hf & Hrest).
    pose proof (within_window_readings _ _ _ Hf) as Hfr.
    destruct Hrest as [(e & -> & ->)|(now2 & rest' & -> & -> & Hr & Hq)].
    + inversion H; subst. rewrite app_nil_r.
      rewrite readings_utcnow, Hfr. cbn [window_ends windows_from]. cbv zeta.
      constructor; [done|].
      eapply within_window_queried_over; [|exact Hf]. left.
    + destruct (realtimeLoop cycles job_id _ wc) as [[r2 w2] evs2] eqn:Hl.
      inversion H; subst.
      rewrite readings_utcnow, !readings_app, Hfr, readings_utcnow, Hr.
      cbn [app window_ends windows_from]. cbv zeta.
      constructor; [done|]. rewrite <- app_assoc. apply Forall_app. split.
      * eapply within_window_queried_over; [|exact Hf]. left.
      * cbn [app]. constructor; [done|]. apply Forall_app. split.
        -- by apply no_query_queried_over.
        -- eapply queried_over_mono; [|exact (IH _ _ _ _ _ Hl)].
           intros win Hin. by right.
Qed.

(** C7, amended: when [start_date <= end_date] the historical loop ends
    and every window it queries has [start < end].  The realtime loop has
    no guard of its own: its queries are over the windows of its
    iterations, each from the end of the one before to [DELAY] seconds
    before the clock reading of the iteration; these windows have
    [start < end] exactly when the clock advances from one iteration to the
    next, and then so has every window queried. *)
Theorem queried_windows_nonempty (job_id : string) (w : World) :
  (∀ start_date end_date,
      start_date <= end_date →
      ∃ (fuel : nat) ws,
        historicalWindows fuel end_date
          (calculateIntervalBetweenQueries REPORTING_INTERVAL) start_date = Some ws ∧
        (∀ win, win ∈ ws → fst win < snd win) ∧
        runHistorical fuel job_id start_date end_date w = Some (runWindows job_id ws w) ∧
        ∀ (fuel' : nat) r w' evs,
          runHistorical fuel' job_id start_date end_date w = Some (r, w', evs) →
          Forall query_nonempty evs) ∧
  (∀ (cycles : nat) r w' evs,
      runRealtime cycles job_id w = (r, w', evs) →
      Forall (queried_over (realtimeWindows (readings evs))) evs ∧
      ((∀ win, win ∈ realtimeWindows (readings evs) → fst win < snd win) ↔
       clock_advances (readings evs)) ∧
      (clock_advances (readings evs) → Forall query_nonempty evs)).
Proof.
  assert (Hd : 0 < calculateIntervalBetweenQueries REPORTING_INTERVAL) by done.
  split.
  - intros start_date end_date Hle.
    destruct (historicalWindows_terminates end_date _ Hd start_date Hle)
      as (fuel & ws & Hws & Hch).
    exists fuel, ws. split; [done|]. split; [|split].
    + intros win Hin. by destruct (chain_each _ _ _ _ Hch win Hin).
    + by apply historicalLoop_windows.
    + intros fuel' r w' evs H. by eapply historicalLoop_nonempty.
  - intros cycles r w' evs H.
    unfold runRealtime, bind, call_utcnow, replaceTimezoneWithUtc in H.
    destruct (utcnow w) as [now0 w0].
    destruct (realtimeLoop cycles job_id _ w0) as [[r1 w1] evs1] eqn:Hl.
    inversion H; subst. cbn [app]. rewrite readings_utcnow.
    cbn [realtimeWindows clock_advances].
    assert (Hq : Forall (queried_over
                           (windows_from
                              (now0 - timedelta_seconds DELAY - timedelta_seconds UPDATE_INTERVAL)
                              (window_ends (readings evs1))))
                   (EvUtcnow now0 :: evs1)).
    { constructor; [done|]. exact (realtimeLoop_windows _ _ _ _ _ _ _ Hl). }
    assert (Hiff : (∀ win,
                      win ∈ windows_from
                              (now0 - timedelta_seconds DELAY - timedelta_seconds UPDATE_INTERVAL)
                              (window_ends (readings evs1)) → fst win < snd win) ↔
                   Sorted Z.lt ((now0 - timedelta_seconds UPDATE_INTERVAL)
                                :: window_ends (readings evs1))).
    { rewrite windows_from_nonempty.
      by replace (now0 - timedelta_seconds DELAY - timedelta_seconds UPDATE_INTERVAL
                  + timedelta_seconds DELAY)
        with (now0 - timedelta_seconds UPDATE_INTERVAL) by lia. }
    split; [done|]. split; [done|].
    intros Hs. eapply queried_over_nonempty; [exact Hq|]. by apply Hiff.
Qed.
End SchedulerProperties.

(** ** The planner in the loop *)

(** C4: for a ceiling [C > 0], a granularity [g > 0] and
    [start_date < end_date], the loop of [runHistorical] run with
    [delta = timedelta(seconds = C * g)] ends; the windows of its cursor are
    those its iterations are run over, whatever the provider and the sink
    do, and they partition [[start_date, end_date)] into pieces of length at
    most [delta].  With the constant [MAX_DATAPOINTS_PER_QUERY] for [C],
    [delta] is what [calculateIntervalBetweenQueries] returns. *)
Theorem historical_windows_partition (C g : Z) (start_date end_date : datetime) :
  0 < C → 0 < g → start_date < end_date →
  ∃ (fuel : nat) ws,
    (∀ fuel' : nat, (fuel ≤ fuel')%nat →
       historicalWindows fuel' end_date (timedelta_seconds (C * g)) start_date = Some ws) ∧
    (∀ (fuel' : nat) (World Response : Type) (env : Collaborators World Response)
       (job_id : string) (w : World), (fuel ≤ fuel')%nat →
       historicalLoop fuel' job_id end_date (timedelta_seconds (C * g)) start_date w =
       Some (runWindows job_id ws w)) ∧
    partitions (timedelta_seconds (C * g)) start_date end_date ws ∧
    (C = MAX_DATAPOINTS_PER_QUERY →
       calculateIntervalBetweenQueries g = timedelta_seconds (C * g)).
Proof.
  intros HC Hg Hlt.
  assert (Hd : 0 < timedelta_seconds (C * g)) by (unfold timedelta_seconds; nia).
  destruct (historicalWindows_terminates end_date _ Hd start_date) as (fuel & ws & Hws & Hch);
    [lia|].
  pose proof (chain_nonempty _ _ _ _ Hch Hlt) as Hne.
  exists fuel, ws. split; [intros fuel' Hle; by eapply historicalWindows_fuel|].
  split.
  { intros fuel' World Response env job_id w Hle.
    apply historicalLoop_windows. by eapply historicalWindows_fuel. }
  split; [|by intros ->].
  split; [done|].
  split; [by eapply chain_head|].
  split; [by eapply chain_last|].
  split; [by eapply chain_consecutive|].
  split; [by eapply chain_each|by eapply chain_cover].
Qed.

(** Scenario B: with the ceiling 1440 and the granularity 60 a window is at
    most a day long, and two days and a half are cut into windows of
    86400, 86400 and 43200 seconds. *)
Example scenario_B :
  calculateIntervalBetweenQueries REPORTING_INTERVAL = timedelta_seconds 86400 ∧
  historicalWindows 4 (t1 + timedelta_seconds 216000)
    (calculateIntervalBetweenQueries REPORTING_INTERVAL) t1 =
  Some [ (t1, t1 + timedelta_seconds 86400);
         (t1 + timedelta_seconds 86400, t1 + timedelta_seconds 172800);
         (t1 + timedelta_seconds 172800, t1 + timedelta_seconds 216000) ].
Proof. split; by_evaluation. Qed.

Lemma historical_windows_partition_witness :
  ∃ (fuel : nat) ws,
    (∀ fuel' : nat, (fuel ≤ fuel')%nat →
       historicalWindows fuel' (t1 + timedelta_seconds 216000)
         (timedelta_seconds (1440 * 60)) t1 = Some ws) ∧
    (∀ (fuel' : nat) (World Response : Type) (env : Collaborators World Response)
       (job_id : string) (w : World), (fuel ≤ fuel')%nat →
       historicalLoop fuel' job_id (t1 + timedelta_seconds 216000)
         (timedelta_seconds (1440 * 60)) t1 w =
       Some (runWindows job_id ws w)) ∧
    partitions (timedelta_seconds (1440 * 60)) t1 (t1 + timedelta_seconds 216000) ws ∧
    (1440 = MAX_DATAPOINTS_PER_QUERY →
       calculateIntervalBetweenQueries 60 = timedelta_seconds (1440 * 60)).
Proof.
  apply (historical_windows_partition 1440 60 t1 (t1 + timedelta_seconds 216000));
    by_evaluation.
Defined.

(** ** The scheduler in the sample environment *)

(** C2 fails: with a provider whose [NetworkIn] queries raise, the query of
    the [CPUUtilization] series has returned its observations when the
    error is raised, and the iteration ends without any upload: the
    observations already retrieved are not transposed and not uploaded. *)
Lemma partial_results_are_not_uploaded :
  queryMetricLoop (env := sampleCollaborators "NetworkIn" 202)
    [ami_metric; cpu_metric] t1 t2 REPORTING_INTERVAL [] [] =
    (inr (sample_observations "CPUUtilization"), [],
     [EvQuery cpu_metric t1 t2 "Average" REPORTING_INTERVAL]) ∧
  historicalCycle (env := sampleCollaborators "NetworkIn" 202) "job" t1 t2 [] =
    (inr tt, [],
     [EvPrint "Querying metrics starting at time 2014-10-01T00:00:00+00:00";
      EvListMetrics "AWS/EC2";
      EvQuery cpu_metric t1 t2 "Average" REPORTING_INTERVAL;
      EvQuery net_metric t1 t2 "Average" REPORTING_INTERVAL;
      EvPrint "Error querying CloudWatch";
      EvPrint "Throttling"]) ∧
  uploads (snd (historicalCycle (env := sampleCollaborators "NetworkIn" 202) "job" t1 t2 [])) = [].
Proof. repeat split; by_evaluation. Qed.

Lemma query_error_skips_upload_witness :
  let cycle_events :=
    [EvPrint ("Querying metrics starting at time " +:+ isoformat t1);
     EvListMetrics "AWS/EC2"] ++
    [EvQuery cpu_metric t1 t2 "Average" REPORTING_INTERVAL] ++
    [EvQuery net_metric t1 t2 "Average" REPORTING_INTERVAL;
     EvPrint "Error querying CloudWatch";
     EvPrint "Throttling"] in
  historicalCycle (env := sampleCollaborators "NetworkIn" 202) "job" t1 t2 [] =
    (inr tt, [], cycle_events) ∧
  uploads cycle_events = [] ∧
  (∀ end_date delta,
     0 < delta →
     t2 = (if t1 + delta >? end_date then end_date else t1 + delta) →
     t1 ≠ t2 →
     ∃ (fuel : nat) ws,
       (∀ fuel' : nat, (fuel ≤ fuel')%nat →
          historicalWindows fuel' end_date delta t2 = Some ws) ∧
       (t2 < end_date → ∃ end' rest, ws = (t2, end') :: rest) ∧
       (∀ fuel' : nat, (fuel ≤ fuel')%nat →
          historicalLoop (env := sampleCollaborators "NetworkIn" 202)
            (S fuel') "job" end_date delta t1 [] =
          Some (fst (runWindows (env := sampleCollaborators "NetworkIn" 202) "job" ws []),
                cycle_events ++
                snd (runWindows (env := sampleCollaborators "NetworkIn" 202) "job" ws [])))) ∧
  realtimeFetch (env := sampleCollaborators "NetworkIn" 202) "job" t1 t2 [] =
    (inr tt, [], tail cycle_events).
Proof.
  apply (query_error_skips_upload (env := sampleCollaborators "NetworkIn" 202)
           "job" t1 t2 [] [ami_metric; cpu_metric] net_metric [] []
           (sample_observations "CPUUtilization") []
           [EvQuery cpu_metric t1 t2 "Average" REPORTING_INTERVAL] "i-1" [] "Throttling" []);
    by_evaluation.
Defined.

Lemma upload_failure_logged_not_retried_witness :
  let cycle_events :=
    [EvPrint ("Querying metrics starting at time " +:+ isoformat t1);
     EvListMetrics "AWS/EC2"] ++
    [EvQuery cpu_metric t1 t2 "Average" REPORTING_INTERVAL;
     EvQuery net_metric t1 t2 "Average" REPORTING_INTERVAL] ++
    [EvUpload "job" sample_batch;
     EvPrint "Error uploading metric data to the Engine";
     EvPrint (str_int 500 +:+ " " +:+ "{}")] in
  historicalCycle (env := sampleCollaborators "none" 500) "job" t1 t2 [] =
    (inr tt, [], cycle_events) ∧
  uploads cycle_events = [EvUpload "job" sample_batch] ∧
  ∀ end_date delta,
    0 < delta →
    t2 = (if t1 + delta >? end_date then end_date else t1 + delta) →
    t1 ≠ t2 →
    ∃ (fuel : nat) ws,
      (∀ fuel' : nat, (fuel ≤ fuel')%nat →
         historicalWindows fuel' end_date delta t2 = Some ws) ∧
      (t2 < end_date → ∃ end' rest, ws = (t2, end') :: rest) ∧
      (∀ fuel' : nat, (fuel ≤ fuel')%nat →
         historicalLoop (env := sampleCollaborators "none" 500)
           (S fuel') "job" end_date delta t1 [] =
         Some (fst (runWindows (env := sampleCollaborators "none" 500) "job" ws []),
               cycle_events ++
               snd (runWindows (env := sampleCollaborators "none" 500) "job" ws []))).
Proof.
  apply (upload_failure_logged_not_retried (env := sampleCollaborators "none" 500)
           "job" t1 t2 [] [ami_metric; cpu_metric; net_metric] []
           [ mkMetricRecord t1 "i-1" "CPUUtilization" 1;
             mkMetricRecord t1 "i-1" "NetworkIn" 1;
             mkMetricRecord (t1 + timedelta_seconds 60) "i-1" "CPUUtilization" 2;
             mkMetricRecord (t1 + timedelta_seconds 60) "i-1" "NetworkIn" 2 ] []
           [EvQuery cpu_metric t1 t2 "Average" REPORTING_INTERVAL;
            EvQuery net_metric t1 t2 "Average" REPORTING_INTERVAL]
           [sample_record] 500 "{}" []);
    by_evaluation.
Defined.

(** C7 fails: with [--start-date=2014-10-02 --end-date=2014-10-01] the
    first iteration clamps [end] to [end_date], finds [start] different
    from [end], and queries both series over the window that starts a day
    after it ends; so it is not true that every run of the historical loop
    queries over windows with [start < end] only.  It fails for the
    realtime loop too: when the clock is set back a minute between two
    iterations, the second queries over the window that starts a minute
    after it ends. *)
Lemma inverted_window_is_queried :
  (day1 < day2 ∧
   historicalWindows 2 day1 (calculateIntervalBetweenQueries REPORTING_INTERVAL) day2 =
     Some [(day2, day1)] ∧
   runHistorical (env := sampleCollaborators "none" 202) 2 "job" day2 day1 [] =
     Some (inr tt, [], inverted_run) ∧
   EvQuery cpu_metric day2 day1 "Average" REPORTING_INTERVAL ∈ inverted_run ∧
   ¬ (∀ start_date end_date (fuel : nat) r w' evs,
        runHistorical (env := sampleCollaborators "none" 202)
          fuel "job" start_date end_date [] = Some (r, w', evs) →
        Forall query_nonempty evs)) ∧
  (readings (snd (runRealtime (env := sampleCollaborators "none" 202) 2 "job" clock_set_back))
     = clock_set_back ∧
   EvQuery cpu_metric (t2 - timedelta_seconds DELAY) (t1 - timedelta_seconds DELAY)
     "Average" REPORTING_INTERVAL
     ∈ snd (runRealtime (env := sampleCollaborators "none" 202) 2 "job" clock_set_back) ∧
   t1 - timedelta_seconds DELAY < t2 - timedelta_seconds DELAY ∧
   ¬ (∀ (cycles : nat) (w : list datetime) r w' evs,
        runRealtime (env := sampleCollaborators "none" 202) cycles "job" w = (r, w', evs) →
        Forall query_nonempty evs)).
Proof.
  assert (Hrun : runHistorical (env := sampleCollaborators "none" 202) 2 "job" day2 day1 [] =
                 Some (inr tt, [], inverted_run)) by by_evaluation.
  split.
  - repeat split; try by_evaluation.
    intros H. specialize (H day2 day1 2%nat _ _ _ Hrun). revert H. by_evaluation.
  - repeat split; try by_evaluation.
    intros H.
    destruct (runRealtime (env := sampleCollaborators "none" 202) 2 "job" clock_set_back)
      as [[r w'] evs] eqn:Hreal.
    specialize (H 2%nat clock_set_back r w' evs Hreal).
    replace evs with (snd (runRealtime (env := sampleCollaborators "none" 202) 2 "job"
                             clock_set_back)) in H by (by rewrite Hreal).
    revert H. by_evaluation.
Qed.

Lemma queried_windows_nonempty_witness :
  let clock := [t1; t1 + 1; t1 + 2; t1 + 2; t1 + 3] in
  let evs := snd (runRealtime (env := sampleCollaborators "none" 202) 2 "job" clock) in
  (∃ (fuel : nat) ws,
      historicalWindows fuel day2
        (calculateIntervalBetweenQueries REPORTING_INTERVAL) day1 = Some ws ∧
      (∀ win, win ∈ ws → fst win < snd win) ∧
      runHistorical (env := sampleCollaborators "none" 202) fuel "job" day1 day2 [] =
        Some (runWindows (env := sampleCollaborators "none" 202) "job" ws []) ∧
      ∀ (fuel' : nat) r w' evs,
        runHistorical (env := sampleCollaborators "none" 202) fuel' "job" day1 day2 [] =
          Some (r, w', evs) →
        Forall query_nonempty evs) ∧
  readings evs = clock ∧
  clock_advances (readings evs) ∧
  Forall (queried_over (realtimeWindows (readings evs))) evs ∧
  ((∀ win, win ∈ realtimeWindows (readings evs) → fst win < snd win) ↔
   clock_advances (readings evs)) ∧
  Forall query_nonempty evs.
Proof.
  intros clock evs.
  destruct (queried_windows_nonempty (env := sampleCollaborators "none" 202) "job" [])
    as [Hhist _].
  destruct (queried_windows_nonempty (env := sampleCollaborators "none" 202) "job" clock)
    as [_ Hreal].
  assert (Hclock : clock_advances (readings evs)) by by_evaluation.
  split; [apply Hhist; by_evaluation|].
  split; [by_evaluation|]. split; [exact Hclock|].
  destruct (runRealtime (env := sampleCollaborators "none" 202) 2 "job" clock)
    as [[r w'] evs'] eqn:Hrun.
  destruct (Hreal 2%nat r w' evs' Hrun) as (Hq & Hiff & Hne).
  split; [exact Hq|]. split; [exact Hiff|]. exact (Hne Hclock).
Defined.

(** The same in a run: a first iteration of the realtime loop whose clock
    reads one day and ten seconds more at its end than at its start prints
    and sleeps 290 seconds. *)
Example realtime_sleeps_after_a_long_cycle :
  ∃ evs,
    runRealtime (env := sampleCollaborators "none" 202) 1 "job"
      [t1; t1 + 1; t1 + 1 + timedelta_seconds 86410] = (inr tt, [], evs) ∧
    EvPrint "sleeping for 290 seconds" ∈ evs ∧
    last evs = Some (EvSleep 290).
Proof.
  eexists. split; [vm_compute; reflexivity|]. split; by_evaluation.
Qed.

(** * Further properties *)

(** ** More on the transposer *)

Lemma transposeMetrics_raises_TypeError (ms : list MetricRecord) (e : exn) :
  transposeMetrics ms = inl e → e = TypeError.
Proof.
  rewrite transposeMetrics_groups. destruct ms as [|m ms]; simpl; [done|].
  destruct (epoch <? timestamp m); [by destruct (groupLoop [] (m, []) ms)|].
  by intros [= <-].
Qed.

(** The groups cut the input into consecutive pieces. *)
Lemma transposeGroups_concat (ms : list MetricRecord) closed g_open :
  transposeGroups ms = inr (closed, g_open) →
  concat (members <$> (closed ++ option_list g_open)) = ms.
Proof.
  intros Hg. destruct ms as [|m ms]; simpl in Hg.
  - by inversion Hg; subst.
  - destruct (epoch <? timestamp m); [|done].
    destruct (groupLoop [] (m, []) ms) as [c g] eqn:Hl. inversion Hg; subst.
    simpl. by rewrite (groupLoop_concat _ _ _ _ _ Hl).
Qed.

(** X1: [transposeMetrics] raises nothing but [TypeError], and raises it
    exactly when the input has a first observation that is not later than
    the epoch; no later observation can make it raise. *)
Theorem transposeMetrics_raises_iff (ms : list MetricRecord) :
  (∀ e, transposeMetrics ms = inl e → e = TypeError) ∧
  (transposeMetrics ms = inl TypeError ↔
   ∃ m rest, ms = m :: rest ∧ timestamp m <= epoch).
Proof.
  rewrite transposeMetrics_groups. destruct ms as [|m ms]; simpl.
  - split; [done|]. split; [done|]. by intros (m & rest & H & _).
  - destruct (epoch <? timestamp m) eqn:Hlt.
    + destruct (groupLoop [] (m, []) ms). split; [done|]. split; [done|].
      intros (m' & rest & H & Hle). injection H as <- <-.
      apply Z.ltb_lt in Hlt. lia.
    + split; [by intros e [= <-]|]. split; [|done].
      intros _. exists m, ms. apply Z.ltb_ge in Hlt. done.
Qed.

(** X2: whatever the order of the input, when nothing is raised every
    observation is written into exactly one record, in input order: the
    groups of the records returned, followed by the group of the record
    left in [current_record], are the input cut into consecutive pieces;
    and a non-empty input always leaves a record in [current_record]. *)
Theorem transposeGroups_partition (ms : list MetricRecord) closed g_open :
  transposeGroups ms = inr (closed, g_open) →
  transposeMetrics ms = inr (recordOf <$> closed) ∧
  transposeLoop transposeInit ms = inr (stateOfGroups (closed, g_open)) ∧
  concat (members <$> (closed ++ option_list g_open)) = ms ∧
  (ms ≠ [] → is_Some g_open).
Proof.
  intros Hg. split; [by rewrite transposeMetrics_groups, Hg|].
  split; [by rewrite transposeLoop_groups, Hg|].
  destruct ms as [|m ms]; simpl in Hg.
  - inversion Hg; subst. by split.
  - destruct (epoch <? timestamp m); [|done].
    destruct (groupLoop [] (m, []) ms) as [c g] eqn:Hl. inversion Hg; subst.
    split; [|by eexists]. simpl. by rewrite (groupLoop_concat _ _ _ _ _ Hl).
Qed.

Lemma transposeGroups_partition_witness :
  transposeMetrics interleaved = inr (recordOf <$> interleaved_closed) ∧
  transposeLoop transposeInit interleaved =
    inr (stateOfGroups (interleaved_closed, interleaved_open)) ∧
  concat (members <$> (interleaved_closed ++ option_list interleaved_open)) = interleaved ∧
  (interleaved ≠ [] → is_Some interleaved_open).
Proof.
  apply (transposeGroups_partition interleaved interleaved_closed interleaved_open).
  by_evaluation.
Defined.

(** X3: whatever the order of the input, the records are opened at
    strictly increasing instants -- no two records are opened at the same
    timestamp -- and no observation written into a record is later than the
    one that opened it. *)
Theorem transposeGroups_increasing (ms : list MetricRecord) closed g_open :
  transposeGroups ms = inr (closed, g_open) →
  StronglySorted Z.lt (groupTime <$> (closed ++ option_list g_open)) ∧
  Forall bounded (closed ++ option_list g_open) ∧
  Forall (fun g => epoch < groupTime g) (closed ++ option_list g_open).
Proof.
  intros Hg. destruct ms as [|m ms]; simpl in Hg.
  - inversion Hg; subst. simpl. repeat split; constructor.
  - destruct (epoch <? timestamp m) eqn:Hm; [|done].
    destruct (groupLoop [] (m, []) ms) as [c g] eqn:Hl. inversion Hg; subst. simpl.
    assert (Hs : StronglySorted Z.lt (groupTime <$> (closed ++ [g]))).
    { eapply groupLoop_increasing; [exact Hl|]. repeat constructor. }
    split; [done|]. split.
    + destruct (groupLoop_bounded _ _ _ _ _ Hl) as [Hc Hb]; [constructor|constructor|].
      apply Forall_app. split; [done|by constructor].
    + pose proof (groupLoop_head _ _ _ _ _ Hl) as Hh. simpl in Hh.
      apply Z.ltb_lt in Hm.
      destruct (closed ++ [g]) as [|g0 gs] eqn:Hgs; [constructor|].
      simpl in Hh. injection Hh as Hg0. rewrite fmap_cons in Hs.
      apply StronglySorted_inv in Hs as [_ Hall].
      constructor; [unfold groupTime; by rewrite Hg0|].
      rewrite Forall_fmap in Hall. eapply Forall_impl; [exact Hall|].
      intros g1 Hg1. simpl in Hg1. unfold groupTime in *. rewrite Hg0 in Hg1. lia.
Qed.

Lemma transposeGroups_increasing_witness :
  StronglySorted Z.lt (groupTime <$> (interleaved_closed ++ option_list interleaved_open)) ∧
  Forall bounded (interleaved_closed ++ option_list interleaved_open) ∧
  Forall (fun g => epoch < groupTime g) (interleaved_closed ++ option_list interleaved_open).
Proof.
  apply (transposeGroups_increasing interleaved interleaved_closed interleaved_open).
  by_evaluation.
Defined.

Lemma dom_foldl_assign (l : list MetricRecord) :
  ∀ r : gmap string Value,
    dom (foldl assign r l) = dom r ∪ list_to_set (metric_name <$> l).
Proof.
  induction l as [|o l IH]; intros r; simpl.
  - by rewrite (right_id_L ∅ (∪)).
  - rewrite IH. unfold assign. rewrite dom_insert_L.
    by rewrite (comm_L (∪) {[metric_name o]} (dom r)), (assoc_L (∪)).
Qed.

(** X4: the records returned are those of the groups closed, in order,
    the groups being the input cut into consecutive pieces; and every
    record returned has the keys [timestamp] and [instance] and, besides
    them, exactly the metric names of the observations of its own group,
    those that were written into it. *)
Theorem transposed_record_keys (ms : list MetricRecord) closed g_open :
  transposeGroups ms = inr (closed, g_open) →
  transposeMetrics ms = inr (recordOf <$> closed) ∧
  concat (members <$> (closed ++ option_list g_open)) = ms ∧
  ∀ g, g ∈ closed →
    dom (recordOf g) =
      {["timestamp"]} ∪ {["instance"]} ∪ list_to_set (metric_name <$> members g).
Proof.
  intros Hg. split; [by rewrite transposeMetrics_groups, Hg|].
  split; [exact (transposeGroups_concat _ _ _ Hg)|].
  intros g _. unfold recordOf. rewrite dom_foldl_assign. unfold openRecord.
  rewrite !dom_insert_L, dom_empty_L, (right_id_L ∅ (∪)).
  by rewrite (comm_L (∪) {["instance"]} {["timestamp"]}).
Qed.

Lemma transposed_record_keys_witness :
  transposeMetrics interleaved = inr (recordOf <$> interleaved_closed) ∧
  concat (members <$> (interleaved_closed ++ option_list interleaved_open)) = interleaved ∧
  ∀ g, g ∈ interleaved_closed →
    dom (recordOf g) =
      {["timestamp"]} ∪ {["instance"]} ∪ list_to_set (metric_name <$> members g).
Proof.
  apply (transposed_record_keys interleaved interleaved_closed interleaved_open).
  by_evaluation.
Defined.

Lemma groupLoop_app (ms ms' : list MetricRecord) :
  ∀ closed g,
    groupLoop closed g (ms ++ ms') =
    groupLoop (fst (groupLoop closed g ms)) (snd (groupLoop closed g ms)) ms'.
Proof.
  induction ms as [|m ms IH]; intros closed [o fs]; simpl; [done|].
  destruct (timestamp o <? timestamp m); apply IH.
Qed.

Lemma groupLoop_closed_prefix (ms : list MetricRecord) :
  ∀ closed g, closed `prefix_of` fst (groupLoop closed g ms).
Proof.
  induction ms as [|m ms IH]; intros closed [o fs]; simpl; [done|].
  destruct (timestamp o <? timestamp m).
  - etrans; [|apply IH]. by apply prefix_app_r.
  - apply IH.
Qed.

(** X5: once a non-empty input has been accepted, observations appended to
    it cannot make [transposeMetrics] raise and do not change the records
    already returned: the result for the longer input starts with the result
    for the shorter one. *)
Theorem transposeMetrics_prefix (ms ms' : list MetricRecord) out :
  ms ≠ [] → transposeMetrics ms = inr out →
  ∃ out', transposeMetrics (ms ++ ms') = inr (out ++ out').
Proof.
  intros Hne. rewrite !transposeMetrics_groups.
  destruct ms as [|m ms]; [done|]. simpl.
  destruct (epoch <? timestamp m); [|done].
  rewrite groupLoop_app.
  destruct (groupLoop [] (m, []) ms) as [c g] eqn:Hl. simpl.
  destruct (groupLoop c g ms') as [c' g'] eqn:Hl'. intros [= <-]. simpl.
  pose proof (groupLoop_closed_prefix ms' c g) as [k Hk]. rewrite Hl' in Hk.
  simpl in Hk. subst c'. exists (recordOf <$> k). by rewrite fmap_app.
Qed.

Lemma transposeMetrics_prefix_witness :
  ∃ out', transposeMetrics (scenario_A ++ three_minutes) = inr ([record_A1] ++ out').
Proof.
  apply (transposeMetrics_prefix scenario_A three_minutes [record_A1]).
  - by_evaluation.
  - by_evaluation.
Defined.

(** X17: on any input in ascending order and later than the epoch, the
    empty one included, the number of records returned is the number of
    distinct timestamps less one, and zero when there is none: the record
    of the last timestamp is never among them. *)
Theorem transposeMetrics_count (ms : list MetricRecord) :
  sorted_by_timestamp ms → after_epoch ms →
  ∃ out, transposeMetrics ms = inr out ∧ length out = Nat.pred (distinct_timestamps ms).
Proof.
  intros Hs He. destruct ms as [|m ms].
  - exists []. split; [done|]. unfold distinct_timestamps. by rewrite fmap_nil.
  - destruct (transposeMetrics_length (m :: ms) Hs He) as (out & Hout & Hlen); [done|].
    exists out. split; [done|]. by rewrite <- Hlen.
Qed.

Lemma transposeMetrics_count_witness :
  ∃ out, transposeMetrics repeated = inr out ∧
         length out = Nat.pred (distinct_timestamps repeated).
Proof.
  apply (transposeMetrics_count repeated); by_evaluation.
Defined.

(** ** More on the fetcher *)

Lemma insert_by_timestamp_filter (r : MetricRecord) (l : list MetricRecord) (t : datetime) :
  filter (fun x => timestamp x = t) (insert_by_timestamp r l) =
  filter (fun x => timestamp x = t) (r :: l).
Proof.
  induction l as [|x l IH]; simpl; [done|].
  destruct (timestamp r <=? timestamp x) eqn:Hle; [done|].
  apply Z.leb_gt in Hle.
  rewrite (filter_cons _ x), IH, !filter_cons.
  destruct (decide (timestamp x = t)), (decide (timestamp r = t)); try done. lia.
Qed.

(** X6: the sort of the fetcher returns a permutation of its input in
    ascending order of timestamp, and it is stable: the records of one
    timestamp keep the order they had. *)
Theorem sort_by_timestamp_stable (l : list MetricRecord) :
  sorted_by_timestamp (sort_by_timestamp l) ∧
  sort_by_timestamp l ≡ₚ l ∧
  ∀ t, filter (fun x => timestamp x = t) (sort_by_timestamp l) =
       filter (fun x => timestamp x = t) l.
Proof.
  destruct (sort_by_timestamp_sorted l) as [Hs Hp].
  split; [done|]. split; [done|].
  intros t. induction l as [|r l IH]; [done|]. simpl.
  rewrite insert_by_timestamp_filter, !filter_cons, IH; [done|..];
    apply sort_by_timestamp_sorted.
Qed.

Section FetcherProperties.
Context {World Response : Type} {env : Collaborators World Response}.

Lemma queryMetricLoop_queries metrics start end_ period :
  ∀ acc (w : World) r w' evs,
    queryMetricLoop metrics start end_ period acc w = (r, w', evs) →
    evs `prefix_of` expected_queries metrics start end_ period ∧
    (∀ records, r = inr records → evs = expected_queries metrics start end_ period).
Proof.
  unfold expected_queries.
  induction metrics as [|m metrics IH]; intros acc w r w' evs H; simpl in H.
  - inversion H; subst. by split.
  - rewrite filter_cons. destruct (decide (has_instance m)) as [[ids Hdim]|Hn].
    + rewrite Hdim in H. destruct ids as [|i ids].
      * inversion H; subst. split; [apply prefix_nil|done].
      * unfold bind, call_query in H.
        destruct (metric_query m start end_ "Average" period w) as [[e|dps] w1].
        -- inversion H; subst. rewrite fmap_cons. split; [|done].
           apply prefix_cons, prefix_nil.
        -- destruct (queryMetricLoop metrics start end_ period _ w1) as [[r2 w2] evs2] eqn:Hl.
           inversion H; subst. destruct (IH _ _ _ _ _ Hl) as [Hp He].
           rewrite fmap_cons. split; [by apply prefix_cons|].
           intros records ->. simpl. f_equal. by eapply He.
    + unfold has_instance in Hn.
      destruct (dimensions m !! "InstanceId") as [ids|] eqn:Hdim; [by destruct Hn|].
      by eapply IH.
Qed.

(** X7: the fetcher queries the series dimensioned by instance, each once,
    in the order listed, with the statistic ['Average'] over the window and
    at the period it is given, and no other series; when a query raises,
    the queries made are the first of these. *)
Theorem queryMetricRecords_queries metrics start end_ period (w : World) r w' evs :
  queryMetricRecords metrics start end_ period w = (r, w', evs) →
  evs `prefix_of` expected_queries metrics start end_ period ∧
  (∀ records, r = inr records → evs = expected_queries metrics start end_ period).
Proof.
  unfold queryMetricRecords, bind, ret.
  destruct (queryMetricLoop metrics start end_ period [] w) as [[[e|l] w1] evs1] eqn:Hl;
    intros H; inversion H; subst; destruct (queryMetricLoop_queries _ _ _ _ _ _ _ _ _ Hl)
    as [Hp He].
  - by split.
  - rewrite app_nil_r. split; [done|]. intros records _. by eapply He.
Qed.

Lemma queryMetricLoop_from_listed all_metrics metrics start end_ period :
  metrics ⊆ all_metrics →
  ∀ acc (w : World) records w' evs,
    Forall (from_listed all_metrics) acc →
    queryMetricLoop metrics start end_ period acc w = (inr records, w', evs) →
    Forall (from_listed all_metrics) records.
Proof.
  induction metrics as [|m metrics IH]; intros Hsub acc w records w' evs Hacc H; simpl in H.
  - by inversion H; subst.
  - assert (Hm : m ∈ all_metrics) by (apply Hsub; left).
    assert (Hsub' : metrics ⊆ all_metrics) by (intros x Hx; apply Hsub; by right).
    destruct (dimensions m !! "InstanceId") as [[|i ids]|] eqn:Hdim.
    + done.
    + unfold bind, call_query in H.
      destruct (metric_query m start end_ "Average" period w) as [[e|dps] w1]; [done|].
      destruct (queryMetricLoop metrics start end_ period _ w1) as [[r2 w2] evs2] eqn:Hl.
      inversion H; subst. eapply (IH Hsub'); [|exact Hl].
      apply Forall_app. split; [done|].
      unfold recordsOfDatapoints. rewrite List.Forall_map. apply Forall_forall.
      intros dp _. by exists m, i, ids.
    + by eapply IH.
Qed.

(** X8: every record the fetcher returns carries the name of a series that
    was listed with an instance dimension, and the first instance
    identifier of that series; the records come in ascending order of
    timestamp. *)
Theorem queryMetricRecords_records metrics start end_ period (w : World) records w' evs :
  queryMetricRecords metrics start end_ period w = (inr records, w', evs) →
  sorted_by_timestamp records ∧ Forall (from_listed metrics) records.
Proof.
  intros H. split; [by eapply queryMetricRecords_sorted|].
  unfold queryMetricRecords, bind, ret in H.
  destruct (queryMetricLoop metrics start end_ period [] w) as [[[e|l] w1] evs1] eqn:Hl;
    [done|].
  inversion H; subst.
  destruct (sort_by_timestamp_sorted l) as [_ Hp]. rewrite Hp.
  eapply queryMetricLoop_from_listed; [done|constructor|exact Hl].
Qed.

(** X9: a series listed with the key ['InstanceId'] and no identifier under
    it makes the fetcher raise [IndexError] without querying it; the series
    after it are not queried and the records retrieved before it are
    lost. *)
Theorem queryMetricRecords_empty_dimension pre m post start end_ period
    (w : World) retrieved w1 evs :
  queryMetricLoop pre start end_ period [] w = (inr retrieved, w1, evs) →
  dimensions m !! "InstanceId" = Some [] →
  queryMetricRecords (pre ++ m :: post) start end_ period w = (inl IndexError, w1, evs).
Proof.
  intros Hpre Hdim. unfold queryMetricRecords, bind.
  assert (Hloop : ∀ acc (w0 : World) retrieved0 w2 evs0,
            queryMetricLoop pre start end_ period acc w0 = (inr retrieved0, w2, evs0) →
            queryMetricLoop (pre ++ m :: post) start end_ period acc w0 =
            (inl IndexError, w2, evs0)).
  { clear Hpre. induction pre as [|p pre IH]; intros acc w0 retrieved0 w2 evs0 H; simpl in *.
    - inversion H; subst. by rewrite Hdim.
    - destruct (dimensions p !! "InstanceId") as [[|i0 ids0]|]; [done| |by eapply IH].
      unfold bind in *.
      destruct (call_query p start end_ "Average" period w0) as [[[e0|dps] w3] evs3]; [done|].
      destruct (queryMetricLoop pre start end_ period _ w3) as [[r1 w4] evs1] eqn:Hrest.
      inversion H; subst. by rewrite (IH _ _ _ _ _ Hrest). }
  by rewrite (Hloop _ _ _ _ _ Hpre).
Qed.
End FetcherProperties.

(** ** More on the window planner *)

Lemma nth_window_shift (start_date end_date : datetime) (delta : timedelta) (i : nat) :
  nth_window (start_date + delta) end_date delta i = nth_window start_date end_date delta (S i).
Proof. unfold nth_window. f_equal; [lia|f_equal; lia]. Qed.

(** The windows the loop has gone through when it ends, by their
    number. *)
Lemma historicalWindows_numbered (fuel : nat) (start_date end_date : datetime)
    (delta : timedelta) ws :
  0 < delta → start_date <= end_date →
  historicalWindows fuel end_date delta start_date = Some ws →
  ws = nth_window start_date end_date delta <$>
         seq 0 (Z.to_nat ((end_date - start_date + delta - 1) / delta)).
Proof.
  intros Hd. revert start_date ws.
  induction fuel as [|fuel IH]; intros start_date ws Hle H; [done|].
  simpl in H. destruct (start_date + delta >? end_date) eqn:Hgt.
  - destruct (start_date =? end_date) eqn:Heq.
    + apply Z.eqb_eq in Heq. subst. inversion H; subst.
      replace (end_date - end_date + delta - 1) with (delta - 1) by lia.
      rewrite Z.div_small by lia. done.
    + apply Z.eqb_neq in Heq.
      destruct (historicalWindows fuel end_date delta end_date) as [ws'|] eqn:Hw; [|done].
      simpl in H. inversion H; subst.
      rewrite (IH end_date ws') by (lia || done).
      replace (end_date - end_date + delta - 1) with (delta - 1) by lia.
      rewrite (Z.div_small (delta - 1)) by lia.
      assert ((end_date - start_date + delta - 1) / delta = 1) as ->.
      { symmetry. apply (Z.div_unique _ _ 1 (end_date - start_date - 1)); lia. }
      simpl. unfold nth_window. f_equal. f_equal; [lia|]. lia.
  - destruct (start_date =? start_date + delta) eqn:Heq; [apply Z.eqb_eq in Heq; lia|].
    destruct (historicalWindows fuel end_date delta (start_date + delta)) as [ws'|] eqn:Hw;
      [|done].
    simpl in H. inversion H; subst.
    rewrite (IH (start_date + delta) ws') by (lia || done).
    replace (end_date - start_date + delta - 1)
      with ((end_date - (start_date + delta) + delta - 1) + 1 * delta) by lia.
    rewrite Z.div_add by lia.
    assert (0 <= (end_date - (start_date + delta) + delta - 1) / delta)
      by (apply Z.div_pos; lia).
    rewrite Z2Nat.inj_add by lia. rewrite Nat.add_comm. simpl.
    f_equal; [unfold nth_window; f_equal; lia|].
    rewrite <- fmap_S_seq, <- list_fmap_compose.
    apply list_fmap_ext. intros _ i _. simpl. apply nth_window_shift.
Qed.

(** X10: from [start_date <= end_date] and with [delta > 0], the loop of
    [runHistorical] ends after [n] windows and one more iteration, [n]
    being [(end_date - start_date) / delta] rounded up: fuel for more than
    [n] iterations gives the result, whatever the provider and the sink
    do, and the iterations are run over the windows numbered 0 to [n - 1],
    in order; the window numbered [i] starts at [start_date + i * delta]
    and ends [delta] later, or at [end_date] if that comes first. *)
Theorem historicalWindows_closed_form (start_date end_date : datetime) (delta : timedelta) :
  0 < delta → start_date <= end_date →
  let n := Z.to_nat ((end_date - start_date + delta - 1) / delta) in
  let ws := nth_window start_date end_date delta <$> seq 0 n in
  (∀ fuel : nat, (n < fuel)%nat →
     historicalWindows fuel end_date delta start_date = Some ws) ∧
  (∀ (fuel : nat) (World Response : Type) (env : Collaborators World Response)
     (job_id : string) (w : World), (n < fuel)%nat →
     historicalLoop fuel job_id end_date delta start_date w = Some (runWindows job_id ws w)).
Proof.
  intros Hd Hle n ws.
  assert (Hn : end_date - start_date <= Z.of_nat n * delta).
  { unfold n.
    assert (0 <= (end_date - start_date + delta - 1) / delta) by (apply Z.div_pos; lia).
    rewrite Z2Nat.id by done.
    pose proof (Z.div_mod (end_date - start_date + delta - 1) delta ltac:(lia)).
    pose proof (Z.mod_pos_bound (end_date - start_date + delta - 1) delta Hd).
    nia. }
  destruct (historicalWindows_chain end_date delta Hd n start_date Hle Hn) as (ws' & Hws & _).
  pose proof (historicalWindows_numbered _ _ _ _ _ Hd Hle Hws) as ->.
  assert (Hfuel : ∀ fuel : nat, (n < fuel)%nat →
            historicalWindows fuel end_date delta start_date = Some ws).
  { intros fuel Hlt. eapply historicalWindows_fuel; [exact Hws|lia]. }
  split; [exact Hfuel|].
  intros fuel World Response env job_id w Hlt.
  apply historicalLoop_windows. by apply Hfuel.
Qed.

Lemma historicalWindows_closed_form_witness :
  let n := Z.to_nat ((t1 + timedelta_seconds 216000 - t1 + timedelta_seconds 86400 - 1)
                     / timedelta_seconds 86400) in
  let ws := nth_window t1 (t1 + timedelta_seconds 216000) (timedelta_seconds 86400)
              <$> seq 0 n in
  (n = 3%nat ∧
   ws = [ (t1, t1 + timedelta_seconds 86400);
          (t1 + timedelta_seconds 86400, t1 + timedelta_seconds 172800);
          (t1 + timedelta_seconds 172800, t1 + timedelta_seconds 216000) ]) ∧
  (∀ fuel : nat, (n < fuel)%nat →
     historicalWindows fuel (t1 + timedelta_seconds 216000) (timedelta_seconds 86400) t1
     = Some ws) ∧
  (∀ (fuel : nat) (World Response : Type) (env : Collaborators World Response)
     (job_id : string) (w : World), (n < fuel)%nat →
     historicalLoop fuel job_id (t1 + timedelta_seconds 216000) (timedelta_seconds 86400) t1 w
     = Some (runWindows job_id ws w)).
Proof.
  intros n ws. split; [split; by_evaluation|].
  apply (historicalWindows_closed_form t1 (t1 + timedelta_seconds 216000)
           (timedelta_seconds 86400)); by_evaluation.
Defined.

(** X11: the degenerate ranges.  With [start_date = end_date] the loop
    leaves at once: no window.  With [start_date > end_date] it goes through
    the one window from [start_date] back to [end_date], and leaves at the
    second iteration. *)
Theorem historicalWindows_degenerate (fuel : nat) (start_date end_date : datetime)
    (delta : timedelta) :
  0 < delta →
  historicalWindows (S fuel) end_date delta end_date = Some [] ∧
  (end_date < start_date →
   historicalWindows (S (S fuel)) end_date delta start_date = Some [(start_date, end_date)]).
Proof.
  intros Hd.
  assert (H0 : ∀ n : nat, historicalWindows (S n) end_date delta end_date = Some []).
  { intros n. simpl. destruct (end_date + delta >? end_date) eqn:Hgt; [|lia].
    by rewrite Z.eqb_refl. }
  split; [apply H0|]. intros Hlt.
  change (historicalWindows (S (S fuel)) end_date delta start_date) with
    (let end2 := if start_date + delta >? end_date then end_date else start_date + delta in
     if start_date =? end2 then Some []
     else option_map (cons (start_date, end2)) (historicalWindows (S fuel) end_date delta end2)).
  destruct (start_date + delta >? end_date) eqn:Hgt; [|lia]. cbv beta zeta iota.
  destruct (start_date =? end_date) eqn:Heq; [apply Z.eqb_eq in Heq; lia|].
  by rewrite H0.
Qed.

Lemma historicalWindows_degenerate_witness :
  historicalWindows 1 day1 (calculateIntervalBetweenQueries REPORTING_INTERVAL) day1 = Some [] ∧
  (day1 < day2 →
   historicalWindows 2 day1 (calculateIntervalBetweenQueries REPORTING_INTERVAL) day2 =
   Some [(day2, day1)]).
Proof.
  apply (historicalWindows_degenerate 0 day2 day1
           (calculateIntervalBetweenQueries REPORTING_INTERVAL)).
  by_evaluation.
Defined.

(** ** More on the realtime cadence *)

(** X12: whatever the clock says, [sleep_time] is between 0 and
    [UPDATE_INTERVAL] seconds. *)
Theorem sleepTime_bounds (now end_ : datetime) :
  0 <= sleepTime now end_ <= UPDATE_INTERVAL.
Proof.
  unfold sleepTime, td_seconds, UPDATE_INTERVAL.
  pose proof (Z.mod_pos_bound ((now - timedelta_seconds DELAY - end_) / 1000000) 86400).
  lia.
Qed.

(** X18: [sleep_time] is the whole seconds left of [UPDATE_INTERVAL] after
    the time the cycle took, or zero, exactly when the clock has not gone
    back and either the cycle took less than a day or the seconds it took
    beyond whole days are [UPDATE_INTERVAL] or more.  In every other case
    the loop sleeps although the interval is over, or, the clock having
    gone back, sleeps less than what is left. *)
Theorem sleepTime_as_intended_iff (now end_ : datetime) :
  let elapsed := td_total_seconds_floor (now - timedelta_seconds DELAY - end_) in
  sleepTime now end_ = Z.max (UPDATE_INTERVAL - elapsed) 0 ↔
  0 <= elapsed ∧ (elapsed < 86400 ∨ UPDATE_INTERVAL <= elapsed mod 86400).
Proof.
  unfold sleepTime, td_seconds, td_total_seconds_floor, UPDATE_INTERVAL. cbv zeta.
  generalize ((now - timedelta_seconds DELAY - end_) / 1000000). intros s.
  pose proof (Z.mod_pos_bound s 86400 ltac:(lia)) as Hr.
  destruct (Z.lt_ge_cases s 0) as [Hneg|Hpos]; [lia|].
  destruct (Z.lt_ge_cases s 86400) as [Hday|Hday].
  - rewrite Z.mod_small by lia. split; [lia|done].
  - lia.
Qed.

(** ** More on the scheduler *)

Section MoreSchedulerProperties.
Context {World Response : Type} {env : Collaborators World Response}.

Lemma reportQueryError_returns error (w : World) :
  reportQueryError error w = (inr tt, w, [EvPrint "Error querying CloudWatch"; EvPrint error]).
Proof. reflexivity. Qed.

Lemma reportUpload_returns http_status (response : Response) (w : World) :
  ∃ prints, reportUpload http_status response w = (inr tt, w, prints) ∧
            Forall is_print prints.
Proof.
  unfold reportUpload. destruct (negb _).
  - eexists. split; [reflexivity|]. by repeat constructor.
  - eexists. split; [reflexivity|]. constructor.
Qed.

Lemma queryMetricRecords_only_queries metrics start end_ period (w : World) :
  Forall is_query (snd (queryMetricRecords metrics start end_ period w)).
Proof. by apply (produces_queryMetricRecords (fun ev => is_query ev)). Qed.

(** The course of the [try] statement of the historical loop. *)
Lemma historicalFetch_shape job_id start end_ (w : World) :
  ∃ r w' qevs after,
    historicalFetch job_id start end_ w = (r, w', EvListMetrics "AWS/EC2" :: qevs ++ after) ∧
    Forall is_query qevs ∧
    (∀ error, r ≠ inl (BotoServerError error)) ∧
    (Forall is_print after ∨
     ∃ data prints, after = EvUpload job_id data :: prints ∧ Forall is_print prints ∧
                    r = inr tt).
Proof.
  unfold historicalFetch, try_except_BotoServerError, bind at 1, call_list_metrics.
  destruct (list_metrics "AWS/EC2" w) as [[e|metrics] w1].
  - destruct e as [error| |].
    + rewrite reportQueryError_returns. eexists _, _, [], _. split; [reflexivity|].
      split; [constructor|]. split; [done|]. left. by repeat constructor.
    + eexists _, _, [], []. split; [reflexivity|]. split; [constructor|].
      split; [done|]. left. constructor.
    + eexists _, _, [], []. split; [reflexivity|]. split; [constructor|].
      split; [done|]. left. constructor.
  - unfold bind at 1.
    pose proof (queryMetricRecords_only_queries metrics start end_ REPORTING_INTERVAL w1) as Hq.
    destruct (queryMetricRecords metrics start end_ REPORTING_INTERVAL w1)
      as [[[e|records] w2] qevs]; simpl in Hq.
    + destruct e as [error| |].
      * rewrite reportQueryError_returns. eexists _, _, qevs, _. split; [reflexivity|].
        split; [done|]. split; [done|]. left. by repeat constructor.
      * eexists _, _, qevs, []. rewrite app_nil_r. split; [reflexivity|].
        split; [done|]. split; [done|]. left. constructor.
      * eexists _, _, qevs, []. rewrite app_nil_r. split; [reflexivity|].
        split; [done|]. split; [done|]. left. constructor.
    + unfold bind at 1, lift.
      destruct (transposeMetrics records) as [e|tranposed] eqn:Ht.
      * pose proof (transposeMetrics_raises_TypeError records e Ht) as ->.
        eexists _, _, qevs, []. rewrite !app_nil_r. split; [reflexivity|].
        split; [done|]. split; [done|]. left. constructor.
      * unfold bind, call_upload.
        destruct (engine_upload job_id (serialize tranposed) w2) as [[status response] w3].
        simpl. destruct (reportUpload_returns status response w3) as (prints & -> & Hp).
        eexists _, _, qevs, _. split; [reflexivity|].
        split; [done|]. split; [done|]. right. by eexists _, _.
Qed.

(** X13: an iteration of the historical loop prints its line, then lists
    the metrics once, then makes its queries, all over the window of the
    iteration; after the queries come print lines only, or one upload, to the
    job given, and then print lines only.  It never reads the clock and never
    sleeps, and it never raises [BotoServerError]. *)
Theorem historicalCycle_course job_id start end_ (w : World) :
  ∃ r w' qevs after,
    historicalCycle job_id start end_ w =
      (r, w', EvPrint ("Querying metrics starting at time " +:+ isoformat start)
              :: EvListMetrics "AWS/EC2" :: qevs ++ after) ∧
    Forall is_query qevs ∧
    Forall (within_window start end_) qevs ∧
    (∀ error, r ≠ inl (BotoServerError error)) ∧
    (Forall is_print after ∨
     ∃ data prints, after = EvUpload job_id data :: prints ∧ Forall is_print prints ∧
                    r = inr tt).
Proof.
  pose proof (historicalFetch_within job_id start end_ w) as Hw.
  destruct (historicalFetch_shape job_id start end_ w)
    as (r & w' & qevs & after & Hf & Hq & Hb & Ha).
  unfold historicalCycle, bind, print, emit. rewrite Hf in *. simpl in Hw.
  apply Forall_cons in Hw as [_ Hw]. apply Forall_app in Hw as [Hw _].
  exists r, w', qevs, after. split; [by destruct r as [e|[]]|]. done.
Qed.

Lemma realtimeFetch_no_boto job_id start end_ (w : World) error :
  fst (fst (realtimeFetch job_id start end_ w)) ≠ inl (BotoServerError error).
Proof.
  unfold realtimeFetch, try_except_BotoServerError.
  match goal with |- context [match ?m w with _ => _ end] =>
    destruct (m w) as [[[[error0| |]|[]] wb] fevs] end; done.
Qed.

(** The course of an iteration of the realtime loop. *)
Lemma realtimeCycle_shape job_id (end_ : datetime) (w : World) :
  ∃ now1 rf wb fevs,
    fst (utcnow w) = now1 ∧
    realtimeFetch job_id end_ (now1 - timedelta_seconds DELAY) (snd (utcnow w)) = (rf, wb, fevs) ∧
    match rf with
    | inl e =>
        realtimeCycle job_id end_ w =
        (inl e, wb,
         EvUtcnow now1
         :: EvPrint ("Querying metrics from " +:+ isoformat end_ +:+ " to " +:+
                     isoformat (now1 - timedelta_seconds DELAY)) :: fevs)
    | inr _ =>
        ∃ now2 wd,
          realtimeCycle job_id end_ w =
          (inr (now1 - timedelta_seconds DELAY), wd,
           EvUtcnow now1
           :: EvPrint ("Querying metrics from " +:+ isoformat end_ +:+ " to " +:+
                       isoformat (now1 - timedelta_seconds DELAY))
           :: fevs ++
           EvUtcnow now2
           :: EvPrint ("sleeping for " +:+
                       str_int (sleepTime now2 (now1 - timedelta_seconds DELAY)) +:+ " seconds")
           :: (if sleepTime now2 (now1 - timedelta_seconds DELAY) >? 0
               then [EvSleep (sleepTime now2 (now1 - timedelta_seconds DELAY))]
               else []))
    end.
Proof.
  unfold realtimeCycle, bind, call_utcnow, print, emit, replaceTimezoneWithUtc.
  destruct (utcnow w) as [now1 wa]. simpl. exists now1.
  destruct (realtimeFetch job_id end_ (now1 - timedelta_seconds DELAY) wa)
    as [[[e|[]] wb] fevs].
  - by exists (inl e), wb, fevs.
  - exists (inr tt), wb, fevs. split; [done|]. split; [done|].
    destruct (utcnow wb) as [now2 wd].
    destruct (sleepTime now2 (now1 - timedelta_seconds DELAY) >? 0) eqn:Hgt;
      unfold call_sleep, ret; exists now2; eexists; rewrite Hgt; reflexivity.
Qed.

Lemma historicalCycle_no_boto job_id start end_ (w : World) error :
  fst (fst (historicalCycle job_id start end_ w)) ≠ inl (BotoServerError error).
Proof.
  destruct (historicalFetch_shape job_id start end_ w)
    as (r & w' & qevs & after & Hf & _ & Hb & _).
  unfold historicalCycle, bind, print, emit. rewrite Hf.
  destruct r as [e|[]]; [|done]. simpl. apply Hb.
Qed.

(** X14: no run of the historical loop and no run of the realtime loop
    ends with [BotoServerError]: the handler of each iteration takes every
    one of them. *)
Theorem BotoServerError_never_escapes job_id (w : World) :
  (∀ (fuel : nat) start_date end_date r w' evs,
     runHistorical fuel job_id start_date end_date w = Some (r, w', evs) →
     ∀ error, r ≠ inl (BotoServerError error)) ∧
  (∀ (cycles : nat) r w' evs,
     runRealtime cycles job_id w = (r, w', evs) →
     ∀ error, r ≠ inl (BotoServerError error)).
Proof.
  split.
  - unfold runHistorical. generalize (calculateIntervalBetweenQueries REPORTING_INTERVAL).
    intros delta fuel start_date end_date. revert start_date w.
    induction fuel as [|fuel IH]; intros end_ w r w' evs H; [done|]. simpl in H.
    destruct (end_ =? _); [by inversion H|].
    match type of H with context [historicalCycle job_id end_ ?e w] =>
      pose proof (fun error => historicalCycle_no_boto job_id end_ e w error) as Hb;
      destruct (historicalCycle job_id end_ e w) as [[rc wc] cevs] end.
    simpl in Hb. destruct rc as [e|[]].
    + inversion H; subst. done.
    + destruct (historicalLoop fuel _ _ _ _ wc) as [[[r2 w2] evs2]|] eqn:Hl; [|done].
      inversion H; subst. by eapply IH.
  - intros cycles r w' evs H.
    unfold runRealtime, bind, call_utcnow in H. destruct (utcnow w) as [now0 w0].
    destruct (realtimeLoop cycles job_id _ w0) as [[r1 w1] evs1] eqn:Hl.
    inversion H; subst. clear H. revert Hl.
    generalize (replaceTimezoneWithUtc
                  (now0 - timedelta_seconds DELAY - timedelta_seconds UPDATE_INTERVAL)).
    revert w0 r w' evs1. induction cycles as [|cycles IH]; intros w0 r w' evs1 end_ Hl.
    + by inversion Hl.
    + simpl in Hl. unfold bind at 1 in Hl.
      destruct (realtimeCycle_shape job_id end_ w0) as (now1 & rf & wb & fevs & _ & Hf & Hc).
      pose proof (realtimeFetch_no_boto job_id end_ (now1 - timedelta_seconds DELAY)
                    (snd (utcnow w0))) as Hnb.
      rewrite Hf in Hnb. simpl in Hnb. destruct rf as [e|[]].
      * rewrite Hc in Hl. inversion Hl; subst. done.
      * destruct Hc as (now2 & wd & Hc). rewrite Hc in Hl.
        destruct (realtimeLoop cycles job_id _ wd) as [[r2 w2] evs2] eqn:Hl2.
        inversion Hl; subst. by eapply IH.
Qed.

(** X15: an exception other than [BotoServerError] raised in an iteration
    -- [IndexError] from the fetcher, [TypeError] from the transposer --
    is not handled: the iteration has uploaded nothing, and the historical
    loop ends there with that exception, the windows that remain being left
    out. *)
Theorem uncaught_exception_ends_run job_id (start end_ : datetime) (w : World)
    metrics w1 rq w2 evs e :
  list_metrics "AWS/EC2" w = (inr metrics, w1) →
  queryMetricRecords metrics start end_ REPORTING_INTERVAL w1 = (rq, w2, evs) →
  (rq = inl e ∧ ∀ error, e ≠ BotoServerError error) ∨
  (∃ records, rq = inr records ∧ transposeMetrics records = inl e) →
  let cycle_events :=
    [EvPrint ("Querying metrics starting at time " +:+ isoformat start);
     EvListMetrics "AWS/EC2"] ++ evs in
  historicalCycle job_id start end_ w = (inl e, w2, cycle_events) ∧
  uploads cycle_events = [] ∧
  ∀ (fuel : nat) end_date delta,
    end_ = (if start + delta >? end_date then end_date else start + delta) →
    start ≠ end_ →
    historicalLoop (S fuel) job_id end_date delta start w = Some (inl e, w2, cycle_events).
Proof.
  intros Hlist Hq Hcase cycle_events.
  assert (Hcycle : historicalCycle job_id start end_ w = (inl e, w2, cycle_events)).
  { unfold historicalCycle, historicalFetch, try_except_BotoServerError, bind at 1 2,
      print, emit, call_list_metrics.
    rewrite Hlist. unfold bind at 1. rewrite Hq.
    destruct Hcase as [[-> Hnb]|(records & -> & Ht)].
    - unfold cycle_events. destruct e as [error| |]; [by destruct (Hnb error)|done|done].
    - unfold bind at 1, lift. rewrite Ht.
      pose proof (transposeMetrics_raises_TypeError records e Ht) as ->.
      unfold cycle_events. simpl. by rewrite !app_nil_r. }
  split; [done|]. split.
  - unfold cycle_events, uploads. simpl.
    pose proof (queryMetricRecords_only_queries metrics start end_ REPORTING_INTERVAL w1) as Hqs.
    rewrite Hq in Hqs. simpl in Hqs. clear -Hqs.
    induction Hqs as [|ev evs Hev Hevs IH]; [done|]. simpl. rewrite IH. by destruct ev.
  - intros fuel end_date delta Hend Hne. simpl. rewrite <- Hend.
    apply Z.eqb_neq in Hne. by rewrite Hne, Hcycle.
Qed.

Lemma delayed_within (now start : datetime) evs :
  Forall (within_window start (now - timedelta_seconds DELAY)) evs →
  ∀ rest, delayed (Some now) rest → delayed (Some now) (evs ++ rest).
Proof.
  intros Hw rest Hrest.
  induction Hw as [|ev evs Hev Hevs IH]; [done|].
  destruct ev; simpl in *; try done. split; [|done]. exists now. by destruct Hev.
Qed.

Lemma realtimeLoop_delayed (cycles : nat) job_id :
  ∀ (end_ : datetime) (w : World) cur,
    delayed cur (snd (realtimeLoop cycles job_id end_ w)).
Proof.
  induction cycles as [|cycles IH]; intros end_ w cur; [done|].
  simpl. unfold bind.
  destruct (realtimeCycle_shape job_id end_ w) as (now1 & rf & wb & fevs & _ & Hf & Hc).
  pose proof (realtimeFetch_within job_id end_ (now1 - timedelta_seconds DELAY)
                (snd (utcnow w))) as Hw.
  rewrite Hf in Hw. simpl in Hw. destruct rf as [e|[]].
  - rewrite Hc. simpl.
    rewrite <- (app_nil_r fevs). by eapply delayed_within.
  - destruct Hc as (now2 & wd & Hc). rewrite Hc.
    specialize (IH (now1 - timedelta_seconds DELAY) wd).
    destruct (realtimeLoop cycles job_id _ wd) as [[r2 w2] evs2]. simpl in *.
    rewrite <- app_assoc. eapply delayed_within; [done|].
    simpl. destruct (sleepTime _ _ >? 0); simpl; apply IH.
Qed.

Lemma realtimeLoop_sleeps (cycles : nat) job_id :
  ∀ (end_ : datetime) (w : World),
    Forall sleep_bounded (snd (realtimeLoop cycles job_id end_ w)).
Proof.
  induction cycles as [|cycles IH]; intros end_ w; [constructor|].
  simpl. unfold bind.
  destruct (realtimeCycle_shape job_id end_ w) as (now1 & rf & wb & fevs & _ & Hf & Hc).
  pose proof (realtimeFetch_within job_id end_ (now1 - timedelta_seconds DELAY)
                (snd (utcnow w))) as Hw.
  rewrite Hf in Hw. simpl in Hw.
  assert (Hfs : Forall sleep_bounded fevs).
  { eapply Forall_impl; [exact Hw|]. by intros []. }
  destruct rf as [e|[]].
  - rewrite Hc. simpl. by repeat constructor.
  - destruct Hc as (now2 & wd & Hc). rewrite Hc.
    specialize (IH (now1 - timedelta_seconds DELAY) wd).
    destruct (realtimeLoop cycles job_id _ wd) as [[r2 w2] evs2]. simpl in *.
    do 2 (constructor; [done|]). rewrite <- app_assoc. apply Forall_app. split; [done|].
    simpl. do 2 (constructor; [done|]).
    assert (Hb : 0 <= sleepTime now2 (now1 - timedelta_seconds DELAY) <= UPDATE_INTERVAL).
    { unfold sleepTime, td_seconds, UPDATE_INTERVAL.
      pose proof (Z.mod_pos_bound
                    ((now2 - timedelta_seconds DELAY - (now1 - timedelta_seconds DELAY))
                     / 1000000) 86400).
      lia. }
    destruct (sleepTime _ _ >? 0) eqn:Hgt; simpl; [|done].
    constructor; [|done]. simpl. lia.
Qed.

(** X16: in every run of the realtime loop, whatever the clock, the
    provider and the sink do, each query ends exactly [DELAY] seconds before
    the clock reading made last before it: data younger than the safety
    delay is never asked for.  And each sleep lasts from one second to
    [UPDATE_INTERVAL] seconds: the loop never sleeps for zero or a negative
    time, nor longer than its cadence. *)
Theorem realtime_delay_and_sleeps (cycles : nat) job_id (w : World) :
  delayed None (snd (runRealtime cycles job_id w)) ∧
  Forall sleep_bounded (snd (runRealtime cycles job_id w)).
Proof.
  unfold runRealtime, bind, call_utcnow. destruct (utcnow w) as [now0 w0].
  match goal with |- context [realtimeLoop cycles job_id ?e w0] =>
    pose proof (realtimeLoop_delayed cycles job_id e w0 (Some now0)) as Hd;
    pose proof (realtimeLoop_sleeps cycles job_id e w0) as Hs;
    destruct (realtimeLoop cycles job_id e w0) as [[r1 w1] evs1] end.
  simpl in *. by split; [|constructor].
Qed.
End MoreSchedulerProperties.

(** ** The further properties in the sample environment *)

Lemma queryMetricRecords_queries_witness :
  [ EvQuery cpu_metric t1 t2 "Average" 60; EvQuery net_metric t1 t2 "Average" 60 ]
    `prefix_of` expected_queries [ami_metric; cpu_metric; net_metric] t1 t2 60 ∧
  (∀ records, inr (A:=exn) (sample_fetched t1) = inr records →
     [ EvQuery cpu_metric t1 t2 "Average" 60; EvQuery net_metric t1 t2 "Average" 60 ] =
     expected_queries [ami_metric; cpu_metric; net_metric] t1 t2 60).
Proof.
  apply (queryMetricRecords_queries (env := sampleCollaborators "none" 202)
           [ami_metric; cpu_metric; net_metric] t1 t2 60 []
           (inr (sample_fetched t1)) []).
  by_evaluation.
Defined.

Lemma queryMetricRecords_records_witness :
  sorted_by_timestamp (sample_fetched t1) ∧
  Forall (from_listed [ami_metric; cpu_metric; net_metric]) (sample_fetched t1).
Proof.
  apply (queryMetricRecords_records (env := sampleCollaborators "none" 202)
           [ami_metric; cpu_metric; net_metric] t1 t2 60 [] (sample_fetched t1) []
           [ EvQuery cpu_metric t1 t2 "Average" 60; EvQuery net_metric t1 t2 "Average" 60 ]).
  by_evaluation.
Defined.

Lemma queryMetricRecords_empty_dimension_witness :
  queryMetricRecords (env := sampleCollaborators "none" 202)
    ([ami_metric; cpu_metric] ++ empty_metric :: [net_metric]) t1 t2 60 [] =
  (inl IndexError, [], [EvQuery cpu_metric t1 t2 "Average" 60]).
Proof.
  apply (queryMetricRecords_empty_dimension (env := sampleCollaborators "none" 202)
           [ami_metric; cpu_metric] empty_metric [net_metric] t1 t2 60 []
           (sample_observations "CPUUtilization") []
           [EvQuery cpu_metric t1 t2 "Average" 60]);
    by_evaluation.
Defined.

Lemma BotoServerError_never_escapes_witness :
  (∀ error, inr tt ≠ inl (A:=exn) (B:=unit) (BotoServerError error)) ∧
  (∀ error,
     fst (fst (runRealtime (env := sampleCollaborators "NetworkIn" 202) 2 "job"
                 [t1; t1 + 1; t1 + 2; t1 + 3; t1 + 4]))
     ≠ inl (BotoServerError error)).
Proof.
  destruct (BotoServerError_never_escapes (env := sampleCollaborators "NetworkIn" 202) "job" [])
    as [Hhist _].
  destruct (BotoServerError_never_escapes (env := sampleCollaborators "NetworkIn" 202) "job"
              [t1; t1 + 1; t1 + 2; t1 + 3; t1 + 4]) as [_ Hreal].
  split.
  - apply (Hhist 3%nat day1 day2 (inr tt) []
             (snd (runWindows (env := sampleCollaborators "NetworkIn" 202) "job"
                     [(day1, day2)] []))).
    by_evaluation.
  - destruct (runRealtime (env := sampleCollaborators "NetworkIn" 202) 2 "job"
                [t1; t1 + 1; t1 + 2; t1 + 3; t1 + 4]) as [[r w'] evs] eqn:Hrun.
    exact (Hreal 2%nat r w' evs Hrun).
Defined.

Lemma uncaught_exception_ends_run_witness :
  let cycle_events :=
    [EvPrint ("Querying metrics starting at time " +:+ isoformat epoch);
     EvListMetrics "AWS/EC2"] ++
    [ EvQuery cpu_metric epoch (timedelta_seconds 86400) "Average" REPORTING_INTERVAL;
      EvQuery net_metric epoch (timedelta_seconds 86400) "Average" REPORTING_INTERVAL ] in
  historicalCycle (env := sampleCollaborators "none" 202) "job" epoch (timedelta_seconds 86400) [] =
    (inl TypeError, [], cycle_events) ∧
  uploads cycle_events = [] ∧
  ∀ (fuel : nat) end_date delta,
    timedelta_seconds 86400 = (if epoch + delta >? end_date then end_date else epoch + delta) →
    epoch ≠ timedelta_seconds 86400 →
    historicalLoop (env := sampleCollaborators "none" 202) (S fuel) "job" end_date delta epoch [] =
    Some (inl TypeError, [], cycle_events).
Proof.
  apply (uncaught_exception_ends_run (env := sampleCollaborators "none" 202)
           "job" epoch (timedelta_seconds 86400) []
           [ami_metric; cpu_metric; net_metric] [] (inr (sample_fetched epoch)) []
           [ EvQuery cpu_metric epoch (timedelta_seconds 86400) "Average" REPORTING_INTERVAL;
             EvQuery net_metric epoch (timedelta_seconds 86400) "Average" REPORTING_INTERVAL ]
           TypeError).
  - by_evaluation.
  - by_evaluation.
  - right. exists (sample_fetched epoch). split; [done|]. by_evaluation.
Defined.

(** * Properties of the scripts *)

(** ** The job *)

Section JobProperties.
Context {World Response Config : Type}
        {env : Collaborators World Response}
        {client : JobClient World Response}
        {platform : Platform World Config}.

(** What the creation of a job leaves, by the answer of the engine. *)
Lemma createWith_outcome (config created : string) (w : World) :
  createWith config created w =
  let '((status, response), w') := client_createJob config w in
  if status =? 201 then
    match response_id response with
    | Some job_id =>
        Some (inr (Some job_id), w',
              [ActCreateJob config; Sched (EvPrint (created +:+ job_id))])
    | None => Some (inl (KeyError "id"), w', [ActCreateJob config])
    end
  else
    Some (inr None, w',
          [ActCreateJob config; Sched (EvPrint "Error creating job");
           Sched (EvPrint (str_response response))]).
Proof.
  unfold createWith, pbind, call_createJob, get_id, pprint, act, pret, praise.
  destruct (client_createJob config w) as [[status response] w']. simpl.
  destruct (status =? 201); simpl; [|done].
  by destruct (response_id response).
Qed.

Lemma createJob_quiet (job : option string) (w : World) :
  ∃ r w' acts,
    createJob job w = Some (r, w', acts) ∧
    Forall (fun a => is_close a = false ∧ is_scheduler_call a = false) acts ∧
    (∀ e, r = inl e → e = KeyError "id").
Proof.
  assert (Hwith : ∀ config created w1,
            ∃ r w' acts,
              createWith config created w1 = Some (r, w', acts) ∧
              Forall (fun a => is_close a = false ∧ is_scheduler_call a = false) acts ∧
              (∀ e, r = inl e → e = KeyError "id")).
  { intros config created w1. rewrite createWith_outcome.
    destruct (client_createJob config w1) as [[status response] w'].
    destruct (status =? 201); [destruct (response_id response)|].
    - eexists _, _, _. split; [done|]. split; [by repeat constructor|]. by intros e.
    - eexists _, _, _. split; [done|]. split; [by repeat constructor|].
      intros e He. by inversion He.
    - eexists _, _, _. split; [done|]. split; [by repeat constructor|]. by intros e. }
  destruct job as [job_id|]; [|apply Hwith].
  unfold createJob, pbind, call_getJob.
  destruct (client_getJob job_id w) as [[status response] w1]. simpl.
  destruct (status =? 404).
  - destruct (Hwith (JOB_CONFIG (quoted "id" +:+ " : " +:+ quote +:+ job_id +:+ quote +:+ ","))
                "Created job with ID " w1) as (r & w' & acts & Hrun & Hall & Hr).
    rewrite Hrun. eexists _, _, _. split; [done|]. split; [|done].
    by constructor.
  - simpl. eexists _, _, _. split; [done|]. split; [by repeat constructor|]. by intros e.
Qed.

Lemma Sched_no_close (evs : list event) : filter is_close (Sched <$> evs) = [].
Proof. induction evs as [|ev evs IH]; [done|]. rewrite fmap_cons, filter_cons. by simpl. Qed.

Lemma quiet_no_close (acts : list action) :
  Forall (fun a => is_close a = false ∧ is_scheduler_call a = false) acts →
  filter is_close acts = [].
Proof.
  induction 1 as [|a acts [Ha _] _ IH]; [done|].
  rewrite filter_cons. destruct (decide (is_close a)) as [Hc|_]; [|done].
  rewrite Ha in Hc. done.
Qed.

Ltac run_script H :=
  repeat (cbv beta iota zeta in H;
          match type of H with
          | context [match ?x with _ => _ end] =>
              lazymatch x with
              | context [match _ with _ => _ end] => fail
              | _ => destruct x eqn:?
              end
          | Some _ = Some _ => inversion H; subst; clear H
          | None = Some _ => discriminate H
          end).

Lemma closed_last (a : action) (pre : list action) (job_id : string) :
  is_close a = false →
  filter is_close pre = [] →
  filter is_close (a :: pre ++ [Sched (EvPrint "Closing job..."); ActClose job_id])
    = [ActClose job_id] ∧
  ∀ j, ActClose j ∈ a :: pre ++ [Sched (EvPrint "Closing job..."); ActClose job_id] →
       last (a :: pre ++ [Sched (EvPrint "Closing job..."); ActClose job_id])
       = Some (ActClose j).
Proof.
  intros Ha Hpre.
  assert (Hf : filter is_close
                 (a :: pre ++ [Sched (EvPrint "Closing job..."); ActClose job_id])
               = [ActClose job_id]).
  { rewrite filter_cons_False by (rewrite Ha; simpl; tauto).
    by rewrite filter_app, Hpre. }
  split; [done|]. intros j Hj.
  assert (Hin : ActClose j ∈ filter is_close
                  (a :: pre ++ [Sched (EvPrint "Closing job..."); ActClose job_id])).
  { apply list_elem_of_filter. by split. }
  rewrite Hf in Hin. apply list_elem_of_singleton in Hin. inversion Hin; subst.
  change [Sched (EvPrint "Closing job..."); ActClose job_id]
    with ([Sched (EvPrint "Closing job...")] ++ [ActClose job_id]).
  by rewrite app_comm_cons, app_assoc, last_snoc.
Qed.

Lemma not_closed (acts : list action) :
  filter is_close acts = [] →
  filter is_close acts = [] ∧ ∀ j, ActClose j ∈ acts → last acts = Some (ActClose j).
Proof.
  intros Hacts. split; [done|]. intros j Hj.
  assert (Hin : ActClose j ∈ filter is_close acts) by (apply list_elem_of_filter; by split).
  rewrite Hacts in Hin. by apply elem_of_nil in Hin.
Qed.

(** X19: [createJob] never closes a job nor reaches the scheduler, and it
    does one of two things.  When an identifier is given and [getJob] is
    answered with a status other than 404 -- any other: an error counts as
    the job being there -- it creates nothing and returns the identifier
    given.  Otherwise it asks for one creation, with the configuration that
    carries the identifier given, if any, as ["id"]; an answer 201 makes it
    return the identifier of the answer, [response['id']], whatever was
    asked for, or raise [KeyError] when the answer has none; any other
    answer makes it print the error and the answer and return [None]. *)
Theorem createJob_outcome (job : option string) (w : World) :
  ∃ r w' acts,
    createJob job w = Some (r, w', acts) ∧
    Forall (fun a => is_close a = false ∧ is_scheduler_call a = false) acts ∧
    ((∃ job_id,
        job = Some job_id ∧ fst (fst (client_getJob job_id w)) ≠ 404 ∧
        r = inr (Some job_id) ∧ filter is_create acts = [] ∧
        w' = snd (client_getJob job_id w)) ∨
     (∃ config w1 status response,
        ((job = None ∧ config = JOB_CONFIG EmptyString ∧ w1 = w) ∨
         (∃ job_id,
            job = Some job_id ∧ fst (fst (client_getJob job_id w)) = 404 ∧
            config = JOB_CONFIG (quoted "id" +:+ " : " +:+ quote +:+ job_id +:+ quote +:+ ",") ∧
            w1 = snd (client_getJob job_id w))) ∧
        filter is_create acts = [ActCreateJob config] ∧
        client_createJob config w1 = ((status, response), w') ∧
        r = (if status =? 201
             then match response_id response with
                  | Some job_id => inr (Some job_id)
                  | None => inl (KeyError "id")
                  end
             else inr None) ∧
        (status ≠ 201 → printed acts = ["Error creating job"; str_response response]))).
Proof.
  assert (Hwith : ∀ config created w1,
            ∃ r w' acts status response,
              createWith config created w1 = Some (r, w', acts) ∧
              Forall (fun a => is_close a = false ∧ is_scheduler_call a = false) acts ∧
              filter is_create acts = [ActCreateJob config] ∧
              client_createJob config w1 = ((status, response), w') ∧
              r = (if status =? 201
                   then match response_id response with
                        | Some job_id => inr (Some job_id)
                        | None => inl (KeyError "id")
                        end
                   else inr None) ∧
              (status ≠ 201 → printed acts = ["Error creating job"; str_response response])).
  { intros config created w1. rewrite createWith_outcome.
    destruct (client_createJob config w1) as [[status response] w'].
    destruct (status =? 201) eqn:Hs; [destruct (response_id response) eqn:Hid|].
    - eexists _, _, _, status, response. rewrite Hs, Hid.
      split; [done|]. split; [by repeat constructor|]. do 3 (split; [done|]).
      apply Z.eqb_eq in Hs. by intros [].
    - eexists _, _, _, status, response. rewrite Hs, Hid.
      split; [done|]. split; [by repeat constructor|]. do 3 (split; [done|]).
      apply Z.eqb_eq in Hs. by intros [].
    - eexists _, _, _, status, response. rewrite Hs.
      split; [done|]. split; [by repeat constructor|]. by do 3 (split; [done|]). }
  destruct job as [job_id|].
  - unfold createJob, pbind, call_getJob.
    destruct (client_getJob job_id w) as [[status0 response0] w1] eqn:Hg. simpl.
    destruct (status0 =? 404) eqn:Hs.
    + apply Z.eqb_eq in Hs. subst status0.
      destruct (Hwith (JOB_CONFIG (quoted "id" +:+ " : " +:+ quote +:+ job_id +:+ quote +:+ ","))
                  "Created job with ID " w1)
        as (r & w' & acts & status & response & Hrun & Hall & Hcreate & Hanswer & Hr & Hp).
      rewrite Hrun. exists r, w', ([ActGetJob job_id] ++ acts).
      split; [done|]. split; [by constructor|]. right.
      exists (JOB_CONFIG (quoted "id" +:+ " : " +:+ quote +:+ job_id +:+ quote +:+ ",")),
        w1, status, response.
      split; [right; exists job_id; by rewrite Hg|].
      split; [by rewrite filter_app, Hcreate|]. split; [done|]. split; [done|].
      intros Hne. unfold printed in *. cbn [app omap list_omap]. by apply Hp.
    + apply Z.eqb_neq in Hs. simpl.
      eexists _, _, _. split; [done|]. split; [by repeat constructor|].
      left. exists job_id. by rewrite Hg.
  - unfold createJob.
    destruct (Hwith (JOB_CONFIG EmptyString) "Created job with automatic ID " w)
      as (r & w' & acts & status & response & Hrun & Hall & Hcreate & Hanswer & Hr & Hp).
    exists r, w', acts. split; [done|]. split; [done|]. right.
    exists (JOB_CONFIG EmptyString), w, status, response.
    split; [by left|]. done.
Qed.

(** X20: in [main], from the creation of the client on, the job is closed
    exactly when [createJob] returned an identifier and the scheduler and
    the parsing of the dates raised nothing; it is then closed once, with
    that identifier, as the last thing done.  So an exception out of the
    scheduler leaves the job open. *)
Theorem job_closed_iff (fuel cycles : nat) (args : Args) (w : World) r w' acts :
  main_schedule fuel cycles args w = Some (r, w', acts) →
  ∃ rj wj aj,
    createJob (args_job_id args) w = Some (rj, wj, aj) ∧
    filter is_close acts =
      match r, rj with
      | inr _, inr (Some job_id) => [ActClose job_id]
      | _, _ => []
      end ∧
    ∀ job_id, ActClose job_id ∈ acts → last acts = Some (ActClose job_id).
Proof.
  intros Hrun.
  destruct (createJob_quiet (args_job_id args) w) as (rj & wj & aj & Hj & Hquiet & _).
  exists rj, wj, aj. split; [done|].
  apply quiet_no_close in Hquiet.
  unfold main_schedule, runRealtimeInterrupted, pbind, pprint, act, call_close, sched, sched_bounded, parse_date,
    pret, praise in Hrun.
  rewrite Hj in Hrun.
  run_script Hrun.
  all: rewrite ?app_nil_r, ?app_assoc.
  all: try (apply not_closed; rewrite filter_cons_False by (simpl; tauto);
            rewrite ?filter_app, ?Hquiet, ?Sched_no_close; done).
  all: apply closed_last; [done|]; rewrite ?filter_app, ?Hquiet, ?Sched_no_close; done.
Qed.

(** X21: [main] makes a client of the engine, looks a job up, creates or
    closes one, or reaches the scheduler only when the configuration file
    was read and parsed, gave the three options and the region was known to
    the provider. *)
Theorem services_need_configuration (fuel cycles : nat) (args : Args) (w : World) r w' acts :
  main fuel cycles args w = Some (r, w', acts) →
  Exists beyond_connection acts →
  ∃ text w1 config region access_id secret_key,
    open_read (args_config args) w = (Some text, w1) ∧
    config_readfp ("[root]" +:+ newline +:+ text) = inr config ∧
    config_get config "root" "region" = Got region ∧
    config_get config "root" "aws_access_key_id" = Got access_id ∧
    config_get config "root" "aws_secret_access_key" = Got secret_key ∧
    fst (connect_to_region region access_id secret_key w1) = true.
Proof.
  intros Hrun Hex.
  unfold main, pbind, pprint, act, pret, praise in Hrun.
  destruct (open_read (args_config args) w) as [[text|] w1] eqn:Hopen;
    cbv beta iota zeta in Hrun.
  2: { inversion Hrun; subst. exfalso.
       apply Exists_exists in Hex. destruct Hex as (a & Ha & Hb).
       apply list_elem_of_In in Ha. simpl in Ha. by destruct Ha as [<-|[<-|[]]]. }
  destruct (config_readfp ("[root]" +:+ newline +:+ text)) as [e|config] eqn:Hread.
  { inversion Hrun; subst. exfalso.
    apply Exists_exists in Hex. destruct Hex as (a & Ha & Hb).
    apply list_elem_of_In in Ha. simpl in Ha. by destruct Ha as [<-|[]]. }
  destruct (get_options config) as [other|[[region access_id] secret_key]] eqn:Hget.
  { exfalso. destruct other; inversion Hrun; subst;
      apply Exists_exists in Hex; destruct Hex as (a & Ha & Hb);
      apply list_elem_of_In in Ha; simpl in Ha; by repeat destruct Ha as [<-|Ha]. }
  destruct (connect_to_region region access_id secret_key w1) as [connected w2] eqn:Hconn.
  cbv beta iota zeta in Hrun.
  exists text, w1, config, region, access_id, secret_key.
  unfold get_options in Hget.
  destruct (config_get config "root" "region") as [region'| |]; try done.
  destruct (config_get config "root" "aws_access_key_id") as [access_id'| |]; try done.
  destruct (config_get config "root" "aws_secret_access_key") as [secret_key'| |]; try done.
  inversion Hget; subst. rewrite Hconn. simpl.
  do 5 (split; [done|]).
  destruct connected; [done|]. exfalso. simpl in Hrun. inversion Hrun; subst.
  apply Exists_exists in Hex. destruct Hex as (a & Ha & Hb).
  apply list_elem_of_In in Ha. simpl in Ha. by repeat destruct Ha as [<-|Ha].
Qed.

(** X22: without [--start-date], [main] does the same whatever
    [--end-date] is, a text that is no date included: it is never read. *)
Theorem end_date_ignored_in_realtime (fuel fuel' cycles : nat) (args : Args)
    (end_date : option string) (w : World) :
  args_start_date args = None →
  main fuel cycles args w =
  main fuel' cycles
    (mkArgs (args_config args) (args_api_host args) (args_api_port args) (args_job_id args)
       None end_date) w.
Proof.
  destruct args as [config api_host api_port job_id start_date end_date0].
  cbn [args_start_date args_config args_api_host args_api_port args_job_id].
  intros ->. unfold main, main_schedule.
  cbn [args_start_date args_config args_api_host args_api_port args_job_id].
  reflexivity.
Qed.

(** X23: a [ValueError] out of [main], from the creation of the client on,
    comes from a date that does not parse, and only after [createJob]
    returned an identifier: the job has been looked up or created by then,
    it is not closed, and nothing was queried or uploaded.  For
    [--start-date] nothing else was done; for [--end-date] the clock was
    read once. *)
Theorem date_error_after_job (fuel cycles : nat) (args : Args) (w : World) w' acts :
  main_schedule fuel cycles args w = Some (inl ValueError, w', acts) →
  ∃ job_id wj aj,
    createJob (args_job_id args) w = Some (inr (Some job_id), wj, aj) ∧
    filter is_close acts = [] ∧
    ((∃ date, args_start_date args = Some date ∧ strptime date "%Y-%m-%d" = None ∧
              w' = wj ∧
              acts = ActClient (args_api_host args) API_BASE_URL (args_api_port args) :: aj) ∨
     (∃ date, args_end_date args = Some date ∧ strptime date "%Y-%m-%d" = None ∧
              w' = snd (utcnow wj) ∧
              acts = ActClient (args_api_host args) API_BASE_URL (args_api_port args)
                     :: aj ++ [Sched (EvUtcnow (fst (utcnow wj)))])).
Proof.
  intros Hrun.
  destruct (createJob_quiet (args_job_id args) w) as (rj & wj & aj & Hj & Hquiet & Hexn).
  apply quiet_no_close in Hquiet.
  unfold main_schedule, runRealtimeInterrupted, pbind, pprint, act, call_close, sched,
    sched_bounded, parse_date, pret, praise, call_utcnow in Hrun.
  rewrite Hj in Hrun.
  run_script Hrun.
  all: try (by specialize (Hexn _ eq_refl)).
  all: eexists _, _, _; (split; [done|]).
  all: rewrite ?app_nil_r.
  - split; [by rewrite filter_cons_False, filter_app, Hquiet by (simpl; tauto)|].
    right. eexists. split; [done|]. split; [done|].
    match goal with H : utcnow _ = _ |- _ => rewrite H end. done.
  - split; [by rewrite filter_cons_False by (simpl; tauto)|].
    left. eexists. done.
Qed.
End JobProperties.

(** ** The listing of the records *)

Section RecordsProperties.
Context {World Response Doc Score : Type}
        {client : PrintJobRecords.RecordsClient World Response Doc Score}.

Lemma printRecord_cases (record : Doc) (w : World) :
  match record_line record with
  | Some line =>
      PrintJobRecords.printRecord record w = Some (inr tt, w, [Sched (EvPrint line)])
  | None =>
      ∃ key, PrintJobRecords.printRecord record w = Some (inl (KeyError key), w, []) ∧
             PrintJobRecords.field record key = None ∧
             key ∈ ["timestamp"; "anomalyScore"; "normalizedProbability"]
  end.
Proof.
  unfold record_line, PrintJobRecords.printRecord, PrintJobRecords.get_field, pbind, pprint,
    act, pret, praise.
  destruct (PrintJobRecords.field record "timestamp") eqn:Ht; cbv beta iota zeta.
  2: { exists "timestamp". split; [done|]. split; [done|]. by left. }
  destruct (PrintJobRecords.field record "anomalyScore") eqn:Ha; cbv beta iota zeta.
  2: { exists "anomalyScore". split; [done|]. split; [done|]. right. by left. }
  destruct (PrintJobRecords.field record "normalizedProbability") eqn:Hp; cbv beta iota zeta.
  2: { exists "normalizedProbability". split; [done|]. split; [done|]. right. right. by left. }
  done.
Qed.

Lemma printRecords_complete (records : list Doc) (w : World) :
  Forall complete records →
  PrintJobRecords.printRecords records w =
    Some (inr tt, w, (fun line => Sched (EvPrint line)) <$> omap record_line records).
Proof.
  induction 1 as [|record rest [line Hline] _ IH]; [done|].
  pose proof (printRecord_cases record w) as Hrec. rewrite Hline in Hrec.
  cbn [PrintJobRecords.printRecords omap list_omap]. unfold pbind.
  by rewrite Hrec, IH, Hline.
Qed.

(** Whatever the records are, [printRecords] returns or raises, leaves the
    world as it is and only prints. *)
Lemma printRecords_prints (records : list Doc) (w : World) :
  ∃ r lines,
    PrintJobRecords.printRecords records w =
      Some (r, w, (fun line => Sched (EvPrint line)) <$> lines).
Proof.
  induction records as [|record rest IH]; [by exists (inr tt), []|].
  pose proof (printRecord_cases record w) as Hrec.
  cbn [PrintJobRecords.printRecords]. unfold pbind.
  destruct (record_line record) as [line|].
  - rewrite Hrec. destruct IH as (r & lines & ->). by exists r, (line :: lines).
  - destruct Hrec as (key & -> & _). by exists (inl (KeyError key)), [].
Qed.

Lemma requests_prints (lines : list string) :
  requests ((fun line => Sched (EvPrint line)) <$> lines) = [].
Proof. induction lines as [|line lines IH]; [done|]. by rewrite fmap_cons. Qed.

Lemma printed_prints (lines : list string) :
  printed ((fun line => Sched (EvPrint line)) <$> lines) = lines.
Proof.
  induction lines as [|line lines IH]; [done|].
  rewrite fmap_cons. unfold printed in *. cbn [omap list_omap]. by rewrite IH.
Qed.

Lemma requests_app (acts acts' : list action) :
  requests (acts ++ acts') = requests acts ++ requests acts'.
Proof. apply omap_app. Qed.

Lemma requests_get (job_id : string) (skip take : Z) (acts : list action) :
  requests (ActGetRecords job_id skip take :: acts) = (job_id, skip, take) :: requests acts.
Proof. done. Qed.

Lemma seq_pages {A} (f : nat → A) (n : nat) :
  f <$> seq 0 (S n) = f 0%nat :: ((fun k => f (S k)) <$> seq 0 n).
Proof.
  cbn [seq fmap list_fmap]. f_equal.
  rewrite <- fmap_S_seq, <- list_fmap_compose. done.
Qed.

(** The requests of the loop: one page after the other, none at or beyond
    the number of hits. *)
Lemma pageLoop_requests (fuel : nat) (args : PrintJobRecords.Args Score)
    (skip take hit_count : Z) (w : World) r w' acts :
  PrintJobRecords.pageLoop fuel args skip take hit_count w = Some (r, w', acts) →
  ∃ n : nat,
    requests acts =
      (fun k : nat => (PrintJobRecords.args_jobid args, skip + take * Z.of_nat (S k), take))
        <$> seq 0 n ∧
    (n ≠ 0%nat → skip + take * Z.of_nat n < hit_count).
Proof.
  revert skip w r w' acts. induction fuel as [|fuel IH]; intros skip w r w' acts Hrun.
  - cbn [PrintJobRecords.pageLoop] in Hrun.
    destruct (skip + take <? hit_count); [done|].
    inversion Hrun; subst. by exists 0%nat.
  - cbn [PrintJobRecords.pageLoop] in Hrun.
    destruct (skip + take <? hit_count) eqn:Hlt.
    2: { inversion Hrun; subst. by exists 0%nat. }
    apply Z.ltb_lt in Hlt.
    assert (Hone : ∀ rest, requests rest = [] →
              ∃ n : nat,
                requests ([ActGetRecords (PrintJobRecords.args_jobid args) (skip + take) take]
                          ++ rest) =
                  (fun k : nat =>
                     (PrintJobRecords.args_jobid args, skip + take * Z.of_nat (S k), take))
                    <$> seq 0 n ∧
                (n ≠ 0%nat → skip + take * Z.of_nat n < hit_count)).
    { intros rest Hrest. exists 1%nat. unfold requests in *. rewrite omap_app, Hrest.
      cbn. split; [do 3 f_equal; lia|]. lia. }
    unfold pbind, PrintJobRecords.call_getRecords, PrintJobRecords.printFailure,
      PrintJobRecords.of_result, pprint, act, pret, praise in Hrun.
    destruct (PrintJobRecords.client_getRecords _ _ _ _ _ w) as [[status response] w1].
    cbv beta iota zeta in Hrun. cbn [fst snd] in Hrun.
    destruct (status =? 200); cbn [negb] in Hrun; cbv beta iota zeta in Hrun.
    2: { inversion Hrun; subst. by apply Hone. }
    destruct (PrintJobRecords.documents response) as [e|records].
    { inversion Hrun; subst. by apply Hone. }
    destruct (printRecords_prints records w1) as (rp & lines & Hp).
    rewrite Hp in Hrun. destruct rp as [e|[]].
    { inversion Hrun; subst. apply Hone. apply requests_prints. }
    destruct (PrintJobRecords.pageLoop fuel args (skip + take) take hit_count w1)
      as [[[r2 w2] acts2]|] eqn:Hloop; [|done].
    inversion Hrun; subst.
    destruct (IH _ _ _ _ _ Hloop) as (n' & Hreq & Hbound).
    exists (S n'). split.
    + rewrite seq_pages, requests_get, requests_app, requests_prints, Hreq.
      cbn [app]. f_equal; [do 2 f_equal; lia|].
      apply list_fmap_ext. intros _ k _. do 2 f_equal. lia.
    + intros _. destruct n' as [|n']; [lia|]. specialize (Hbound ltac:(done)). lia.
Qed.

(** Fuel for as many iterations as pages that are left is enough. *)
Lemma pageLoop_terminates (fuel : nat) (args : PrintJobRecords.Args Score)
    (skip take hit_count : Z) (w : World) :
  0 < take →
  (Z.to_nat ((hit_count - skip) / take) <= fuel)%nat →
  is_Some (PrintJobRecords.pageLoop fuel args skip take hit_count w).
Proof.
  intros Htake. revert skip w. induction fuel as [|fuel IH]; intros skip w Hfuel.
  - cbn [PrintJobRecords.pageLoop].
    destruct (skip + take <? hit_count) eqn:Hlt; [|by eexists].
    apply Z.ltb_lt in Hlt. exfalso.
    assert (1 <= (hit_count - skip) / take) by (apply Z.div_le_lower_bound; lia). lia.
  - cbn [PrintJobRecords.pageLoop].
    destruct (skip + take <? hit_count) eqn:Hlt; [|by eexists].
    apply Z.ltb_lt in Hlt.
    unfold pbind, PrintJobRecords.call_getRecords, PrintJobRecords.printFailure,
      PrintJobRecords.of_result, pprint, act, pret, praise.
    destruct (PrintJobRecords.client_getRecords _ _ _ _ _ w) as [[status response] w1].
    cbv beta iota zeta. cbn [fst snd].
    destruct (status =? 200); cbn [negb]; cbv beta iota zeta; [|by eexists].
    destruct (PrintJobRecords.documents response) as [e|records]; [by eexists|].
    destruct (printRecords_prints records w1) as (rp & lines & Hp).
    rewrite Hp. destruct rp as [e|[]]; [by eexists|].
    destruct (IH (skip + take) w1) as [[[r2 w2] acts2] Hloop].
    { replace (hit_count - (skip + take)) with ((hit_count - skip) + (-1) * take) by lia.
      rewrite Z.div_add by lia.
      assert (1 <= (hit_count - skip) / take) by (apply Z.div_le_lower_bound; lia). lia. }
    rewrite Hloop. by eexists.
Qed.

(** X24: [printRecords] prints one line for each record, in order, up to
    the first record that lacks one of the three fields, and changes
    nothing else; it returns when there is no such record, and otherwise
    raises [KeyError] for a field that this record lacks, the lines of the
    records before it having been printed. *)
Theorem printRecords_lines (records : list Doc) (w : World) :
  ∃ r n,
    PrintJobRecords.printRecords records w =
      Some (r, w, (fun line => Sched (EvPrint line)) <$> omap record_line (take n records)) ∧
    Forall complete (take n records) ∧
    match r with
    | inr _ => n = length records
    | inl e =>
        ∃ record key,
          records !! n = Some record ∧ e = KeyError key ∧
          PrintJobRecords.field record key = None ∧
          key ∈ ["timestamp"; "anomalyScore"; "normalizedProbability"]
    end.
Proof.
  induction records as [|record rest IH].
  - exists (inr tt), 0%nat. by repeat split.
  - pose proof (printRecord_cases record w) as Hrec.
    cbn [PrintJobRecords.printRecords]. unfold pbind.
    destruct (record_line record) as [line|] eqn:Hline.
    + rewrite Hrec. destruct IH as (r & n & Hrun & Hall & Hr). rewrite Hrun.
      exists r, (S n). cbn [take omap list_omap]. rewrite Hline. split; [done|].
      split; [constructor; [unfold complete; by rewrite Hline|done]|].
      destruct r as [e|[]]; [done|]. simpl. by rewrite Hr.
    + destruct Hrec as (key & Hrec & Hkey & Hin). rewrite Hrec.
      exists (inl (KeyError key)), 0%nat. split; [done|]. split; [by constructor|].
      by exists record, key.
Qed.

(** X25: whatever the engine answers, the requests of [printJobRecords]
    are for the job given, by pages of 200 from 0 on, without gap or
    repeat; a page after the first is requested only when the first answer
    had status 200 and its [skip] is below the [hitCount] of that first
    answer, later answers not being asked for theirs.  And the script ends:
    fuel for [hitCount / 200] iterations is enough. *)
Theorem records_requests (fuel : nat) (args : PrintJobRecords.Args Score) (w : World) :
  let first := fst (PrintJobRecords.client_getRecords (PrintJobRecords.args_jobid args) 0 200
                      (PrintJobRecords.args_normalizedProbability args)
                      (PrintJobRecords.args_anomalyScore args) w) in
  (∀ r w' acts,
     PrintJobRecords.main fuel args w = Some (r, w', acts) →
     ∃ n : nat,
       requests acts =
         (fun k : nat => (PrintJobRecords.args_jobid args, 200 * Z.of_nat k, 200))
           <$> seq 0 (S n) ∧
       (n ≠ 0%nat →
        fst first = 200 ∧
        ∃ hit_count, PrintJobRecords.hitCount (snd first) = inr hit_count ∧
                     200 * Z.of_nat n < hit_count)) ∧
  ((∀ hit_count,
      fst first = 200 → PrintJobRecords.hitCount (snd first) = inr hit_count →
      (Z.to_nat (hit_count / 200) <= fuel)%nat) →
   is_Some (PrintJobRecords.main fuel args w)).
Proof.
  cbv zeta.
  assert (Hone : ∀ rest, requests rest = [] →
            requests ([ActClient (PrintJobRecords.args_host args) PrintJobRecords.BASE_URL
                         (PrintJobRecords.args_port args)] ++
                      [ActLog ("Get records for job " +:+ PrintJobRecords.args_jobid args)] ++
                      [ActGetRecords (PrintJobRecords.args_jobid args) 0 200] ++ rest) =
            (fun k : nat => (PrintJobRecords.args_jobid args, 200 * Z.of_nat k, 200))
              <$> seq 0 1).
  { intros rest Hrest. unfold requests in *. cbn [app omap list_omap]. by rewrite Hrest. }
  unfold PrintJobRecords.main, pbind, PrintJobRecords.call_getRecords,
    PrintJobRecords.printFailure, PrintJobRecords.printHeader, PrintJobRecords.of_result,
    pprint, act, pret, praise.
  destruct (PrintJobRecords.client_getRecords _ _ _ _ _ w) as [[status response] w1].
  cbv beta iota zeta. cbn [fst snd].
  destruct (status =? 200) eqn:Hstatus; cbn [negb]; cbv beta iota zeta.
  2: { split; [|by eexists]. intros r w' acts Hrun. inversion Hrun; subst.
    exists 0%nat. split; [by apply Hone|done]. }
  apply Z.eqb_eq in Hstatus. subst status.
  destruct (PrintJobRecords.hitCount response) as [e|hit_count] eqn:Hhit.
  { split; [|by eexists]. intros r w' acts Hrun. inversion Hrun; subst.
    exists 0%nat. split; [by apply Hone|done]. }
  destruct (PrintJobRecords.documents response) as [e|records].
  { split; [|by eexists]. intros r w' acts Hrun. inversion Hrun; subst.
    exists 0%nat. split; [by apply Hone|done]. }
  destruct (printRecords_prints records w1) as (rp & lines & Hp).
  rewrite Hp. destruct rp as [e|[]].
  { split; [|by eexists]. intros r w' acts Hrun. inversion Hrun; subst.
    exists 0%nat. split; [|done]. apply Hone.
    change (requests ((fun line => Sched (EvPrint line)) <$>
                      ("Date,Anomaly Score,Normalized Probability" :: lines)) = []).
    apply requests_prints. }
  split.
  - intros r w' acts Hrun.
    destruct (PrintJobRecords.pageLoop fuel args 0 200 hit_count w1)
      as [[[r2 w2] acts2]|] eqn:Hloop; [|done].
    inversion Hrun; subst.
    destruct (pageLoop_requests _ _ _ _ _ _ _ _ _ Hloop) as (n' & Hreq & Hbound).
    exists n'. split.
    + rewrite seq_pages.
      change (requests (ActGetRecords (PrintJobRecords.args_jobid args) 0 200 ::
                        ((fun line => Sched (EvPrint line)) <$>
                           ("Date,Anomaly Score,Normalized Probability" ::
                            lines)) ++ acts2) = 
              (PrintJobRecords.args_jobid args, 200 * Z.of_nat 0, 200) ::
              ((fun k : nat => (PrintJobRecords.args_jobid args, 200 * Z.of_nat (S k), 200))
                 <$> seq 0 n')).
      rewrite requests_get, requests_app, requests_prints, Hreq.
      cbn [app]. f_equal.
    + intros Hn. split; [done|]. exists hit_count. split; [done|].
      specialize (Hbound Hn). lia.
  - intros Hfuel.
    destruct (pageLoop_terminates fuel args 0 200 hit_count w1) as [[[r2 w2] acts2] Hloop];
      [lia| |].
    { rewrite Z.sub_0_r. by apply Hfuel. }
    rewrite Hloop. by eexists.
Qed.


Lemma printed_skip (a : action) (acts : list action) :
  (∀ line, a ≠ Sched (EvPrint line)) → printed (a :: acts) = printed acts.
Proof.
  intros Ha. unfold printed. cbn [omap list_omap].
  destruct a as [[]| | | | | | | |]; try done. by destruct (Ha line).
Qed.

Lemma printed_app (acts acts' : list action) :
  printed (acts ++ acts') = printed acts ++ printed acts'.
Proof. apply omap_app. Qed.

(** The loop against an engine that answers every request with status 200
    and records that have the three fields. *)
Lemma pageLoop_listing (fuel : nat) (args : PrintJobRecords.Args Score)
    (skip hit_count : Z) (w : World) (page : Z → Response) (docs : Z → list Doc) :
  (∀ skip w, fst (PrintJobRecords.client_getRecords (PrintJobRecords.args_jobid args) skip 200
                    (PrintJobRecords.args_normalizedProbability args)
                    (PrintJobRecords.args_anomalyScore args) w) = (200, page skip)) →
  (∀ skip, PrintJobRecords.documents (page skip) = inr (docs skip)) →
  (∀ skip, Forall complete (docs skip)) →
  (Z.to_nat ((hit_count - skip) / 200) <= fuel)%nat →
  ∃ w' acts,
    PrintJobRecords.pageLoop fuel args skip 200 hit_count w = Some (inr tt, w', acts) ∧
    requests acts =
      (fun k : nat => (PrintJobRecords.args_jobid args, skip + 200 * Z.of_nat (S k), 200))
        <$> seq 0 (Z.to_nat ((hit_count - skip + 199) / 200 - 1)) ∧
    printed acts =
      omap record_line
        (concat ((fun k : nat => docs (skip + 200 * Z.of_nat (S k)))
                   <$> seq 0 (Z.to_nat ((hit_count - skip + 199) / 200 - 1)))).
Proof.
  intros Hpage Hdocs Hcomplete. revert skip w.
  induction fuel as [|fuel IH]; intros skip w Hfuel.
  - cbn [PrintJobRecords.pageLoop].
    destruct (skip + 200 <? hit_count) eqn:Hlt.
    { apply Z.ltb_lt in Hlt. exfalso.
      assert (1 <= (hit_count - skip) / 200) by (apply Z.div_le_lower_bound; lia). lia. }
    apply Z.ltb_ge in Hlt.
    assert ((hit_count - skip + 199) / 200 - 1 <= 0) as Hn.
    { assert ((hit_count - skip + 199) / 200 < 2) by (apply Z.div_lt_upper_bound; lia). lia. }
    replace (Z.to_nat ((hit_count - skip + 199) / 200 - 1)) with 0%nat by lia.
    by eexists _, _.
  - cbn [PrintJobRecords.pageLoop].
    destruct (skip + 200 <? hit_count) eqn:Hlt.
    2: { apply Z.ltb_ge in Hlt.
         assert ((hit_count - skip + 199) / 200 - 1 <= 0) as Hn.
         { assert ((hit_count - skip + 199) / 200 < 2) by (apply Z.div_lt_upper_bound; lia).
           lia. }
         replace (Z.to_nat ((hit_count - skip + 199) / 200 - 1)) with 0%nat by lia.
         by eexists _, _. }
    apply Z.ltb_lt in Hlt.
    unfold pbind, PrintJobRecords.call_getRecords, PrintJobRecords.printFailure,
      PrintJobRecords.of_result, pprint, act, pret, praise.
    specialize (Hpage (skip + 200) w).
    destruct (PrintJobRecords.client_getRecords _ _ _ _ _ w) as [[status response] w1].
    cbn [fst] in Hpage. inversion Hpage; subst. clear Hpage.
    cbv beta iota zeta. cbn [fst snd]. cbn [Z.eqb Pos.eqb negb]. cbv beta iota zeta.
    rewrite Hdocs, (printRecords_complete _ _ (Hcomplete _)).
    destruct (IH (skip + 200) w1) as (w' & acts & Hloop & Hreq & Hprinted).
    { replace (hit_count - (skip + 200)) with ((hit_count - skip) + (-1) * 200) by lia.
      rewrite Z.div_add by lia.
      assert (1 <= (hit_count - skip) / 200) by (apply Z.div_le_lower_bound; lia). lia. }
    rewrite Hloop. eexists _, _. split; [done|].
    assert (Hn : Z.to_nat ((hit_count - skip + 199) / 200 - 1) =
                 S (Z.to_nat ((hit_count - (skip + 200) + 199) / 200 - 1))).
    { replace (hit_count - (skip + 200) + 199) with ((hit_count - skip + 199) + (-1) * 200)
        by lia.
      rewrite Z.div_add by lia.
      assert (2 <= (hit_count - skip + 199) / 200) by (apply Z.div_le_lower_bound; lia).
      lia. }
    rewrite Hn, !seq_pages. split.
    + change (requests (ActGetRecords (PrintJobRecords.args_jobid args) (skip + 200) 200 ::
                        ((fun line => Sched (EvPrint line)) <$> omap record_line
                           (docs (skip + 200))) ++ acts) = 
              (PrintJobRecords.args_jobid args, skip + 200 * Z.of_nat 1, 200) ::
              ((fun k : nat =>
                  (PrintJobRecords.args_jobid args, skip + 200 * Z.of_nat (S (S k)), 200))
                 <$> seq 0 (Z.to_nat ((hit_count - (skip + 200) + 199) / 200 - 1)))).
      rewrite requests_get, requests_app, requests_prints, Hreq.
      cbn [app]. f_equal.
      apply list_fmap_ext. intros _ k _. do 2 f_equal. lia.
    + change (printed (ActGetRecords (PrintJobRecords.args_jobid args) (skip + 200) 200 ::
                        ((fun line => Sched (EvPrint line)) <$> omap record_line
                           (docs (skip + 200))) ++ acts) = 
              omap record_line
                (concat (docs (skip + 200 * Z.of_nat 1) ::
                         ((fun k : nat => docs (skip + 200 * Z.of_nat (S (S k))))
                            <$> seq 0 (Z.to_nat ((hit_count - (skip + 200) + 199) / 200 - 1)))))).
      rewrite printed_skip by done.
      rewrite printed_app, printed_prints, Hprinted, concat_cons, omap_app.
      replace (skip + 200 * Z.of_nat 1) with (skip + 200) by lia.
      f_equal. f_equal. f_equal.
      apply list_fmap_ext. intros _ k _. f_equal. lia.
Qed.

(** X26: against an engine that answers every request with status 200
    and records that have the three fields, the script requests
    [pages hit_count] pages, one at least, and prints the header once and
    then one line for each record of each page, in order. *)
Theorem records_listing (fuel : nat) (args : PrintJobRecords.Args Score) (w : World)
    (page : Z → Response) (docs : Z → list Doc) (hit_count : Z) :
  (∀ skip w, fst (PrintJobRecords.client_getRecords (PrintJobRecords.args_jobid args) skip 200
                    (PrintJobRecords.args_normalizedProbability args)
                    (PrintJobRecords.args_anomalyScore args) w) = (200, page skip)) →
  PrintJobRecords.hitCount (page 0) = inr hit_count →
  (∀ skip, PrintJobRecords.documents (page skip) = inr (docs skip)) →
  (∀ skip, Forall complete (docs skip)) →
  (Z.to_nat (hit_count / 200) <= fuel)%nat →
  ∃ w' acts,
    PrintJobRecords.main fuel args w = Some (inr tt, w', acts) ∧
    requests acts =
      (fun k : nat => (PrintJobRecords.args_jobid args, 200 * Z.of_nat k, 200))
        <$> seq 0 (pages hit_count) ∧
    printed acts =
      "Date,Anomaly Score,Normalized Probability" ::
      omap record_line
        (concat ((fun k : nat => docs (200 * Z.of_nat k)) <$> seq 0 (pages hit_count))).
Proof.
  intros Hpage Hhit Hdocs Hcomplete Hfuel.
  unfold PrintJobRecords.main, pbind, PrintJobRecords.call_getRecords,
    PrintJobRecords.printFailure, PrintJobRecords.printHeader, PrintJobRecords.of_result,
    pprint, act, pret, praise.
  pose proof (Hpage 0 w) as Hfirst.
  destruct (PrintJobRecords.client_getRecords _ _ _ _ _ w) as [[status response] w1].
  cbn [fst] in Hfirst. inversion Hfirst; subst. clear Hfirst.
  cbv beta iota zeta. cbn [fst snd]. cbn [Z.eqb Pos.eqb negb]. cbv beta iota zeta.
  rewrite Hhit, Hdocs, (printRecords_complete _ _ (Hcomplete _)).
  destruct (pageLoop_listing fuel args 0 hit_count w1 page docs Hpage Hdocs Hcomplete)
    as (w' & acts & Hloop & Hreq & Hprinted).
  { by rewrite Z.sub_0_r. }
  rewrite Hloop. eexists _, _. split; [done|].
  rewrite Z.sub_0_r in Hreq, Hprinted.
  assert (Hn : pages hit_count = S (Z.to_nat ((hit_count + 199) / 200 - 1))).
  { unfold pages. lia. }
  rewrite Hn, !seq_pages. split.
  - change (requests (ActClient (PrintJobRecords.args_host args) PrintJobRecords.BASE_URL
                        (PrintJobRecords.args_port args) ::
                      ActLog ("Get records for job " +:+ PrintJobRecords.args_jobid args) ::
                      ActGetRecords (PrintJobRecords.args_jobid args) 0 200 ::
                      ((fun line => Sched (EvPrint line)) <$>
                         ("Date,Anomaly Score,Normalized Probability" ::
                          omap record_line (docs 0))) ++ acts) = 
            (PrintJobRecords.args_jobid args, 200 * Z.of_nat 0, 200) ::
            ((fun k : nat => (PrintJobRecords.args_jobid args, 200 * Z.of_nat (S k), 200))
               <$> seq 0 (Z.to_nat ((hit_count + 199) / 200 - 1)))).
    change (requests (ActClient ?h ?b ?p :: ActLog ?m :: ?l)) with (requests l).
    rewrite requests_get, requests_app, requests_prints, Hreq.
    cbn [app]. f_equal.
  - change (printed (ActClient (PrintJobRecords.args_host args) PrintJobRecords.BASE_URL
                        (PrintJobRecords.args_port args) ::
                      ActLog ("Get records for job " +:+ PrintJobRecords.args_jobid args) ::
                      ActGetRecords (PrintJobRecords.args_jobid args) 0 200 ::
                      ((fun line => Sched (EvPrint line)) <$>
                         ("Date,Anomaly Score,Normalized Probability" ::
                          omap record_line (docs 0))) ++ acts) = 
            "Date,Anomaly Score,Normalized Probability" ::
            omap record_line
              (concat (docs (200 * Z.of_nat 0) ::
                       ((fun k : nat => docs (200 * Z.of_nat (S k)))
                          <$> seq 0 (Z.to_nat ((hit_count + 199) / 200 - 1)))))).
    rewrite !printed_skip by done.
    rewrite printed_app, printed_prints, Hprinted, concat_cons, omap_app.
    done.
Qed.

End RecordsProperties.

(** ** The properties of the scripts in the sample environments *)

Lemma job_closed_iff_witness :
  ∃ rj wj aj,
    createJob (client := sampleJobClient 201) (args_job_id sample_realtime_args) [t1] =
      Some (rj, wj, aj) ∧
    filter is_close sample_realtime_run =
      match inr (A:=error) tt, rj with
      | inr _, inr (Some job_id) => [ActClose job_id]
      | _, _ => []
      end ∧
    ∀ job_id, ActClose job_id ∈ sample_realtime_run →
              last sample_realtime_run = Some (ActClose job_id).
Proof.
  apply (job_closed_iff (env := sampleCollaborators "none" 202) (client := sampleJobClient 201)
           (platform := samplePlatform) 3 0 sample_realtime_args [t1] (inr tt) []
           sample_realtime_run).
  by_evaluation.
Defined.

Lemma services_need_configuration_witness :
  ∃ text w1 config region access_id secret_key,
    open_read (Platform := samplePlatform) (args_config sample_realtime_args) [t1] =
      (Some text, w1) ∧
    config_readfp (Platform := samplePlatform) ("[root]" +:+ newline +:+ text) = inr config ∧
    config_get (Platform := samplePlatform) config "root" "region" = Got region ∧
    config_get (Platform := samplePlatform) config "root" "aws_access_key_id" = Got access_id ∧
    config_get (Platform := samplePlatform) config "root" "aws_secret_access_key"
      = Got secret_key ∧
    fst (connect_to_region (Platform := samplePlatform) region access_id secret_key w1) = true.
Proof.
  apply (services_need_configuration (env := sampleCollaborators "none" 202)
           (client := sampleJobClient 201) (platform := samplePlatform)
           3 0 sample_realtime_args [t1] (inr tt) []
           (ActOpen "aws.conf" :: ActConnect "eu-west-1" "id" "secret" :: sample_realtime_run));
    by_evaluation.
Defined.

Lemma end_date_ignored_in_realtime_witness :
  main (env := sampleCollaborators "none" 202) (client := sampleJobClient 201)
    (platform := samplePlatform) 3 0 sample_realtime_args [t1] =
  main (env := sampleCollaborators "none" 202) (client := sampleJobClient 201)
    (platform := samplePlatform) 0 0
    (mkArgs (args_config sample_realtime_args) (args_api_host sample_realtime_args)
       (args_api_port sample_realtime_args) (args_job_id sample_realtime_args)
       None (Some "tomorrow")) [t1].
Proof.
  apply (end_date_ignored_in_realtime (env := sampleCollaborators "none" 202)
           (client := sampleJobClient 201) (platform := samplePlatform)
           3 0 0 sample_realtime_args (Some "tomorrow") [t1]).
  by_evaluation.
Defined.

Lemma date_error_after_job_witness :
  ∃ job_id wj aj,
    createJob (client := sampleJobClient 201) (args_job_id sample_bad_date_args) [t1] =
      Some (inr (Some job_id), wj, aj) ∧
    filter is_close (ActClient "localhost" API_BASE_URL (PortDefault 8080) :: sample_job_actions)
      = [] ∧
    ((∃ date, args_start_date sample_bad_date_args = Some date ∧
              strptime (Platform := samplePlatform) date "%Y-%m-%d" = None ∧
              [t1] = wj ∧
              ActClient "localhost" API_BASE_URL (PortDefault 8080) :: sample_job_actions =
              ActClient (args_api_host sample_bad_date_args) API_BASE_URL
                (args_api_port sample_bad_date_args) :: aj) ∨
     (∃ date, args_end_date sample_bad_date_args = Some date ∧
              strptime (Platform := samplePlatform) date "%Y-%m-%d" = None ∧
              [t1] = snd (utcnow (Collaborators := sampleCollaborators "none" 202) wj) ∧
              ActClient "localhost" API_BASE_URL (PortDefault 8080) :: sample_job_actions =
              ActClient (args_api_host sample_bad_date_args) API_BASE_URL
                (args_api_port sample_bad_date_args)
              :: aj ++ [Sched (EvUtcnow
                          (fst (utcnow (Collaborators := sampleCollaborators "none" 202) wj)))])).
Proof.
  apply (date_error_after_job (env := sampleCollaborators "none" 202)
           (client := sampleJobClient 201) (platform := samplePlatform)
           3 0 sample_bad_date_args [t1] [t1]
           (ActClient "localhost" API_BASE_URL (PortDefault 8080) :: sample_job_actions)).
  by_evaluation.
Defined.

Lemma records_requests_witness :
  (∃ n : nat,
     requests sample_listing =
       (fun k : nat => (PrintJobRecords.args_jobid sample_records_args, 200 * Z.of_nat k, 200))
         <$> seq 0 (S n) ∧
     (n ≠ 0%nat →
      200 = 200 ∧
      ∃ hit_count, inr (A:=error) 450 = inr hit_count ∧ 200 * Z.of_nat n < hit_count)) ∧
  is_Some (PrintJobRecords.main (client := sampleRecordsClient) 2 sample_records_args tt).
Proof.
  destruct (records_requests (client := sampleRecordsClient) 2 sample_records_args tt)
    as [Hrequests Hends].
  split.
  - apply (Hrequests (inr tt) tt sample_listing). by_evaluation.
  - apply Hends. intros hit_count _ Hhit. inversion Hhit. by_evaluation.
Defined.

Lemma records_listing_witness :
  ∃ w' acts,
    PrintJobRecords.main (client := sampleRecordsClient) 2 sample_records_args tt =
      Some (inr tt, w', acts) ∧
    requests acts =
      (fun k : nat => (PrintJobRecords.args_jobid sample_records_args, 200 * Z.of_nat k, 200))
        <$> seq 0 (pages 450) ∧
    printed acts =
      "Date,Anomaly Score,Normalized Probability" ::
      omap (record_line (H := sampleRecordsClient))
        (concat ((fun k : nat => [sample_doc (200 * Z.of_nat k)]) <$> seq 0 (pages 450))).
Proof.
  apply (records_listing (client := sampleRecordsClient) 2 sample_records_args tt
           (fun skip => skip) (fun skip => [sample_doc skip]) 450).
  - done.
  - done.
  - done.
  - intros skip. constructor; [|constructor].
    exists (str_int skip +:+ "," +:+ "1" +:+ "," +:+ "2").
    unfold record_line, sample_doc. cbn [PrintJobRecords.field sampleRecordsClient].
    rewrite lookup_insert.
    rewrite lookup_insert_ne, lookup_insert by by_evaluation.
    rewrite !lookup_insert_ne, lookup_insert by by_evaluation.
    done.
  - by_evaluation.
Defined.
